(** * RetirementForm.jsx: validation, accumulation and decumulation

    A shallow embedding of the functions of the retirement planning
    component that carry its logic: [validateInputs],
    [simulateAccumulation] and [simulateDecumulation], and the two
    handlers around them, [handleChange] and [handleCalculate].

    Conventions of the embedding.
    - A JavaScript number is a [number]: NaN, the two infinities, or an
      exact rational.  Arithmetic on finite values is exact: binary64
      rounding, overflow and the sign of zero are outside the model.
    - [undefined] is [None] in an [option number].
    - A string is a [string] of code units below 256.
    - [Math.random] is an oracle [rand : nat -> Q]; the k-th call returns
      [rand k], and the number of calls made so far is threaded through
      the simulation.
    - The fund selects hold one of their five options, so a fund is a
      value of the enumeration [fund]; every other field of the form is
      the string the component keeps.  [handleChange] writes into the
      array of the fund selects as the language does, on the texts and
      with holes, and its result is read back as a list of funds.
    - A call returns an [outcome]: a value, or the RangeError that
      [Array(n)] throws.  Each loop whose test depends on the data takes
      a bound on its passes ([fuel]) and reports when the bound is used
      up.
    - [sort] is the stable sort of the language; with the comparator
      [(a, b) => a - b] on numbers other than NaN its result does not
      depend on the algorithm, and it is written as an insertion sort. *)

From Stdlib Require Import QArith Qround Lqa ZArith Ascii String List Permutation Sorted.
From stdpp Require Import base option list strings gmap pretty.

Open Scope Q_scope.
Open Scope string_scope.
Open Scope list_scope.

(** ** Numbers *)

Inductive number : Type :=
  | NaN : number
  | NegInf : number
  | Fin (q : Q) : number
  | PosInf : number.

(** Whole numbers, and counters, as numbers. *)
Definition ofZ (z : Z) : number := Fin (inject_Z z).
Definition ofNat (n : nat) : number := ofZ (Z.of_nat n).

(** The tests [a < b] and [a <= b] on rationals. *)
Definition Qltb (a b : Q) : bool := negb (Qle_bool b a).
Definition Qleb (a b : Q) : bool := Qle_bool a b.

(** [a + b] *)
Definition nadd (a b : number) : number :=
  match a, b with
  | NaN, _ | _, NaN => NaN
  | PosInf, NegInf | NegInf, PosInf => NaN
  | PosInf, _ | _, PosInf => PosInf
  | NegInf, _ | _, NegInf => NegInf
  | Fin x, Fin y => Fin (x + y)
  end.

(** [- a] *)
Definition nneg (a : number) : number :=
  match a with
  | NaN => NaN
  | NegInf => PosInf
  | Fin x => Fin (- x)
  | PosInf => NegInf
  end.

(** [a - b] *)
Definition nsub (a b : number) : number := nadd a (nneg b).

(** The infinity whose sign is the product of two signs; NaN when one
    of them is that of zero. *)
Definition signed_inf (s t : comparison) : number :=
  match s, t with
  | Eq, _ | _, Eq => NaN
  | Lt, Lt | Gt, Gt => PosInf
  | _, _ => NegInf
  end.

(** Signs as comparisons with zero: [Lt] negative, [Eq] zero (or NaN),
    [Gt] positive. *)
Definition fin_sign (x : Q) : comparison := (x ?= 0)%Q.

Definition inf_sign (a : number) : comparison :=
  match a with
  | NegInf => Lt
  | PosInf => Gt
  | Fin x => fin_sign x
  | NaN => Eq
  end.

(** [a * b]: an infinity times zero is NaN. *)
Definition nmul (a b : number) : number :=
  match a, b with
  | NaN, _ | _, NaN => NaN
  | Fin x, Fin y => Fin (x * y)
  | _, _ => signed_inf (inf_sign a) (inf_sign b)
  end.

(** [a / b]: a finite non-zero value over zero is an infinity (zero is
    taken as positive), zero over zero and infinity over infinity are
    NaN. *)
Definition ndiv (a b : number) : number :=
  match a, b with
  | NaN, _ | _, NaN => NaN
  | Fin x, Fin y =>
      if Qeq_bool y 0 then signed_inf (fin_sign x) Gt else Fin (x / y)
  | Fin _, _ => Fin 0
  | _, Fin y => signed_inf (inf_sign a) (if Qltb y 0 then Lt else Gt)
  | _, _ => NaN
  end.

(** [a < b]; every comparison with NaN is false. *)
Definition nlt (a b : number) : bool :=
  match a, b with
  | NaN, _ | _, NaN => false
  | _, NegInf | PosInf, _ => false
  | NegInf, _ | _, PosInf => true
  | Fin x, Fin y => Qltb x y
  end.

(** [a <= b] *)
Definition nle (a b : number) : bool :=
  match a, b with
  | NaN, _ | _, NaN => false
  | NegInf, _ | _, PosInf => true
  | _, NegInf | PosInf, _ => false
  | Fin x, Fin y => Qleb x y
  end.

(** [a > b] and [a >= b] *)
Definition ngt (a b : number) : bool := nlt b a.
Definition nge (a b : number) : bool := nle b a.

(** [isNaN(a)] for a number. *)
Definition isNaN (a : number) : bool :=
  match a with NaN => true | _ => false end.

(** [!a] for a number: zero and NaN are falsy. *)
Definition falsy (a : number) : bool :=
  match a with
  | NaN => true
  | Fin x => Qeq_bool x 0
  | _ => false
  end.

(** [Math.min(a, b)] and [Math.max(a, b)]: NaN if either argument is. *)
Definition Math_min (a b : number) : number :=
  match a, b with
  | NaN, _ | _, NaN => NaN
  | _, _ => if nle a b then a else b
  end.

Definition Math_max (a b : number) : number :=
  match a, b with
  | NaN, _ | _, NaN => NaN
  | _, _ => if nle b a then a else b
  end.

(** [Math.floor(a)] *)
Definition Math_floor (a : number) : number :=
  match a with
  | Fin x => ofZ (Qfloor x)
  | _ => a
  end.

(** ** Strings to numbers *)

(** The code unit of a character. *)
Definition code (c : ascii) : nat := nat_of_ascii c.

(** White space and line terminators among the code units below 256. *)
Definition isWhiteSpace (c : ascii) : bool :=
  let n := code c in
  (Nat.eqb n 9 || Nat.eqb n 10 || Nat.eqb n 11 || Nat.eqb n 12
   || Nat.eqb n 13 || Nat.eqb n 32 || Nat.eqb n 160)%bool.

(** The string without its leading, trailing, or leading and trailing
    white space. *)
Fixpoint trimStart (s : string) : string :=
  match s with
  | String c s' => if isWhiteSpace c then trimStart s' else s
  | EmptyString => EmptyString
  end.

Fixpoint revString (s acc : string) : string :=
  match s with
  | String c s' => revString s' (String c acc)
  | EmptyString => acc
  end.

Definition trimEnd (s : string) : string :=
  revString (trimStart (revString s "")) "".

Definition trim (s : string) : string := trimEnd (trimStart s).

(** Value of a digit in the given radix (at most 16). *)
Definition digitValue (radix : nat) (c : ascii) : option Z :=
  let n := code c in
  let v :=
    if (Nat.leb 48 n && Nat.leb n 57)%bool then Some (n - 48)%nat
    else if (Nat.leb 97 n && Nat.leb n 102)%bool then Some (n - 87)%nat
    else if (Nat.leb 65 n && Nat.leb n 70)%bool then Some (n - 55)%nat
    else None in
  match v with
  | Some d => if Nat.ltb d radix then Some (Z.of_nat d) else None
  | None => None
  end.

(** The longest prefix of digits: their count, their value, the rest. *)
Fixpoint digitsFrom (radix : nat) (s : string) (count : nat) (acc : Z)
  : nat * Z * string :=
  match s with
  | String c s' =>
      match digitValue radix c with
      | Some d => digitsFrom radix s' (S count) (acc * Z.of_nat radix + d)%Z
      | None => (count, acc, s)
      end
  | EmptyString => (count, acc, s)
  end.

(** The longest prefix of digits, from no digit read. *)
Definition digits (radix : nat) (s : string) : nat * Z * string :=
  digitsFrom radix s 0 0%Z.

(** An optional sign: [true] for a minus. *)
Definition signOf (s : string) : bool * string :=
  match s with
  | String "-" s' => (true, s')
  | String "+" s' => (false, s')
  | _ => (false, s)
  end.

(** The value under a sign. *)
Definition withSign (neg : bool) (a : number) : number :=
  if neg then nneg a else a.

(** [10 ^ e] *)
Definition pow10 (e : Z) : Q := Qpower (inject_Z 10) e.

(** An exponent part [e], [e+] or [e-] followed by digits; when no digit
    follows, nothing is consumed. *)
Definition exponentPart (s : string) : Z * string :=
  match s with
  | String c s' =>
      if (Nat.eqb (code c) 101 || Nat.eqb (code c) 69)%bool then
        let '(neg, s'') := signOf s' in
        match digits 10 s'' with
        | (O, _, _) => (0%Z, s)
        | (_, e, rest) => ((if neg then - e else e)%Z, rest)
        end
      else (0%Z, s)
  | EmptyString => (0%Z, s)
  end.

(** The longest prefix that is an unsigned decimal literal, with its
    value, and the rest of the string: [Infinity], or digits with an
    optional fraction, or a fraction alone, then an optional exponent. *)
Definition unsignedDecimal (s : string) : option (number * string) :=
  if String.prefix "Infinity" s
  then Some (PosInf, substring 8 (String.length s - 8) s)
  else
    let '(n1, v1, r1) := digits 10 s in
    let mantissa :=
      match r1 with
      | String "." r =>
          let '(n2, v2, r2) := digits 10 r in
          match n1, n2 with
          | O, O => None
          | _, _ =>
              Some (inject_Z v1 + inject_Z v2 / pow10 (Z.of_nat n2), r2)
          end
      | _ =>
          match n1 with
          | O => None
          | S _ => Some (inject_Z v1, r1)
          end
      end in
    match mantissa with
    | Some (m, r) =>
        let '(e, rest) := exponentPart r in
        Some (Fin (m * pow10 e), rest)
    | None => None
    end.

(** [parseFloat(s)] *)
Definition parseFloat (s : string) : number :=
  let '(neg, s') := signOf (trimStart s) in
  match unsignedDecimal s' with
  | Some (v, _) => withSign neg v
  | None => NaN
  end.

(** The digits after a [0x] or [0X] prefix. *)
Definition hexPrefixed (s : string) : option string :=
  match s with
  | String "0" (String c s') =>
      if (Nat.eqb (code c) 120 || Nat.eqb (code c) 88)%bool
      then Some s' else None
  | _ => None
  end.

(** [parseInt(s)] with no radix argument. *)
Definition parseInt (s : string) : number :=
  let '(neg, s') := signOf (trimStart s) in
  let '(radix, body) :=
    match hexPrefixed s' with
    | Some r => (16%nat, r)
    | None => (10%nat, s')
    end in
  match digits radix body with
  | (O, _, _) => NaN
  | (_, v, _) => withSign neg (ofZ v)
  end.

(** A [0x], [0o] or [0b] literal: the radix and the digits. *)
Definition radixPrefixed (s : string) : option (nat * string) :=
  match s with
  | String "0" (String c s') =>
      let n := code c in
      if (Nat.eqb n 120 || Nat.eqb n 88)%bool then Some (16%nat, s')
      else if (Nat.eqb n 111 || Nat.eqb n 79)%bool then Some (8%nat, s')
      else if (Nat.eqb n 98 || Nat.eqb n 66)%bool then Some (2%nat, s')
      else None
  | _ => None
  end.

(** [Number(s)], the conversion applied to a string operand of [-]: the
    whole trimmed string must be a numeric literal, and the empty string
    is zero. *)
Definition toNumber (s : string) : number :=
  let t := trim s in
  match t with
  | EmptyString => Fin 0
  | _ =>
      match radixPrefixed t with
      | Some (radix, body) =>
          match digits radix body with
          | (S _, v, EmptyString) => ofZ v
          | _ => NaN
          end
      | None =>
          let '(neg, t') := signOf t in
          match unsignedDecimal t' with
          | Some (v, EmptyString) => withSign neg v
          | _ => NaN
          end
      end
  end.

(** ** Form state *)

(** The options of the fund selects. *)
Inductive fund : Type := FA1 | FA2 | FA3 | FA4 | FA5.

(** An entry of [fundData]. *)
Record fundProfile : Type := { fundReturn : Q; fundVolatility : Q }.

(** [fundData]: annual return and volatility of each fund. *)
Definition fundData (f : fund) : fundProfile :=
  match f with
  | FA1 => {| fundReturn := 0.025; fundVolatility := 0.05 |}
  | FA2 => {| fundReturn := 0.03; fundVolatility := 0.0556 |}
  | FA3 => {| fundReturn := 0.035; fundVolatility := 0.0799 |}
  | FA4 => {| fundReturn := 0.045; fundVolatility := 0.1151 |}
  | FA5 => {| fundReturn := 0.053; fundVolatility := 0.1464 |}
  end.

(** The standard state pension, per year. *)
Definition STANDARD_STATE_PENSION_ANNUAL : number := Fin 11960.

(** [formData]: the text inputs and the selects other than the fund
    selects hold strings. *)
Record formData : Type := {
  ageToLowRiskFund : string;
  numFunds : string;
  funds : list fund;
  age : string;
  salary : string;
  currentPot : string;
  contributionRate : string;
  retirementAge : string;
  fundSelection : fund;
  drawdownType : string;
  drawdownPercentage : string;
  drawdownFixed : string;
  drawdownInitialPotPercentage : string;
  inflationRate : string;
  includeStatePension : string;
  customStatePensionAnnual : string
}.

(** What a call can do besides returning: throw a RangeError (the only
    exception these functions can raise), or use up the iterations it
    was allowed. *)
Inductive outcome (A : Type) : Type :=
  | Ok (a : A)
  | RangeError
  | OutOfFuel.
Arguments Ok {A} a.
Arguments RangeError {A}.
Arguments OutOfFuel {A}.

#[global] Instance outcome_ret : MRet outcome := fun A a => Ok a.
#[global] Instance outcome_bind : MBind outcome := fun A B k o =>
  match o with
  | Ok a => k a
  | RangeError => RangeError
  | OutOfFuel => OutOfFuel
  end.

(** ** validateInputs *)

(** An entry of [fields]. *)
Record field : Type := { name : string; label : string; value : string }.

(** The fields that must hold a number, in the order the function builds
    them; the drawdown field depends on the drawdown type and the custom
    pension field on the state pension choice. *)
Definition requiredFields (fd : formData) : list field :=
  [ {| name := "age"; label := "Current Age"; value := age fd |};
    {| name := "salary"; label := "Salary"; value := salary fd |};
    {| name := "currentPot"; label := "Current Pot"; value := currentPot fd |};
    {| name := "contributionRate"; label := "Contribution Rate";
       value := contributionRate fd |};
    {| name := "retirementAge"; label := "Retirement Age";
       value := retirementAge fd |};
    {| name := "ageToLowRiskFund"; label := "Age to Low Risk Fund";
       value := ageToLowRiskFund fd |};
    {| name := "inflationRate"; label := "Inflation Rate";
       value := inflationRate fd |};
    {| name := "numFunds"; label := "Number of Funds"; value := numFunds fd |} ]
  ++ (if String.eqb (drawdownType fd) "percentage" then
        [ {| name := "drawdownPercentage"; label := "Drawdown Percentage";
             value := drawdownPercentage fd |} ]
      else if String.eqb (drawdownType fd) "fixed" then
        [ {| name := "drawdownFixed"; label := "Fixed Drawdown Amount";
             value := drawdownFixed fd |} ]
      else if String.eqb (drawdownType fd) "initialPot" then
        [ {| name := "drawdownInitialPotPercentage";
             label := "Initial Pot Drawdown Percentage";
             value := drawdownInitialPotPercentage fd |} ]
      else [])
  ++ (if String.eqb (includeStatePension fd) "Yes - Custom" then
        [ {| name := "customStatePensionAnnual";
             label := "Custom State Pension Annual Amount";
             value := customStatePensionAnnual fd |} ]
      else []).

(** [!field.value || isNaN(parseFloat(field.value))]: the empty string is
    the only falsy string. *)
Definition notANumber (v : string) : bool :=
  (String.eqb v "" || isNaN (parseFloat v))%bool.

(** The first loop: one message per field that does not hold a number. *)
Definition checkNumbers (fields : list field) (newErrors : gmap string string)
  : gmap string string :=
  fold_left
    (fun errs f =>
       if notANumber (value f)
       then <[name f := String.append (label f) " must be a valid number."]> errs
       else errs)
    fields newErrors.

(** [if (c) newErrors[k] = msg;] *)
Definition check (c : bool) (k msg : string) (newErrors : gmap string string)
  : gmap string string :=
  if c then <[k := msg]> newErrors else newErrors.

(** The range and logic checks, on the parsed values. *)
Definition checkRanges (fd : formData) (newErrors : gmap string string)
  : gmap string string :=
  let parsedAge := parseInt (age fd) in
  let parsedRetirementAge := parseInt (retirementAge fd) in
  let parsedSalary := parseFloat (salary fd) in
  let parsedCurrentPot := parseFloat (currentPot fd) in
  let parsedContributionRate := parseFloat (contributionRate fd) in
  let parsedDrawdownPercentage := parseFloat (drawdownPercentage fd) in
  let parsedDrawdownFixed := parseFloat (drawdownFixed fd) in
  let parsedDrawdownInitialPotPercentage :=
    parseFloat (drawdownInitialPotPercentage fd) in
  let parsedAgeToLowRiskFund := parseInt (ageToLowRiskFund fd) in
  let parsedInflationRate := parseFloat (inflationRate fd) in
  let parsedNumFunds := parseInt (numFunds fd) in
  let parsedCustomStatePensionAnnual :=
    parseFloat (customStatePensionAnnual fd) in
  let e1 := check (nle parsedAge (Fin 0)) "age"
              "Current Age must be positive." newErrors in
  let e2 := check (nle parsedRetirementAge parsedAge) "retirementAge"
              "Retirement Age must be greater than Current Age." e1 in
  let e3 := check (nle parsedSalary (Fin 0)) "salary"
              "Salary must be positive." e2 in
  let e4 := check (nlt parsedCurrentPot (Fin 0)) "currentPot"
              "Current Pot cannot be negative." e3 in
  let e5 := check (nle parsedContributionRate (Fin 0)
                   || ngt parsedContributionRate (Fin 100))
              "contributionRate"
              "Contribution Rate must be between 0 and 100%." e4 in
  let e6 := check (String.eqb (drawdownType fd) "percentage"
                   && (nle parsedDrawdownPercentage (Fin 0)
                       || ngt parsedDrawdownPercentage (Fin 100)))
              "drawdownPercentage"
              "Drawdown Percentage must be between 0 and 100%." e5 in
  let e7 := check (String.eqb (drawdownType fd) "fixed"
                   && nle parsedDrawdownFixed (Fin 0))
              "drawdownFixed"
              "Fixed Drawdown Amount must be positive." e6 in
  let e8 := check (String.eqb (drawdownType fd) "initialPot"
                   && (nle parsedDrawdownInitialPotPercentage (Fin 0)
                       || ngt parsedDrawdownInitialPotPercentage (Fin 100)))
              "drawdownInitialPotPercentage"
              "Initial Pot Drawdown Percentage must be between 0 and 100%."
              e7 in
  let e9 := check (nlt parsedAgeToLowRiskFund parsedRetirementAge)
              "ageToLowRiskFund"
              "Age to Low Risk Fund must be at least the Retirement Age."
              e8 in
  let e10 := check (nlt parsedInflationRate (Fin 0)
                    || ngt parsedInflationRate (Fin 20))
              "inflationRate"
              "Inflation Rate must be between 0% and 20%." e9 in
  let e11 := check (nlt parsedNumFunds (Fin 1) || ngt parsedNumFunds (Fin 5))
              "numFunds"
              "Number of Funds must be between 1 and 5." e10 in
  check (String.eqb (includeStatePension fd) "Yes - Custom"
         && nle parsedCustomStatePensionAnnual (Fin 0))
    "customStatePensionAnnual"
    "Custom State Pension Annual Amount must be positive." e11.

(** [Object.keys(newErrors).length > 0] *)
Definition hasKeys (newErrors : gmap string string) : bool :=
  Nat.ltb 0 (size newErrors).

(** [validateInputs]: the value returned, and the object handed to
    [setErrors]. *)
Definition validateInputs (fd : formData) : bool * gmap string string :=
  let newErrors := checkNumbers (requiredFields fd) ∅ in
  if hasKeys newErrors then (false, newErrors)
  else
    let newErrors := checkRanges fd newErrors in
    if hasKeys newErrors then (false, newErrors)
    else (true, ∅).

(** ** Arrays *)

(** [Array(len)], and the array [Array.from({ length: len }, ...)]
    creates: [len] must be a whole number from 0 to 2^32 - 1, anything
    else is a RangeError. *)
Definition arrayCreate (len : number) : outcome nat :=
  match len with
  | Fin q =>
      if (Qeq_bool q (inject_Z (Qfloor q)) && Qleb 0 q
          && Qleb q (inject_Z (2 ^ 32 - 1)))%bool
      then Ok (Z.to_nat (Qfloor q))
      else RangeError
  | _ => RangeError
  end.

(** The [length] property of [{ length: len }] as [Array.from] reads it:
    NaN and negative values give 0, a fraction is dropped, and the
    result is capped at 2^53 - 1. *)
Definition toLength (len : number) : number :=
  match len with
  | NaN | NegInf => Fin 0
  | PosInf => ofZ (2 ^ 53 - 1)
  | Fin q =>
      if Qleb q 0 then Fin 0
      else ofZ (Z.min (Qfloor q) (2 ^ 53 - 1))
  end.

(** [l[i]] for a number [i]: [undefined] unless [i] is a whole number
    that is an index of [l]. *)
Definition elementAt {A : Type} (l : list A) (i : number) : option A :=
  match i with
  | Fin q =>
      if (Qeq_bool q (inject_Z (Qfloor q)) && Qleb 0 q)%bool
      then l !! Z.to_nat (Qfloor q)
      else None
  | _ => None
  end.

(** [l[i]] read as a number: [undefined] becomes NaN in arithmetic and
    comparisons. *)
Definition numAt (l : list number) (i : nat) : number :=
  default NaN (l !! i).

(** [l.reduce((sum, x) => sum + x, 0)] *)
Definition sum (l : list number) : number := fold_left nadd l (Fin 0).

(** ** Sorting *)

(** The comparison [sort] makes between two elements: [undefined] goes
    last without calling the comparator, and a NaN from the comparator
    counts as zero.  The result says whether the first element has to go
    after the second. *)
Definition sortsAfter (comparefn : number -> number -> number)
  (x y : option number) : bool :=
  match x, y with
  | None, None => false
  | None, Some _ => true
  | Some _, None => false
  | Some a, Some b => ngt (comparefn a b) (Fin 0)
  end.

(** [sort] is stable; with a consistent comparator every stable sort
    returns the list that insertion from the right builds. *)
Fixpoint insertSorted (comparefn : number -> number -> number)
  (x : option number) (l : list (option number)) : list (option number) :=
  match l with
  | [] => [x]
  | y :: l' =>
      if sortsAfter comparefn x y
      then y :: insertSorted comparefn x l'
      else x :: l
  end.

(** [l.sort(comparefn)] *)
Fixpoint jsSort (comparefn : number -> number -> number)
  (l : list (option number)) : list (option number) :=
  match l with
  | [] => []
  | x :: l' => insertSorted comparefn x (jsSort comparefn l')
  end.

(** ** simulateAccumulation *)

(** The object [simulateAccumulation] returns. *)
Record accumulation : Type := {
  p25 : list (option number);
  p50 : list (option number);
  p75 : list (option number)
}.

(** The number of paths. *)
Definition simulations : nat := 1000.

Section Accumulation.

Variable rand : nat -> Q.

(** The inner loop, from [year] on: the balances recorded so far and
    the number of calls of [Math.random] made so far are threaded
    through; [fuel] bounds the iterations. *)
Fixpoint yearLoop (fuel : nat) (years meanReturn volatility : number)
  (contributionRate inflationRate : number) (year : nat)
  (pot salary : number) (yearlyBalances : list number) (calls : nat)
  : outcome (list number * nat) :=
  if nlt (ofNat year) years then
    match fuel with
    | O => OutOfFuel
    | S fuel' =>
        let contribution := nmul salary contributionRate in
        let annualReturn :=
          nadd meanReturn
            (nmul volatility
               (nsub (nmul (Fin (rand calls)) (Fin 2)) (Fin 1))) in
        let pot := nmul (nadd pot contribution) (nadd (Fin 1) annualReturn) in
        yearLoop fuel' years meanReturn volatility contributionRate
          inflationRate (S year) pot
          (nmul salary (nadd (Fin 1) inflationRate))
          (yearlyBalances ++ [pot]) (S calls)
    end
  else Ok (yearlyBalances, calls).

(** The outer loop: [todo] paths are still to be run. *)
Fixpoint pathLoop (fuel : nat) (fd : formData) (years : number)
  (todo : nat) (results : list (list number)) (calls : nat)
  : outcome (list (list number)) :=
  match todo with
  | O => Ok results
  | S todo' =>
      let pot := parseFloat (currentPot fd) in
      let salary := parseFloat (salary fd) in
      let contributionRate :=
        ndiv (parseFloat (contributionRate fd)) (Fin 100) in
      '(yearlyBalances, calls') ←
        yearLoop fuel years
          (Fin (fundReturn (fundData (fundSelection fd))))
          (Fin (fundVolatility (fundData (fundSelection fd))))
          contributionRate
          (ndiv (parseFloat (inflationRate fd)) (Fin 100))
          0 pot salary [] calls;
      pathLoop fuel fd years todo' (results ++ [yearlyBalances]) calls'
  end.

(** [formData.retirementAge - formData.age] *)
Definition yearsOf (fd : formData) : number :=
  nsub (toNumber (retirementAge fd)) (toNumber (age fd)).

(** [results] after the loop over the paths. *)
Definition simulatedPaths (fuel : nat) (fd : formData)
  : outcome (list (list number)) :=
  pathLoop fuel fd (yearsOf fd) simulations [] 0.

(** [results.map((run) => run[i]).sort((a, b) => a - b)] *)
Definition yearRow (results : list (list number)) (i : nat)
  : list (option number) :=
  jsSort nsub (map (fun run => run !! i) results).

(** [getPercentile(data, percentile)] *)
Definition getPercentile (data : list (option number)) (percentile : number)
  : option number :=
  let index := Math_floor (nmul percentile (ofNat (length data))) in
  mjoin (elementAt data index).

(** [simulateAccumulation()], with at most [fuel] passes through the
    loop over the years of a path. *)
Definition simulateAccumulation (fuel : nat) (fd : formData)
  : outcome accumulation :=
  results ← simulatedPaths fuel fd;
  len ← arrayCreate (toLength (yearsOf fd));
  let percentiles := map (yearRow results) (seq 0 len) in
  Ok {| p25 := map (fun row => getPercentile row (Fin 0.25)) percentiles;
        p50 := map (fun row => getPercentile row (Fin 0.5)) percentiles;
        p75 := map (fun row => getPercentile row (Fin 0.75)) percentiles |}.

End Accumulation.

(** [p50[p50.length - 1]], the argument [handleCalculate] gives to
    [simulateDecumulation]. *)
Definition lastOf (l : list (option number)) : option number :=
  mjoin (last l).

(** ** simulateDecumulation *)

(** The object [simulateDecumulation] returns. *)
Record decumulation : Type := {
  fundSeries : list (list number);
  withdrawalSeries : list number;
  annualWithdrawalSeries : list number;
  statePensionMonthlySeries : list number;
  statePensionAnnualSeries : list number
}.

(** What is fixed before the monthly loop starts. *)
Record plan : Type := {
  planFunds : nat;
  planReturns : list number;
  planDrawdownType : string;
  planDrawdownRate : number;
  planInflationRate : number;
  planSwitchAge : number;
  planRetirementAge : number;
  planStatePension : string;
  planMaxMonths : number
}.

(** The variables the monthly loop updates. *)
Record vars : Type := {
  pots : list number;
  fundBalances : list (list number);
  simAge : number;
  months : nat;
  withdrawals : list number;
  annualWithdrawals : list number;
  currentYearWithdrawals : number;
  movedFunds : list bool;
  currentDrawdownFixed : number;
  currentStatePensionAnnual : number;
  currentStatePensionMonthly : number;
  statePensionMonthlyValues : list number;
  statePensionAnnualValues : list number
}.

(** The withdrawal of the month: the amount the drawdown type gives, but
    no more than the first pot holds. *)
Definition policyAmount (p : plan) (v : vars) : number :=
  if String.eqb (planDrawdownType p) "percentage"
  then nmul (sum (pots v)) (planDrawdownRate p)
  else currentDrawdownFixed v.

Definition withdrawalOf (p : plan) (v : vars) : number :=
  Math_min (policyAmount p v) (numAt (pots v) 0).

(** [pots[0] -= withdrawal] *)
Definition withdraw (withdrawal : number) (ps : list number) : list number :=
  <[0%nat := nsub (numAt ps 0) withdrawal]> ps.

(** [pots[i] = Math.max(0, pots[i] * (1 + returns[i]))] for every pot. *)
Definition applyReturns (returns ps : list number) : list number :=
  imap (fun i pot =>
          Math_max (Fin 0) (nmul pot (nadd (Fin 1) (numAt returns i)))) ps.

(** [pot > 0] *)
Definition isPositive (pot : number) : bool := ngt pot (Fin 0).

(** The yearly rebalancing: the total is spread evenly over the pots that
    still hold something, when there are at least two of them. *)
Definition rebalance (ps : list number) : list number :=
  let activeFunds := length (List.filter isPositive ps) in
  if Nat.ltb 1 activeFunds then
    let total := sum ps in
    map (fun pot => if isPositive pot
                    then ndiv total (ofNat activeFunds) else Fin 0) ps
  else ps.

(** The consolidation loop over [i = from, from + 1, ...], [todo]
    indices left: the first fund after the first pot that has not been
    moved and holds something is merged into the first pot, when the
    first pot holds less than twelve withdrawals. *)
Fixpoint consolidate (todo from : nat) (withdrawal : number)
  (ps : list number) (moved : list bool) : list number * list bool :=
  match todo with
  | O => (ps, moved)
  | S todo' =>
      if (nlt (numAt ps 0) (nmul withdrawal (Fin 12))
          && negb (default false (moved !! from))
          && isPositive (numAt ps (from + 1)))%bool
      then (<[(from + 1)%nat := Fin 0]>
              (<[0%nat := nadd (numAt ps 0) (numAt ps (from + 1))]> ps),
            <[from := true]> moved)
      else consolidate todo' (S from) withdrawal ps moved
  end.

(** The sweep at the switch age: everything goes to the first pot. *)
Definition sweep (ps : list number) : list number :=
  let totalRemaining := sum (drop 1 ps) in
  imap (fun i pot => match i with O => pot | S _ => Fin 0 end)
       (<[0%nat := nadd (numAt ps 0) totalRemaining]> ps).

(** [months % 12 === 11] *)
Definition yearEnd (v : vars) : bool := Nat.eqb (months v mod 12) 11.

(** [annualWithdrawals.push(currentYearWithdrawals)] before the [break],
    when the unfinished year has withdrawals. *)
Definition flushYear (v : vars) : vars :=
  {| pots := pots v;
     fundBalances := fundBalances v;
     simAge := simAge v;
     months := months v;
     withdrawals := withdrawals v;
     annualWithdrawals := annualWithdrawals v ++ [currentYearWithdrawals v];
     currentYearWithdrawals := currentYearWithdrawals v;
     movedFunds := movedFunds v;
     currentDrawdownFixed := currentDrawdownFixed v;
     currentStatePensionAnnual := currentStatePensionAnnual v;
     currentStatePensionMonthly := currentStatePensionMonthly v;
     statePensionMonthlyValues := statePensionMonthlyValues v;
     statePensionAnnualValues := statePensionAnnualValues v |}.

(** [months++; age = retirementAge + Math.floor(months / 12)] *)
Definition nextMonth (p : plan) (v : vars) : vars :=
  {| pots := pots v;
     fundBalances := fundBalances v;
     simAge :=
       nadd (planRetirementAge p)
         (Math_floor (ndiv (ofNat (S (months v))) (Fin 12)));
     months := S (months v);
     withdrawals := withdrawals v;
     annualWithdrawals := annualWithdrawals v;
     currentYearWithdrawals := currentYearWithdrawals v;
     movedFunds := movedFunds v;
     currentDrawdownFixed := currentDrawdownFixed v;
     currentStatePensionAnnual := currentStatePensionAnnual v;
     currentStatePensionMonthly := currentStatePensionMonthly v;
     statePensionMonthlyValues := statePensionMonthlyValues v;
     statePensionAnnualValues := statePensionAnnualValues v |}.

(** The pots after the withdrawal, the returns, the yearly rebalancing
    and the consolidation of one month, with the moved flags. *)
Definition potsConsolidated (p : plan) (v : vars) : list number * list bool :=
  let withdrawal := withdrawalOf p v in
  let ps := withdraw withdrawal (pots v) in
  let ps := applyReturns (planReturns p) ps in
  let ps := if yearEnd v then rebalance ps else ps in
  consolidate (planFunds p - 1) 0 withdrawal ps (movedFunds v).

(** The pots and the moved flags after the sweep that follows, once the
    switch age is reached and a later pot still holds something. *)
Definition potsAfter (p : plan) (v : vars) : list number * list bool :=
  let '(ps, moved) := potsConsolidated p v in
  if (nge (simAge v) (planSwitchAge p)
      && existsb isPositive (drop 1 ps))%bool
  then (sweep ps, map (fun _ => true) moved)
  else (ps, moved).

(** The body of the loop up to the test that ends it: the month's
    withdrawal and pots, the year-end bookkeeping, and the values
    recorded for the month. *)
Definition record (p : plan) (v : vars) : vars :=
  let withdrawal := withdrawalOf p v in
  let '(ps, moved) := potsAfter p v in
  let cyw := nadd (currentYearWithdrawals v) withdrawal in
  let inflate (x : number) := nmul x (nadd (Fin 1) (planInflationRate p)) in
  let fixedType :=
    (String.eqb (planDrawdownType p) "fixed"
     || String.eqb (planDrawdownType p) "initialPot")%bool in
  let pension := negb (String.eqb (planStatePension p) "No") in
  let spMonthly :=
    if (yearEnd v && pension)%bool
    then inflate (currentStatePensionMonthly v)
    else currentStatePensionMonthly v in
  {| pots := ps;
     fundBalances :=
       imap (fun i series => series ++ [numAt ps i]) (fundBalances v);
     simAge := simAge v;
     months := months v;
     withdrawals := withdrawals v ++ [withdrawal];
     annualWithdrawals :=
       if yearEnd v then annualWithdrawals v ++ [cyw]
       else annualWithdrawals v;
     currentYearWithdrawals := if yearEnd v then Fin 0 else cyw;
     movedFunds := moved;
     currentDrawdownFixed :=
       if (yearEnd v && fixedType)%bool
       then inflate (currentDrawdownFixed v) else currentDrawdownFixed v;
     currentStatePensionAnnual :=
       if (yearEnd v && pension)%bool
       then inflate (currentStatePensionAnnual v)
       else currentStatePensionAnnual v;
     currentStatePensionMonthly := spMonthly;
     statePensionMonthlyValues := statePensionMonthlyValues v ++ [spMonthly];
     statePensionAnnualValues :=
       if yearEnd v
       then statePensionAnnualValues v ++ [currentStatePensionAnnual v]
       else statePensionAnnualValues v |}.

(** One pass through the body of the loop.  The boolean tells whether
    the body left the loop with [break]. *)
Definition month (p : plan) (v : vars) : vars * bool :=
  let v' := record p v in
  if nlt (sum (pots v')) (Fin 1) then
    (if ngt (currentYearWithdrawals v') (Fin 0) then flushYear v' else v',
     true)
  else (nextMonth p v', false).

(** The test of the [while]. *)
Definition running (p : plan) (v : vars) : bool :=
  (ngt (sum (pots v)) (Fin 0) && nlt (ofNat (months v)) (planMaxMonths p))%bool.

(** The [while] loop, with at most [fuel] passes. *)
Fixpoint monthLoop (fuel : nat) (p : plan) (v : vars) : outcome vars :=
  if running p v then
    match fuel with
    | O => OutOfFuel
    | S fuel' =>
        let '(v', broke) := month p v in
        if broke then Ok v' else monthLoop fuel' p v'
    end
  else Ok v.

(** The result for a starting pot that is missing, NaN, zero or
    negative. *)
Definition emptyResult : decumulation :=
  {| fundSeries := [replicate 12 (Fin 0)];
     withdrawalSeries := [Fin 0];
     annualWithdrawalSeries := [Fin 0];
     statePensionMonthlySeries := [Fin 0];
     statePensionAnnualSeries := [Fin 0] |}.

(** [!startingPot || isNaN(startingPot) || startingPot <= 0] *)
Definition unusable (startingPot : option number) : bool :=
  match startingPot with
  | None => true
  | Some x => (falsy x || isNaN x || nle x (Fin 0))%bool
  end.

(** The constants set up before the loop, for [n] pots. *)
Definition planOf (fd : formData) (n : nat) : plan :=
  let retirementAge := parseInt (retirementAge fd) in
  {| planFunds := n;
     planReturns :=
       map (fun f => ndiv (Fin (fundReturn (fundData f))) (Fin 12)) (funds fd);
     planDrawdownType := drawdownType fd;
     planDrawdownRate :=
       if String.eqb (drawdownType fd) "percentage"
       then ndiv (ndiv (parseFloat (drawdownPercentage fd)) (Fin 100)) (Fin 12)
       else Fin 0;
     planInflationRate := ndiv (parseFloat (inflationRate fd)) (Fin 100);
     planSwitchAge := parseInt (ageToLowRiskFund fd);
     planRetirementAge := retirementAge;
     planStatePension := includeStatePension fd;
     planMaxMonths := nmul (nsub (Fin 100) retirementAge) (Fin 12) |}.

(** The variables as the loop finds them at its first test, for [n]
    pots and [moved] moved flags. *)
Definition initialVars (fd : formData) (startingPot : number)
  (n moved : nat) : vars :=
  let baseDrawdownFixed :=
    if String.eqb (drawdownType fd) "fixed"
    then parseFloat (drawdownFixed fd)
    else if String.eqb (drawdownType fd) "initialPot"
    then ndiv (ndiv (nmul startingPot
                       (parseFloat (drawdownInitialPotPercentage fd)))
                 (Fin 100)) (Fin 12)
    else Fin 0 in
  let currentStatePensionAnnual :=
    if String.eqb (includeStatePension fd) "Yes - Standard"
    then STANDARD_STATE_PENSION_ANNUAL
    else if String.eqb (includeStatePension fd) "Yes - Custom"
    then parseFloat (customStatePensionAnnual fd)
    else Fin 0 in
  {| pots := replicate n (ndiv startingPot (parseInt (numFunds fd)));
     fundBalances := replicate n [];
     simAge := parseInt (retirementAge fd);
     months := 0;
     withdrawals := [];
     annualWithdrawals := [];
     currentYearWithdrawals := Fin 0;
     movedFunds := replicate moved false;
     currentDrawdownFixed := baseDrawdownFixed;
     currentStatePensionAnnual := currentStatePensionAnnual;
     currentStatePensionMonthly := ndiv currentStatePensionAnnual (Fin 12);
     statePensionMonthlyValues := [];
     statePensionAnnualValues := [] |}.

(** The object returned after the loop. *)
Definition resultOf (v : vars) : decumulation :=
  {| fundSeries := fundBalances v;
     withdrawalSeries := withdrawals v;
     annualWithdrawalSeries := annualWithdrawals v;
     statePensionMonthlySeries := statePensionMonthlyValues v;
     statePensionAnnualSeries := statePensionAnnualValues v |}.

(** [simulateDecumulation(startingPot)], with at most [fuel] passes
    through the monthly loop. *)
Definition simulateDecumulation (fuel : nat) (fd : formData)
  (startingPot : option number) : outcome decumulation :=
  if unusable startingPot then Ok emptyResult
  else
    let startingPot := default NaN startingPot in
    let numFunds := parseInt (numFunds fd) in
    n ← arrayCreate numFunds;
    moved ← arrayCreate (nsub numFunds (Fin 1));
    v ← monthLoop fuel (planOf fd n) (initialVars fd startingPot n moved);
    Ok (resultOf v).

(** ** handleChange *)

(** The state the component starts with. *)
Definition initialFormData : formData :=
  {| ageToLowRiskFund := ""; numFunds := "3"; funds := [FA1; FA3; FA5];
     age := ""; salary := ""; currentPot := ""; contributionRate := "";
     retirementAge := ""; fundSelection := FA5;
     drawdownType := "percentage"; drawdownPercentage := "";
     drawdownFixed := ""; drawdownInitialPotPercentage := "";
     inflationRate := ""; includeStatePension := "Yes - Standard";
     customStatePensionAnnual := "" |}.

(** The text of each option of a fund select, and the option a text
    names. *)
Definition fundName (f : fund) : string :=
  match f with
  | FA1 => "Future Advantage 1"
  | FA2 => "Future Advantage 2"
  | FA3 => "Future Advantage 3"
  | FA4 => "Future Advantage 4"
  | FA5 => "Future Advantage 5"
  end.

Definition fundNamed (s : string) : option fund :=
  if String.eqb s "Future Advantage 1" then Some FA1
  else if String.eqb s "Future Advantage 2" then Some FA2
  else if String.eqb s "Future Advantage 3" then Some FA3
  else if String.eqb s "Future Advantage 4" then Some FA4
  else if String.eqb s "Future Advantage 5" then Some FA5
  else None.

(** [e.target]: the name of the input that changed and its new value. *)
Record changeEvent : Type := { targetName : string; targetValue : string }.

(** [l[index] = v] on an array of strings, a hole being [None]: a whole
    number from 0 to 2^32 - 2 is an index, and writing past the end
    leaves holes in between; any other number (NaN among them) names a
    property that is not an element, and the elements stay as they
    are. *)
Definition assignAt (l : list (option string)) (index : number) (v : string)
  : list (option string) :=
  match index with
  | Fin q =>
      if (Qeq_bool q (inject_Z (Qfloor q)) && Qleb 0 q
          && Qleb q (inject_Z (2 ^ 32 - 2)))%bool
      then
        let i := Z.to_nat (Qfloor q) in
        if Nat.ltb i (length l) then <[i := Some v]> l
        else l ++ replicate (i - length l) None ++ [Some v]
      else l
  | _ => l
  end.

(** The array of the fund selects as the strings it holds, and back: an
    array with a hole, or with a text that is no option of the selects,
    is no value of [funds]. *)
Definition fundTexts (l : list fund) : list (option string) :=
  map (fun f => Some (fundName f)) l.

Definition fundsOf (l : list (option string)) : option (list fund) :=
  mapM (fun x => x ≫= fundNamed) l.

(** [l.slice(0, finish)]: NaN counts as 0, a fraction is dropped, and a
    negative [finish] counts from the end. *)
Definition sliceTo {A : Type} (l : list A) (finish : number) : list A :=
  match finish with
  | NaN | NegInf => []
  | PosInf => l
  | Fin q =>
      let z := if Qleb 0 q then Qfloor q else Qceiling q in
      if (z <? 0)%Z
      then take (Z.to_nat (Z.max (Z.of_nat (length l) + z) 0)) l
      else take (Z.to_nat z) l
  end.

(** [{ ...formData, funds: newFunds }] *)
Definition withFunds (newFunds : list fund) (fd : formData) : formData :=
  {| ageToLowRiskFund := ageToLowRiskFund fd;
     numFunds := numFunds fd;
     funds := newFunds;
     age := age fd;
     salary := salary fd;
     currentPot := currentPot fd;
     contributionRate := contributionRate fd;
     retirementAge := retirementAge fd;
     fundSelection := fundSelection fd;
     drawdownType := drawdownType fd;
     drawdownPercentage := drawdownPercentage fd;
     drawdownFixed := drawdownFixed fd;
     drawdownInitialPotPercentage := drawdownInitialPotPercentage fd;
     inflationRate := inflationRate fd;
     includeStatePension := includeStatePension fd;
     customStatePensionAnnual := customStatePensionAnnual fd |}.

(** [{ ...formData, [k]: v }] for a name [k] that does not start with
    "fund": the field of that name gets [v]; a name that is none of the
    fields adds a property nothing reads. *)
Definition setField (k v : string) (fd : formData) : formData :=
  let pick (fieldName old : string) :=
    if String.eqb k fieldName then v else old in
  {| ageToLowRiskFund := pick "ageToLowRiskFund" (ageToLowRiskFund fd);
     numFunds := pick "numFunds" (numFunds fd);
     funds := funds fd;
     age := pick "age" (age fd);
     salary := pick "salary" (salary fd);
     currentPot := pick "currentPot" (currentPot fd);
     contributionRate := pick "contributionRate" (contributionRate fd);
     retirementAge := pick "retirementAge" (retirementAge fd);
     fundSelection := fundSelection fd;
     drawdownType := pick "drawdownType" (drawdownType fd);
     drawdownPercentage := pick "drawdownPercentage" (drawdownPercentage fd);
     drawdownFixed := pick "drawdownFixed" (drawdownFixed fd);
     drawdownInitialPotPercentage :=
       pick "drawdownInitialPotPercentage" (drawdownInitialPotPercentage fd);
     inflationRate := pick "inflationRate" (inflationRate fd);
     includeStatePension := pick "includeStatePension" (includeStatePension fd);
     customStatePensionAnnual :=
       pick "customStatePensionAnnual" (customStatePensionAnnual fd) |}.

(** [name.replace("fund", "")] for a name that starts with "fund". *)
Definition afterFund (k : string) : string :=
  substring 4 (String.length k - 4) k.

(** [handleChange(e)] on the form and the errors of the render the
    handler belongs to: the form and the errors handed to [setFormData]
    and [setErrors].  The value is [None] when the new [funds] is no
    list of options of the fund selects. *)
Definition handleChange (e : changeEvent)
  (state : formData * gmap string string)
  : outcome (option (formData * gmap string string)) :=
  let '(fd, errors) := state in
  let k := targetName e in
  let v := targetValue e in
  let errors' := <[k := ""]> errors in
  if String.prefix "fund" k then
    let index := parseInt (afterFund k) in
    let newFunds := assignAt (fundTexts (funds fd)) index v in
    Ok (newFunds ← fundsOf newFunds; Some (withFunds newFunds fd, errors'))
  else if String.eqb k "numFunds" then
    let num := parseInt v in
    let kept := sliceTo (funds fd) num in
    added ← arrayCreate
              (Math_max (Fin 0) (nsub num (ofNat (length (funds fd)))));
    let newFunds := kept ++ replicate added FA1 in
    Ok (Some (setField "numFunds" v (withFunds newFunds fd), errors'))
  else Ok (Some (setField k v fd, errors')).

(** ** handleCalculate *)

(** What [handleCalculate] hands to the setters of the charts and of
    the table: the labels and the data of each chart (colours, titles
    and options left out), and the three values of the table. *)
Record charts : Type := {
  accumulationLabels : list number;
  accumulationData : accumulation;
  tableP25 : option number;
  tableP50 : option number;
  tableP75 : option number;
  decumulationLabels : list number;
  fundDatasets : list (option (list number));
  monthlyIncomeLabels : list number;
  monthlyStatePensionData : list number;
  monthlyDrawdownData : list number;
  annualIncomeLabels : list number;
  annualStatePensionData : list number;
  annualDrawdownData : list number
}.

(** How a call of [handleCalculate] ends: it returns after
    [validateInputs] has set the errors, it sets the charts, an
    exception leaves it (the RangeError of a simulation, or the
    TypeError of reading the length of a missing series or the colour
    of a sixth fund), or a loop used up its passes. *)
Inductive calculation : Type :=
  | Refused (errors : gmap string string)
  | Drawn (c : charts)
  | Thrown
  | Unfinished.

(** [(_, i) => parseInt(s) + i] and
    [(_, i) => parseInt(s) + Math.floor(i / 12)], over [0 .. len - 1]. *)
Definition yearLabels (s : string) (len : nat) : list number :=
  map (fun i => nadd (parseInt s) (ofNat i)) (seq 0 len).

Definition monthLabels (s : string) (len : nat) : list number :=
  map (fun i => nadd (parseInt s) (Math_floor (ndiv (ofNat i) (Fin 12))))
    (seq 0 len).

(** The charts drawn from the results of the two simulations. *)
Definition chartsOf (fd : formData) (acc : accumulation) (dec : decumulation)
  (first : list number) (datasets : nat) : charts :=
  {| accumulationLabels := yearLabels (age fd) (length (p50 acc));
     accumulationData := acc;
     tableP25 := lastOf (p25 acc);
     tableP50 := lastOf (p50 acc);
     tableP75 := lastOf (p75 acc);
     decumulationLabels := monthLabels (retirementAge fd) (length first);
     fundDatasets := map (fun i => fundSeries dec !! i) (seq 0 datasets);
     monthlyIncomeLabels :=
       monthLabels (retirementAge fd) (length (withdrawalSeries dec));
     monthlyStatePensionData := statePensionMonthlySeries dec;
     monthlyDrawdownData := withdrawalSeries dec;
     annualIncomeLabels :=
       yearLabels (retirementAge fd) (length (annualWithdrawalSeries dec));
     annualStatePensionData := statePensionAnnualSeries dec;
     annualDrawdownData := annualWithdrawalSeries dec |}.

(** [handleCalculate()], with at most [fuel] passes through each loop of
    the simulations. *)
Definition handleCalculate (rand : nat -> Q) (fuel : nat) (fd : formData)
  : calculation :=
  let '(valid, errors) := validateInputs fd in
  if negb valid then Refused errors
  else
    match simulateAccumulation rand fuel fd with
    | Ok acc =>
        match simulateDecumulation fuel fd (lastOf (p50 acc)) with
        | Ok dec =>
            match fundSeries dec !! 0%nat,
                  arrayCreate (toLength (parseInt (numFunds fd))) with
            | Some first, Ok datasets =>
                if Nat.ltb 5 datasets then Thrown
                else Drawn (chartsOf fd acc dec first datasets)
            | _, _ => Thrown
            end
        | RangeError => Thrown
        | OutOfFuel => Unfinished
        end
    | RangeError => Thrown
    | OutOfFuel => Unfinished
    end.

(** * Vocabulary of the properties *)

(** How many of 0, 1, 2, ... are below [x], for [x] other than positive
    infinity: the number of passes of a loop that counts up from 0 while
    the counter is below [x]. *)
Definition wholeBelow (x : number) : nat :=
  match x with
  | Fin q => Z.to_nat (Qceiling q)
  | _ => 0
  end.

(** Every recorded series has [k] entries. *)
Definition recorded (k : nat) (v : vars) : Prop :=
  length (withdrawals v) = k
  /\ length (statePensionMonthlyValues v) = k
  /\ Forall (fun series => length series = k) (fundBalances v).

(** How the loop can be left: the test failed, or the pots fell below 1
    at the end of a month. *)
Inductive leftLoop (p : plan) (v : vars) : Prop :=
  | left_test : running p v = false -> leftLoop p v
  | left_break : nlt (sum (pots v)) (Fin 1) = true -> leftLoop p v.

(** The number-of-funds select holds one of its options. *)
Definition numFundsOptions : list string := ["1"; "2"; "3"; "4"; "5"].

(** [validateInputs] returns true. *)
Definition validated (fd : formData) : Prop := fst (validateInputs fd) = true.

(** A form as the component is meant to be filled in: 30 years old,
    retiring at 65, three funds, 4% of the pot drawn each year. *)
Definition sampleForm : formData :=
  {| ageToLowRiskFund := "75"; numFunds := "3"; funds := [FA1; FA3; FA5];
     age := "30"; salary := "30000"; currentPot := "10000";
     contributionRate := "10"; retirementAge := "65";
     fundSelection := FA5; drawdownType := "percentage";
     drawdownPercentage := "4"; drawdownFixed := "";
     drawdownInitialPotPercentage := ""; inflationRate := "2";
     includeStatePension := "Yes - Standard";
     customStatePensionAnnual := "" |}.

(** A balance that is zero. *)
Definition isZero (x : number) : Prop :=
  match x with Fin q => q == 0 | _ => False end.

(** The result with no month in it: an empty series for each fund and
    nothing in the other series. *)
Definition noMonths (n : nat) : decumulation :=
  {| fundSeries := replicate n [];
     withdrawalSeries := [];
     annualWithdrawalSeries := [];
     statePensionMonthlySeries := [];
     statePensionAnnualSeries := [] |}.

(** A form that [validateInputs] accepts with a retirement age of 120. *)
Definition retiringAt120 : formData :=
  {| ageToLowRiskFund := "120"; numFunds := "3"; funds := [FA1; FA3; FA5];
     age := "30"; salary := "30000"; currentPot := "10000";
     contributionRate := "10"; retirementAge := "120";
     fundSelection := FA5; drawdownType := "percentage";
     drawdownPercentage := "4"; drawdownFixed := "";
     drawdownInitialPotPercentage := ""; inflationRate := "2";
     includeStatePension := "Yes - Standard";
     customStatePensionAnnual := "" |}.

(** The message of the first loop for a field. *)
Definition numberMessage (f : field) : string :=
  String.append (label f) " must be a valid number.".

(** A form with no salary and an age that is not a number; its age to
    low risk fund, 50, is below its retirement age, 65, which the range
    checks would report. *)
Definition incompleteForm : formData :=
  {| ageToLowRiskFund := "50"; numFunds := "3"; funds := [FA1; FA3; FA5];
     age := "abc"; salary := ""; currentPot := "10000";
     contributionRate := "10"; retirementAge := "65";
     fundSelection := FA5; drawdownType := "percentage";
     drawdownPercentage := "4"; drawdownFixed := "";
     drawdownInitialPotPercentage := ""; inflationRate := "2";
     includeStatePension := "Yes - Standard";
     customStatePensionAnnual := "" |}.

(** The values an accepted form parses to. *)
Record accepted (fd : formData) : Prop := {
  acc_salary : nlt (Fin 0) (parseFloat (salary fd)) = true;
  acc_currentPot : nle (Fin 0) (parseFloat (currentPot fd)) = true;
  acc_contribution :
    exists c, parseFloat (contributionRate fd) = Fin c /\ 0 < c <= 100;
  acc_inflation :
    exists i, parseFloat (inflationRate fd) = Fin i /\ 0 <= i <= 20;
  acc_numFunds :
    parseInt (numFunds fd) = NaN
    \/ exists n, parseInt (numFunds fd) = Fin n /\ 1 <= n <= 5;
  acc_switchAge :
    nlt (parseInt (ageToLowRiskFund fd)) (parseInt (retirementAge fd)) = false;
  acc_percentage :
    drawdownType fd = "percentage" ->
    exists d, parseFloat (drawdownPercentage fd) = Fin d /\ 0 < d <= 100;
  acc_fixed :
    drawdownType fd = "fixed" ->
    nlt (Fin 0) (parseFloat (drawdownFixed fd)) = true;
  acc_initialPot :
    drawdownType fd = "initialPot" ->
    exists d, parseFloat (drawdownInitialPotPercentage fd) = Fin d
              /\ 0 < d <= 100;
  acc_customPension :
    includeStatePension fd = "Yes - Custom" ->
    nlt (Fin 0) (parseFloat (customStatePensionAnnual fd)) = true
}.

Section PathValues.

Variable rand : nat -> Q.
Variables meanReturn volatility contributionRate inflationRate : number.

(** The pot at the end of a year that starts with [pot] and [salary],
    for the [calls]-th draw. *)
Definition yearPot (pot salary : number) (calls : nat) : number :=
  nmul (nadd pot (nmul salary contributionRate))
    (nadd (Fin 1)
       (nadd meanReturn
          (nmul volatility (nsub (nmul (Fin (rand calls)) (Fin 2)) (Fin 1))))).

(** The balances of [n] consecutive years. *)
Fixpoint balancesFrom (n : nat) (pot salary : number) (calls : nat)
  : list number :=
  match n with
  | O => []
  | S n' =>
      yearPot pot salary calls
      :: balancesFrom n' (yearPot pot salary calls)
           (nmul salary (nadd (Fin 1) inflationRate)) (S calls)
  end.

End PathValues.

(** The balances of path [j], which starts at draw [j * n] when every
    path runs for [n] years. *)
Definition pathOf (rand : nat -> Q) (fd : formData) (n j : nat) : list number :=
  balancesFrom rand
    (Fin (fundReturn (fundData (fundSelection fd))))
    (Fin (fundVolatility (fundData (fundSelection fd))))
    (ndiv (parseFloat (contributionRate fd)) (Fin 100))
    (ndiv (parseFloat (inflationRate fd)) (Fin 100))
    n (parseFloat (currentPot fd)) (parseFloat (salary fd)) (j * n).

(** The object [simulateAccumulation] returns for the given paths and
    [len] years. *)
Definition percentilesOf (results : list (list number)) (len : nat)
  : accumulation :=
  let percentiles := map (yearRow results) (seq 0 len) in
  {| p25 := map (fun row => getPercentile row (Fin 0.25)) percentiles;
     p50 := map (fun row => getPercentile row (Fin 0.5)) percentiles;
     p75 := map (fun row => getPercentile row (Fin 0.75)) percentiles |}.

(** A form [validateInputs] accepts, with a year and a half to go. *)
Definition halfYearForm : formData :=
  {| ageToLowRiskFund := "75"; numFunds := "3"; funds := [FA1; FA3; FA5];
     age := "1.5"; salary := "30000"; currentPot := "10000";
     contributionRate := "10"; retirementAge := "3";
     fundSelection := FA5; drawdownType := "percentage";
     drawdownPercentage := "4"; drawdownFixed := "";
     drawdownInitialPotPercentage := ""; inflationRate := "2";
     includeStatePension := "Yes - Standard";
     customStatePensionAnnual := "" |}.

(** [0 < x] and [0 <= x], as the language compares. *)
Definition positive (x : number) : Prop := nlt (Fin 0) x = true.
Definition nonneg (x : number) : Prop := nle (Fin 0) x = true.

(** [x] comes no later than [y] in ascending order; [undefined] is never
    in order. *)
Definition ordered (x y : option number) : Prop :=
  match x, y with
  | Some a, Some b => nle a b = true
  | _, _ => False
  end.

(** An element that is a number other than NaN. *)
Definition defined (x : option number) : Prop :=
  match x with
  | Some a => a <> NaN
  | None => False
  end.

(** Every element is no larger than each element after it. *)
Definition ascending (l : list (option number)) : Prop :=
  StronglySorted ordered l.

(** A value of the year: a number that is positive. *)
Definition positiveValue (x : option number) : Prop :=
  match x with
  | Some a => positive a
  | None => False
  end.

(** A finite number that is not negative. *)
Definition finNonneg (x : number) : Prop :=
  match x with Fin q => 0 <= q | _ => False end.

(** A finite number. *)
Definition finite (x : number) : Prop :=
  match x with Fin _ => True | _ => False end.

(** A plan whose rates are finite, with a return for every pot. *)
Record planOk (p : plan) : Prop := {
  plan_funds : (1 <= planFunds p <= length (planReturns p))%nat;
  plan_returns : Forall finite (planReturns p);
  plan_rate : finNonneg (planDrawdownRate p);
  plan_inflation : finNonneg (planInflationRate p)
}.

(** Variables that hold one finite, non-negative balance per pot. *)
Record varsOk (p : plan) (v : vars) : Prop := {
  vars_pots : length (pots v) = planFunds p;
  vars_nonneg : Forall finNonneg (pots v);
  vars_fixed : nonneg (currentDrawdownFixed v);
  vars_series : length (fundBalances v) = planFunds p
}.

(** The states at the head of the loop: the start, and the state a month
    that did not leave the loop hands to the next test. *)
Inductive reachable (p : plan) (v0 : vars) : vars -> Prop :=
  | reach_start : reachable p v0 v0
  | reach_month (v : vars) :
      reachable p v0 v ->
      running p v = true ->
      snd (month p v) = false ->
      reachable p v0 (fst (month p v)).

(** The age the loop holds in month [m]:
    [retirementAge + Math.floor(m / 12)]. *)
Definition ageAt (p : plan) (m : nat) : number :=
  nadd (planRetirementAge p) (Math_floor (ndiv (ofNat m) (Fin 12))).

(** Every balance recorded for a fund after the first, in a month whose
    age has reached the switch age, is zero. *)
Definition sweptFrom (p : plan) (balances : list (list number)) : Prop :=
  forall (i : nat) (series : list number) (m : nat) (x : number),
    (1 <= i)%nat ->
    balances !! i = Some series ->
    series !! m = Some x ->
    nge (ageAt p m) (planSwitchAge p) = true ->
    isZero x.

(** What holds at the head of the loop. *)
Record tracked (p : plan) (v : vars) : Prop := {
  tr_ok : varsOk p v;
  tr_length :
    Forall (fun series => length series = months v) (fundBalances v);
  tr_age : nge (simAge v) (planSwitchAge p)
           = nge (ageAt p (months v)) (planSwitchAge p);
  tr_swept : sweptFrom p (fundBalances v)
}.

(** Each entry of the series is a number no larger than the next. *)
Definition nonDecreasing (l : list (option number)) : Prop :=
  forall (i : nat) (x y : option number),
    l !! i = Some x -> l !! S i = Some y -> ordered x y.

(** An accepted form with a large pot and a small salary, two years
    before retirement. *)
Definition dipForm : formData :=
  {| ageToLowRiskFund := "75"; numFunds := "3"; funds := [FA1; FA3; FA5];
     age := "30"; salary := "1"; currentPot := "1000000";
     contributionRate := "1"; retirementAge := "32";
     fundSelection := FA5; drawdownType := "percentage";
     drawdownPercentage := "4"; drawdownFixed := "";
     drawdownInitialPotPercentage := ""; inflationRate := "2";
     includeStatePension := "Yes - Standard";
     customStatePensionAnnual := "" |}.

(** Every drawn return is at least zero. *)
Definition returnsNonneg (rand : nat -> Q) (fd : formData) : Prop :=
  forall k,
    0 <= fundReturn (fundData (fundSelection fd))
         + fundVolatility (fundData (fundSelection fd)) * (rand k * 2 - 1).

(** The series of a state are aligned on its month counter: one entry
    per month in the monthly series, one per completed year in the
    annual ones, and one series per fund. *)
Record aligned (n : nat) (v : vars) : Prop := {
  al_monthly : recorded (months v) v;
  al_funds : length (fundBalances v) = n;
  al_pension : length (statePensionAnnualValues v) = (months v / 12)%nat;
  al_annual : length (annualWithdrawals v) = (months v / 12)%nat
}.

(** The state pension per year, and the fixed monthly drawdown, that the
    loop starts with. *)
Definition statePensionBase (fd : formData) : number :=
  currentStatePensionAnnual (initialVars fd NaN 0 0).

Definition drawdownBase (fd : formData) (startingPot : number) : number :=
  currentDrawdownFixed (initialVars fd startingPot 0 0).

(** [x < 0] is false: [x] is zero, positive, infinite or NaN. *)
Definition notNegative (x : number) : Prop := nlt x (Fin 0) = false.

(** No amount the loop holds or has written down is below zero. *)
Record unsigned (v : vars) : Prop := {
  un_pots : Forall notNegative (pots v);
  un_fixed : notNegative (currentDrawdownFixed v);
  un_withdrawals : Forall notNegative (withdrawals v);
  un_balances : Forall (Forall notNegative) (fundBalances v);
  un_annual : Forall notNegative (annualWithdrawals v);
  un_year : notNegative (currentYearWithdrawals v)
}.

(** The withdrawals of year [k], added up from 0 in the order of the
    months: [withdrawals.slice(12 * k, 12 * k + 12)] reduced with [+]. *)
Definition yearTotal (ws : list number) (k : nat) : number :=
  sum (take 12 (drop (12 * k) ws)).

(** After [m] months: each year written down is the total of its
    months, and the running total is that of the months since the last
    year end. *)
Record yearsBooked (m : nat) (v : vars) : Prop := {
  yb_months : length (withdrawals v) = m;
  yb_years : length (annualWithdrawals v) = (m / 12)%nat;
  yb_annual :
    forall k x, annualWithdrawals v !! k = Some x ->
                x = yearTotal (withdrawals v) k;
  yb_running :
    currentYearWithdrawals v = yearTotal (withdrawals v) (m / 12)
}.

(** [x *= (1 + rate)], [times] times over. *)
Definition inflated (rate : number) (times : nat) (x : number) : number :=
  Nat.iter times (fun y => nmul y (nadd (Fin 1) rate)) x.

(** The number of times the state pension has been inflated after
    [years] year ends: never with "No". *)
Definition pensionRises (choice : string) (years : nat) : nat :=
  if String.eqb choice "No" then 0%nat else years.

(** After [m] months the state pension stands at its base inflated once
    per year end, and so does every value written down. *)
Record pensionFollows (p : plan) (a : number) (m : nat) (v : vars) : Prop := {
  pf_annual :
    currentStatePensionAnnual v
    = inflated (planInflationRate p)
        (pensionRises (planStatePension p) (m / 12)) a;
  pf_monthly :
    currentStatePensionMonthly v
    = inflated (planInflationRate p)
        (pensionRises (planStatePension p) (m / 12)) (ndiv a (Fin 12));
  pf_months : length (statePensionMonthlyValues v) = m;
  pf_years : length (statePensionAnnualValues v) = (m / 12)%nat;
  pf_monthlyValues :
    forall j x, statePensionMonthlyValues v !! j = Some x ->
                x = inflated (planInflationRate p)
                      (pensionRises (planStatePension p) (S j / 12))
                      (ndiv a (Fin 12));
  pf_annualValues :
    forall k x, statePensionAnnualValues v !! k = Some x ->
                x = inflated (planInflationRate p)
                      (pensionRises (planStatePension p) k) a
}.

(** What the first pot holds when month [j] starts: its share of the
    starting pot, or the balance written down for the month before. *)
Definition firstPotBefore (first : number) (series : list number) (j : nat)
  : number :=
  match j with
  | O => first
  | S j' => numAt series j'
  end.

(** After [m] months the fixed drawdown stands at its base inflated once
    per year end, the first pot holds what was last written down for
    it, and every withdrawal written down is the smaller of the
    drawdown of its month and what the first pot held. *)
Record drawdownFollows (p : plan) (b first : number) (m : nat) (v : vars)
  : Prop := {
  df_current :
    currentDrawdownFixed v = inflated (planInflationRate p) (m / 12) b;
  df_months : length (withdrawals v) = m;
  df_first :
    exists series,
      fundBalances v !! 0%nat = Some series
      /\ length series = m
      /\ numAt (pots v) 0 = firstPotBefore first series m
      /\ forall j x,
           withdrawals v !! j = Some x ->
           x = Math_min (inflated (planInflationRate p) (j / 12) b)
                 (firstPotBefore first series j)
}.

(** Once a balance of the series is zero, so is every later one. *)
Definition staysEmpty (series : list number) : Prop :=
  forall (m m' : nat) (x y : number),
    (m <= m')%nat -> series !! m = Some x -> isZero x ->
    series !! m' = Some y -> isZero y.

(** The series of the funds after the first stay empty once they are,
    and a fund whose series has a zero holds nothing. *)
Record emptied (v : vars) : Prop := {
  em_series :
    forall i series, (1 <= i)%nat -> fundBalances v !! i = Some series ->
                     staysEmpty series;
  em_pot :
    forall i series m x,
      (1 <= i)%nat -> fundBalances v !! i = Some series ->
      series !! m = Some x -> isZero x -> isZero (numAt (pots v) i)
}.

(** Every required field holds a number. *)
Definition numbersPresent (fd : formData) : Prop :=
  Forall (fun f => notANumber (value f) = false) (requiredFields fd).

(** The inputs the form shows, and what each can send.  The text inputs
    send any text (those of the drawdown types and of the custom pension
    are counted whether or not they are on display); a select sends one
    of its options. *)
Definition textInputs : list string :=
  ["age"; "salary"; "currentPot"; "contributionRate"; "retirementAge";
   "inflationRate"; "ageToLowRiskFund"; "drawdownPercentage";
   "drawdownFixed"; "drawdownInitialPotPercentage";
   "customStatePensionAnnual"].

Definition fundOptions : list string :=
  map fundName [FA1; FA2; FA3; FA4; FA5].

(** The name of the [i]-th fund select, [`fund${i}`]. *)
Definition fundSelectName (i : nat) : string := "fund" +:+ pretty i.

(** An event the form rendered for [fd] can send. *)
Inductive rendered (fd : formData) (e : changeEvent) : Prop :=
  | rendered_text :
      In (targetName e) textInputs -> rendered fd e
  | rendered_fundSelection :
      targetName e = "fundSelection" -> In (targetValue e) fundOptions ->
      rendered fd e
  | rendered_numFunds :
      targetName e = "numFunds" -> In (targetValue e) numFundsOptions ->
      rendered fd e
  | rendered_fund (i : nat) :
      nlt (ofNat i) (toLength (parseInt (numFunds fd))) = true ->
      targetName e = fundSelectName i -> In (targetValue e) fundOptions ->
      rendered fd e
  | rendered_drawdownType :
      targetName e = "drawdownType" ->
      In (targetValue e) ["percentage"; "fixed"; "initialPot"] ->
      rendered fd e
  | rendered_statePension :
      targetName e = "includeStatePension" ->
      In (targetValue e) ["No"; "Yes - Standard"; "Yes - Custom"] ->
      rendered fd e.

(** The forms the component can hold: the one it starts with, and the
    one [handleChange] sets for an event of the form shown. *)
Inductive held : formData -> Prop :=
  | held_start : held initialFormData
  | held_change (fd fd' : formData) (errors errors' : gmap string string)
      (e : changeEvent) :
      held fd -> rendered fd e ->
      handleChange e (fd, errors) = Ok (Some (fd', errors')) ->
      held fd'.

(** The number-of-funds select and the fund selects agree. *)
Definition fundsAgree (fd : formData) : Prop :=
  In (numFunds fd) numFundsOptions
  /\ parseInt (numFunds fd) = ofNat (length (funds fd)).

(** An accepted form with half a year to go. *)
Definition sixMonthsForm : formData :=
  {| ageToLowRiskFund := "75"; numFunds := "3"; funds := [FA1; FA3; FA5];
     age := "64.5"; salary := "30000"; currentPot := "10000";
     contributionRate := "10"; retirementAge := "65";
     fundSelection := FA5; drawdownType := "percentage";
     drawdownPercentage := "4"; drawdownFixed := "";
     drawdownInitialPotPercentage := ""; inflationRate := "2";
     includeStatePension := "Yes - Standard";
     customStatePensionAnnual := "" |}.

(** An accepted form that draws a fixed 1000 a month. *)
Definition fixedDrawdownForm : formData :=
  {| ageToLowRiskFund := "75"; numFunds := "3"; funds := [FA1; FA3; FA5];
     age := "30"; salary := "30000"; currentPot := "10000";
     contributionRate := "10"; retirementAge := "65";
     fundSelection := FA5; drawdownType := "fixed";
     drawdownPercentage := ""; drawdownFixed := "1000";
     drawdownInitialPotPercentage := ""; inflationRate := "2";
     includeStatePension := "Yes - Standard";
     customStatePensionAnnual := "" |}.

(** A form with a single fund. *)
Definition oneFundForm : formData :=
  {| ageToLowRiskFund := "75"; numFunds := "1"; funds := [FA3];
     age := "30"; salary := "30000"; currentPot := "10000";
     contributionRate := "10"; retirementAge := "65";
     fundSelection := FA5; drawdownType := "percentage";
     drawdownPercentage := "4"; drawdownFixed := "";
     drawdownInitialPotPercentage := ""; inflationRate := "2";
     includeStatePension := "Yes - Standard";
     customStatePensionAnnual := "" |}.

(** The path all of whose draws are [u]. *)
Definition steadyPath (u : Q) (fd : formData) (n : nat) : list number :=
  pathOf (fun _ => u) fd n 0.

(** An accepted form whose switch age is its retirement age, so that
    the first month is already at the switch age. *)
Definition switchAtRetirementForm : formData :=
  {| ageToLowRiskFund := "65"; numFunds := "3"; funds := [FA1; FA3; FA5];
     age := "30"; salary := "30000"; currentPot := "10000";
     contributionRate := "10"; retirementAge := "65";
     fundSelection := FA5; drawdownType := "percentage";
     drawdownPercentage := "4"; drawdownFixed := "";
     drawdownInitialPotPercentage := ""; inflationRate := "2";
     includeStatePension := "Yes - Standard";
     customStatePensionAnnual := "" |}.

(** * Properties *)

(** ** Comparisons *)

Lemma Qleb_true (a b : Q) : Qleb a b = true <-> a <= b.
Proof. apply Qle_bool_iff. Qed.

Lemma Qleb_false (a b : Q) : Qleb a b = false <-> b < a.
Proof.
  unfold Qleb. split.
  - intros H. apply Qnot_le_lt. intros Hle.
    apply Qle_bool_iff in Hle. congruence.
  - intros H. destruct (Qle_bool a b) eqn:E; [|reflexivity].
    apply Qle_bool_iff in E. lra.
Qed.

Lemma Qltb_true (a b : Q) : Qltb a b = true <-> a < b.
Proof.
  unfold Qltb. rewrite negb_true_iff. apply (Qleb_false b a).
Qed.

Lemma Qltb_false (a b : Q) : Qltb a b = false <-> b <= a.
Proof.
  unfold Qltb. rewrite negb_false_iff. apply (Qleb_true b a).
Qed.

Lemma Qeq_bool_true (a b : Q) : Qeq_bool a b = true <-> a == b.
Proof. apply Qeq_bool_iff. Qed.

Lemma Qeq_bool_false (a b : Q) : Qeq_bool a b = false <-> ~ a == b.
Proof.
  split.
  - intros H E. apply Qeq_bool_iff in E. congruence.
  - intros H. destruct (Qeq_bool a b) eqn:E; [|reflexivity].
    apply Qeq_bool_iff in E. contradiction.
Qed.

(** Turn the boolean tests on rationals in the context and the goal into
    propositions. *)
Ltac qprop :=
  repeat match goal with
  | H : Qleb _ _ = true |- _ => apply Qleb_true in H
  | H : Qleb _ _ = false |- _ => apply Qleb_false in H
  | H : Qltb _ _ = true |- _ => apply Qltb_true in H
  | H : Qltb _ _ = false |- _ => apply Qltb_false in H
  | H : Qeq_bool _ _ = true |- _ => apply Qeq_bool_true in H
  | H : Qeq_bool _ _ = false |- _ => apply Qeq_bool_false in H
  | |- Qleb _ _ = true => apply Qleb_true
  | |- Qleb _ _ = false => apply Qleb_false
  | |- Qltb _ _ = true => apply Qltb_true
  | |- Qltb _ _ = false => apply Qltb_false
  | |- Qeq_bool _ _ = true => apply Qeq_bool_true
  | |- Qeq_bool _ _ = false => apply Qeq_bool_false
  end.

Lemma inject_Z_lt (a b : Z) : inject_Z a < inject_Z b <-> (a < b)%Z.
Proof. rewrite <- Zlt_Qlt. reflexivity. Qed.

Lemma inject_Z_le (a b : Z) : inject_Z a <= inject_Z b <-> (a <= b)%Z.
Proof. rewrite <- Zle_Qle. reflexivity. Qed.

(** ** The monthly loop ends *)

Lemma nlt_wholeBelow (k : nat) (x : number) :
  x <> PosInf ->
  nlt (ofNat k) x = true <-> (k < wholeBelow x)%nat.
Proof.
  intros Hinf. destruct x as [| |q|]; simpl; try (split; [discriminate|lia]).
  - rewrite Qltb_true. split.
    + intros H. assert (Z.of_nat k < Qceiling q)%Z; [|lia].
      apply inject_Z_lt. pose proof (Qle_ceiling q). lra.
    + intros H. pose proof (Qceiling_lt q) as Hc.
      assert (inject_Z (Z.of_nat k) <= inject_Z (Qceiling q - 1)); [|lra].
      apply inject_Z_le. lia.
  - contradiction.
Qed.

Lemma running_bound (p : plan) (v : vars) :
  planMaxMonths p <> PosInf ->
  running p v = true ->
  (months v < wholeBelow (planMaxMonths p))%nat.
Proof.
  intros Hinf Hrun. unfold running in Hrun.
  apply andb_true_iff in Hrun as [_ Hlt].
  apply nlt_wholeBelow in Hlt; assumption.
Qed.

Lemma imap_push_length {A : Type} (f : nat -> A) (k : nat) (l : list (list A)) :
  Forall (fun series => length series = k) l ->
  Forall (fun series => length series = S k)
    (imap (fun i series => series ++ [f i]) l).
Proof.
  intros H. revert f. induction H as [|s l Hs Hl IH]; intros f; simpl.
  - constructor.
  - constructor.
    + rewrite length_app. simpl. lia.
    + apply (IH (f ∘ S)).
Qed.

(** What [record] leaves in each variable the properties below read. *)
Lemma record_pots (p : plan) (v : vars) :
  pots (record p v) = fst (potsAfter p v).
Proof. unfold record. destruct (potsAfter p v). reflexivity. Qed.

Lemma record_withdrawals (p : plan) (v : vars) :
  withdrawals (record p v) = withdrawals v ++ [withdrawalOf p v].
Proof. unfold record. destruct (potsAfter p v). reflexivity. Qed.

Lemma record_fundBalances (p : plan) (v : vars) :
  fundBalances (record p v)
  = imap (fun i series => series ++ [numAt (fst (potsAfter p v)) i])
      (fundBalances v).
Proof. unfold record. destruct (potsAfter p v). reflexivity. Qed.

Lemma record_months (p : plan) (v : vars) : months (record p v) = months v.
Proof. unfold record. destruct (potsAfter p v). reflexivity. Qed.

Lemma record_pensionMonthly (p : plan) (v : vars) :
  length (statePensionMonthlyValues (record p v))
  = S (length (statePensionMonthlyValues v)).
Proof.
  unfold record. destruct (potsAfter p v).
  unfold statePensionMonthlyValues at 1. rewrite length_app. simpl. lia.
Qed.

Lemma record_recorded (p : plan) (v : vars) (k : nat) :
  recorded k v -> recorded (S k) (record p v).
Proof.
  intros (Hw & Hs & Hf). repeat split.
  - rewrite record_withdrawals, length_app. simpl. lia.
  - rewrite record_pensionMonthly. lia.
  - rewrite record_fundBalances. apply imap_push_length. exact Hf.
Qed.

Lemma month_recorded (p : plan) (v : vars) (k : nat) :
  recorded k v -> recorded (S k) (fst (month p v)).
Proof.
  intros H. apply (record_recorded p) in H. unfold month.
  destruct (nlt _ _); [destruct (ngt _ _)|]; exact H.
Qed.

Lemma month_months (p : plan) (v : vars) :
  months (fst (month p v))
  = if snd (month p v) then months v else S (months v).
Proof.
  unfold month. destruct (nlt _ _); [destruct (ngt _ _)|]; simpl;
    try rewrite record_months; reflexivity.
Qed.

Lemma month_break (p : plan) (v : vars) :
  snd (month p v) = true -> nlt (sum (pots (fst (month p v)))) (Fin 1) = true.
Proof.
  unfold month. destruct (nlt (sum (pots (record p v))) (Fin 1)) eqn:E.
  - intros _. destruct (ngt _ _); exact E.
  - discriminate.
Qed.

Lemma monthLoop_ends (p : plan) :
  planMaxMonths p <> PosInf ->
  forall (n : nat) (v : vars),
    (wholeBelow (planMaxMonths p) - months v <= n)%nat ->
    (months v <= wholeBelow (planMaxMonths p))%nat ->
    recorded (months v) v ->
    exists v' k,
      (forall fuel, (n <= fuel)%nat -> monthLoop fuel p v = Ok v')
      /\ (k <= wholeBelow (planMaxMonths p))%nat
      /\ recorded k v'
      /\ leftLoop p v'.
Proof.
  intros Hinf. induction n as [|n IH]; intros v Hn Hle Hrec.
  - assert (running p v = false) as Hrun.
    { destruct (running p v) eqn:E; trivial.
      apply running_bound in E; trivial; lia. }
    exists v, (months v). split; [|split; [|split]]; trivial.
    + intros fuel _. destruct fuel; simpl; rewrite Hrun; reflexivity.
    + apply left_test, Hrun.
  - destruct (running p v) eqn:Hrun.
    + pose proof (running_bound p v Hinf Hrun) as Hlt.
      pose proof (month_recorded p v _ Hrec) as Hrec'.
      pose proof (month_months p v) as Hm.
      pose proof (month_break p v) as Hb.
      destruct (month p v) as [v1 broke] eqn:Emonth. simpl in *.
      destruct broke.
      * exists v1, (S (months v)). split; [|split; [|split]]; trivial.
        -- intros fuel Hfuel. destruct fuel; [lia|]. simpl.
           rewrite Hrun, Emonth. reflexivity.
        -- apply left_break. auto.
      * rewrite <- Hm in Hrec'.
        destruct (IH v1) as (v' & k & Hloop & Hk & Hrk & Hleft);
          try lia; trivial.
        exists v', k. split; [|split; [|split]]; trivial.
        intros fuel Hfuel. destruct fuel; [lia|]. simpl.
        rewrite Hrun, Emonth. apply Hloop. lia.
    + exists v, (months v). split; [|split; [|split]]; trivial.
      * intros fuel _. destruct fuel; simpl; rewrite Hrun; reflexivity.
      * apply left_test. exact Hrun.
Qed.

(** ** Form states the component can hold *)

Lemma sample_validated : validated sampleForm.
Proof. vm_compute. reflexivity. Qed.

Lemma numFunds_option (fd : formData) :
  In (numFunds fd) numFundsOptions ->
  exists n : nat,
    (1 <= n <= 5)%nat
    /\ parseInt (numFunds fd) = ofNat n
    /\ arrayCreate (parseInt (numFunds fd)) = Ok n
    /\ arrayCreate (nsub (parseInt (numFunds fd)) (Fin 1)) = Ok (n - 1)%nat.
Proof.
  unfold numFundsOptions. simpl.
  intros [H|[H|[H|[H|[H|[]]]]]]; rewrite <- H;
    [exists 1%nat|exists 2%nat|exists 3%nat|exists 4%nat|exists 5%nat];
    (split; [lia|repeat split; reflexivity]).
Qed.

(** [parseInt] gives NaN or a whole number. *)
Lemma parseInt_whole (s : string) :
  parseInt s = NaN \/ exists z : Z, parseInt s = ofZ z.
Proof.
  unfold parseInt. destruct (signOf (trimStart s)) as [neg s'].
  destruct (hexPrefixed s') as [body|];
    match goal with
    | |- context [digits ?r ?b] => destruct (digits r b) as [[[|n] v] rest]
    end; auto; right; destruct neg;
    solve [exists (- v)%Z; reflexivity | exists v; reflexivity].
Qed.

Lemma maxMonths_whole (r : Z) :
  nmul (nsub (Fin 100) (ofZ r)) (Fin 12) = Fin ((100 + - inject_Z r) * 12)
  /\ (100 + - inject_Z r) * 12 == inject_Z ((100 - r) * 12).
Proof.
  split; [reflexivity|].
  unfold Z.sub. rewrite inject_Z_mult, inject_Z_plus, inject_Z_opp.
  reflexivity.
Qed.

Lemma wholeBelow_maxMonths (r : Z) :
  wholeBelow (nmul (nsub (Fin 100) (ofZ r)) (Fin 12))
  = Z.to_nat ((100 - r) * 12).
Proof.
  destruct (maxMonths_whole r) as [-> Heq]. simpl.
  rewrite (Qceiling_comp _ _ Heq), Qceiling_Z. reflexivity.
Qed.

Lemma initial_recorded (fd : formData) (startingPot : number) (n moved : nat) :
  recorded 0 (initialVars fd startingPot n moved).
Proof.
  repeat split. simpl. apply Forall_forall.
  intros series Hin. apply elem_of_replicate in Hin as [-> _]. reflexivity.
Qed.

(** ** The starting pot is missing, NaN, zero or negative *)

(** C6.  When the starting pot is [undefined], NaN, zero or negative,
    [simulateDecumulation] returns, whatever the form holds and without
    entering the monthly loop (no iteration is allowed here): one fund
    series of twelve zeros, and one zero in each of the monthly
    withdrawal, annual withdrawal and the two state pension series. *)
Theorem unusable_pot_gives_zeros (fd : formData) (startingPot : option number) :
  startingPot = None \/ startingPot = Some NaN
  \/ (exists x, startingPot = Some x /\ nle x (Fin 0) = true) ->
  exists res,
    simulateDecumulation 0 fd startingPot = Ok res
    /\ (forall fuel, simulateDecumulation fuel fd startingPot = Ok res)
    /\ fundSeries res = [replicate 12 (Fin 0)]
    /\ withdrawalSeries res = [Fin 0]
    /\ annualWithdrawalSeries res = [Fin 0]
    /\ statePensionMonthlySeries res = [Fin 0]
    /\ statePensionAnnualSeries res = [Fin 0]
    /\ Forall (Forall isZero) (fundSeries res).
Proof.
  intros H.
  assert (unusable startingPot = true) as Hun.
  { destruct H as [->|[->|(x & -> & Hx)]]; trivial.
    simpl. rewrite Hx. apply orb_true_r. }
  exists emptyResult. unfold simulateDecumulation. rewrite Hun.
  repeat split; trivial.
  repeat constructor; reflexivity.
Qed.

Lemma unusable_pot_gives_zeros_witness :
  exists res,
    simulateDecumulation 0
      sampleForm (Some (Fin (-5))) = Ok res
    /\ fundSeries res = [replicate 12 (Fin 0)]
    /\ withdrawalSeries res = [Fin 0].
Proof.
  destruct (unusable_pot_gives_zeros
    sampleForm (Some (Fin (-5))))
    as (res & H0 & _ & Hf & Hw & _).
  - right. right. exists (Fin (-5)). split; reflexivity.
  - exists res. repeat split; assumption.
Defined.

(** With no year in the accumulation [handleCalculate] passes
    [undefined], and gets the zeros. *)
Lemma no_years_gives_zeros (fd : formData) (fuel : nat) :
  simulateDecumulation fuel fd (lastOf []) = Ok emptyResult.
Proof. reflexivity. Qed.

(** ** The length of the monthly series *)

(** C2.  With the number-of-funds select on one of its options and a
    retirement age [r] below 100, [simulateDecumulation] returns for
    every starting pot once it is allowed [(100 - r) * 12] iterations,
    always the same result; the monthly series it returns (withdrawals,
    state pension, each fund's balances) have at most [(100 - r) * 12]
    entries; and when the loop was entered at all it was left because
    its test failed (the pots are empty or the months are used up) or
    because the pots fell below 1. *)
Theorem decumulation_ends_within_bound
  (fd : formData) (startingPot : option number) (r : Z) :
  In (numFunds fd) numFundsOptions ->
  parseInt (retirementAge fd) = ofZ r ->
  (r < 100)%Z ->
  let bound := Z.to_nat ((100 - r) * 12) in
  exists res,
    (forall fuel, (bound <= fuel)%nat ->
       simulateDecumulation fuel fd startingPot = Ok res)
    /\ (length (withdrawalSeries res) <= bound)%nat
    /\ (length (statePensionMonthlySeries res) <= bound)%nat
    /\ Forall (fun series => (length series <= bound)%nat) (fundSeries res)
    /\ (unusable startingPot = false ->
        exists n moved v,
          res = resultOf v
          /\ monthLoop bound (planOf fd n)
               (initialVars fd (default NaN startingPot) n moved) = Ok v
          /\ leftLoop (planOf fd n) v).
Proof.
  intros Hsel Hr Hlt bound.
  assert (12 <= bound)%nat as Hbound by (unfold bound; lia).
  unfold simulateDecumulation.
  destruct (unusable startingPot) eqn:Hun.
  - exists emptyResult. simpl.
    split; [reflexivity|]. split; [lia|]. split; [lia|].
    split; [|discriminate].
    repeat constructor. exact Hbound.
  - destruct (numFunds_option fd Hsel) as (n & Hn & _ & Hc1 & Hc2).
    rewrite Hc1, Hc2. simpl.
    set (p := planOf fd n).
    set (v0 := initialVars fd (default NaN startingPot) n (n - 1)).
    assert (planMaxMonths p = nmul (nsub (Fin 100) (ofZ r)) (Fin 12)) as Hmax.
    { unfold p, planOf. simpl. rewrite Hr. reflexivity. }
    assert (wholeBelow (planMaxMonths p) = bound) as Hmb.
    { rewrite Hmax. apply wholeBelow_maxMonths. }
    destruct (monthLoop_ends p) with (n := bound) (v := v0)
      as (v' & k & Hloop & Hk & (Hw & Hs & Hf) & Hleft).
    + rewrite Hmax. discriminate.
    + rewrite Hmb. simpl. lia.
    + simpl. lia.
    + apply initial_recorded.
    + exists (resultOf v'). rewrite Hmb in Hk. simpl.
      split; [|split; [|split; [|split]]].
      * intros fuel Hfuel. rewrite (Hloop fuel Hfuel). reflexivity.
      * lia.
      * lia.
      * eapply Forall_impl; [exact Hf|]. simpl. intros; lia.
      * intros _. exists n, (n - 1)%nat, v'.
        split; [reflexivity|]. split; [|exact Hleft].
        apply Hloop. lia.
Qed.

Lemma decumulation_ends_within_bound_witness :
  exists res,
    (forall fuel, (420 <= fuel)%nat ->
       simulateDecumulation fuel
         sampleForm (Some (Fin 500000)) = Ok res)
    /\ (length (withdrawalSeries res) <= 420)%nat.
Proof.
  destruct (decumulation_ends_within_bound
    sampleForm (Some (Fin 500000)) 65)
    as (res & Hres & Hlen & _).
  - simpl. auto.
  - reflexivity.
  - lia.
  - exists res. split; [exact Hres | exact Hlen].
Defined.

(** ** Retirement at 100 or later *)

(** C10.  [validateInputs] accepts a retirement age of 100 or more (120
    here), and for such a retirement age [r] and a starting pot that is
    not missing, NaN, zero or negative the loop is never entered:
    [(100 - r) * 12] is at most 0, and [simulateDecumulation] returns,
    with no iteration allowed, one empty series per fund and empty
    withdrawal, annual withdrawal and state pension series, which is not
    the all-zero result of an unusable starting pot. *)
Theorem retirement_at_100_gives_no_months
  (fd : formData) (startingPot : number) (r : Z) :
  In (numFunds fd) numFundsOptions ->
  parseInt (retirementAge fd) = ofZ r ->
  (100 <= r)%Z ->
  unusable (Some startingPot) = false ->
  (validated retiringAt120
   /\ parseInt (retirementAge retiringAt120) = ofZ 120)
  /\ ((100 - r) * 12 <= 0)%Z
  /\ exists n : nat,
       (1 <= n <= 5)%nat
       /\ parseInt (numFunds fd) = ofNat n
       /\ (forall fuel,
             simulateDecumulation fuel fd (Some startingPot)
             = Ok (noMonths n))
       /\ noMonths n <> emptyResult.
Proof.
  intros Hsel Hr Hge Hun.
  split; [split; vm_compute; reflexivity|].
  split; [lia|].
  destruct (numFunds_option fd Hsel) as (n & Hn & Hpn & Hc1 & Hc2).
  exists n. split; [exact Hn|]. split; [exact Hpn|]. split.
  - intros fuel. unfold simulateDecumulation.
    rewrite Hun, Hc1, Hc2. simpl.
    set (p := planOf fd n).
    set (v0 := initialVars fd startingPot n (n - 1)).
    assert (running p v0 = false) as Hrun.
    { assert (planMaxMonths p = Fin ((100 + - inject_Z r) * 12)) as Hmax.
      { unfold p, planOf. simpl. rewrite Hr. reflexivity. }
      destruct (maxMonths_whole r) as [_ Heq].
      unfold running. apply andb_false_iff. right.
      rewrite Hmax. unfold nlt, ofNat, ofZ.
      qprop. rewrite Heq. apply inject_Z_le. simpl. lia. }
    destruct fuel; simpl; rewrite Hrun; reflexivity.
  - unfold noMonths, emptyResult. intros Heq.
    apply (f_equal withdrawalSeries) in Heq. discriminate.
Qed.

Lemma retirement_at_100_gives_no_months_witness :
  validated retiringAt120
  /\ simulateDecumulation 0 retiringAt120 (Some (Fin 250000))
     = Ok (noMonths 3).
Proof.
  destruct (retirement_at_100_gives_no_months
              retiringAt120 (Fin 250000) 120) as ((Hv & _) & _ & n & Hn & Hp & Hres & _).
  - simpl. auto.
  - reflexivity.
  - lia.
  - reflexivity.
  - split; [exact Hv|].
    assert (n = 3%nat) as ->.
    { change (parseInt (numFunds retiringAt120)) with (ofZ 3) in Hp.
      unfold ofNat, ofZ, inject_Z in Hp. injection Hp as Hp. lia. }
    apply Hres.
Defined.

(** ** validateInputs *)

Lemma hasKeys_false (m : gmap string string) : hasKeys m = false <-> m = ∅.
Proof.
  unfold hasKeys. rewrite Nat.ltb_ge, <- map_size_empty_iff. lia.
Qed.

Lemma hasKeys_lookup (m : gmap string string) (k msg : string) :
  m !! k = Some msg -> hasKeys m = true.
Proof.
  intros H. destruct (hasKeys m) eqn:E; trivial.
  apply hasKeys_false in E. subst m. rewrite lookup_empty in H. discriminate.
Qed.

Lemma checkNumbers_cons (f : field) (fields : list field)
  (m : gmap string string) :
  checkNumbers (f :: fields) m
  = checkNumbers fields
      (if notANumber (value f) then <[name f := numberMessage f]> m else m).
Proof. reflexivity. Qed.

(** What the first loop leaves under a key, when no two fields share a
    name. *)
Lemma checkNumbers_lookup (fields : list field) :
  NoDup (map name fields) ->
  forall (m : gmap string string) (k msg : string),
    checkNumbers fields m !! k = Some msg
    <-> (exists f, In f fields /\ name f = k
                   /\ notANumber (value f) = true /\ msg = numberMessage f)
        \/ (m !! k = Some msg
            /\ forall f, In f fields -> name f = k ->
                         notANumber (value f) = false).
Proof.
  induction fields as [|f0 fields IH]; intros Hnd m k msg.
  - simpl. split.
    + intros H. right. split; [exact H|]. intros f [].
    + intros [(f & [] & _)|[H _]]. exact H.
  - simpl in Hnd. apply NoDup_cons in Hnd as [Hnotin Hnd].
    assert (forall f, In f fields -> name f <> name f0) as Hfresh.
    { intros f Hin Heq. apply Hnotin. rewrite <- Heq.
      apply list_elem_of_In, in_map, Hin. }
    rewrite checkNumbers_cons, (IH Hnd). clear IH. split.
    + intros [(f & Hin & Hk & Hbad & Hmsg)|[Hm Hall]].
      * left. exists f. simpl. auto.
      * destruct (notANumber (value f0)) eqn:Hbad0.
        -- destruct (decide (name f0 = k)) as [Heq|Hne].
           ++ subst k. rewrite lookup_insert_eq in Hm. injection Hm as <-.
              left. exists f0. simpl. auto.
           ++ rewrite lookup_insert_ne in Hm by exact Hne.
              right. split; [exact Hm|].
              intros f [<-|Hin] Hk; [contradiction|auto].
        -- right. split; [exact Hm|].
           intros f [<-|Hin] Hk; auto.
    + intros [(f & [<-|Hin] & Hk & Hbad & Hmsg)|[Hm Hall]].
      * right. rewrite Hbad. subst k msg. split.
        -- apply lookup_insert_eq.
        -- intros f Hin Hk. exfalso. exact (Hfresh f Hin Hk).
      * left. exists f. auto.
      * right. split.
        -- destruct (notANumber (value f0)) eqn:Hbad0; [|exact Hm].
           rewrite lookup_insert_ne; [exact Hm|].
           intros Heq. rewrite (Hall f0) in Hbad0; simpl; auto. discriminate.
        -- intros f Hin Hk. apply Hall; simpl; auto.
Qed.

Lemma requiredFields_names (fd : formData) :
  NoDup (map name (requiredFields fd)).
Proof.
  unfold requiredFields.
  destruct (String.eqb (drawdownType fd) "percentage");
    [|destruct (String.eqb (drawdownType fd) "fixed");
      [|destruct (String.eqb (drawdownType fd) "initialPot")]];
    destruct (String.eqb (includeStatePension fd) "Yes - Custom");
    simpl; apply (bool_decide_unpack _); vm_compute; reflexivity.
Qed.

(** C9.  When a required field (the drawdown field of the selected
    drawdown type and the custom pension amount of the custom pension
    choice included) is empty or does not parse as a number,
    [validateInputs] returns false with the messages of the first loop
    only: a key has a message exactly when it is the name of a required
    field that holds no number, and that message is the "must be a valid
    number" one of the field; the range checks are not run. *)
Theorem missing_numbers_reported_alone (fd : formData) :
  (exists f, In f (requiredFields fd) /\ notANumber (value f) = true) ->
  exists errs,
    validateInputs fd = (false, errs)
    /\ errs = checkNumbers (requiredFields fd) ∅
    /\ forall k msg,
         errs !! k = Some msg
         <-> exists f, In f (requiredFields fd) /\ name f = k
                       /\ notANumber (value f) = true
                       /\ msg = numberMessage f.
Proof.
  intros (f & Hin & Hbad).
  pose proof (checkNumbers_lookup _ (requiredFields_names fd) ∅) as Hlook.
  exists (checkNumbers (requiredFields fd) ∅).
  assert (hasKeys (checkNumbers (requiredFields fd) ∅) = true) as Hkeys.
  { apply (hasKeys_lookup _ (name f) (numberMessage f)).
    apply Hlook. left. exists f. auto. }
  unfold validateInputs. rewrite Hkeys.
  split; [reflexivity|]. split; [reflexivity|].
  intros k msg. rewrite Hlook. split.
  - intros [H|[H _]]; [exact H|].
    rewrite lookup_empty in H. discriminate.
  - intros H. left. exact H.
Qed.

Lemma missing_numbers_reported_alone_witness :
  exists errs,
    validateInputs incompleteForm = (false, errs)
    /\ errs !! "salary" = Some "Salary must be a valid number."
    /\ errs !! "age" = Some "Current Age must be a valid number."
    /\ errs !! "ageToLowRiskFund" = None.
Proof.
  destruct (missing_numbers_reported_alone incompleteForm)
    as (errs & Hv & -> & _).
  - exists {| name := "salary"; label := "Salary"; value := "" |}.
    split; [simpl; auto|reflexivity].
  - exists (checkNumbers (requiredFields incompleteForm) ∅).
    split; [exact Hv|]. split; [|split]; vm_compute; reflexivity.
Defined.

(** *** What an accepted form holds *)

Lemma check_empty (c : bool) (k msg : string) (m : gmap string string) :
  check c k msg m = ∅ -> c = false /\ m = ∅.
Proof.
  unfold check. destruct c; [|auto].
  intros H. exfalso. exact (insert_non_empty _ _ _ H).
Qed.

Lemma validated_checks (fd : formData) :
  validated fd ->
  Forall (fun f => notANumber (value f) = false) (requiredFields fd)
  /\ checkRanges fd ∅ = ∅.
Proof.
  unfold validated, validateInputs.
  destruct (hasKeys (checkNumbers (requiredFields fd) ∅)) eqn:H1;
    [discriminate|].
  apply hasKeys_false in H1. rewrite H1.
  destruct (hasKeys (checkRanges fd ∅)) eqn:H2; [discriminate|].
  apply hasKeys_false in H2. intros _. split; [|exact H2].
  apply Forall_forall. intros f Hin.
  destruct (notANumber (value f)) eqn:Hbad; [|reflexivity].
  assert (checkNumbers (requiredFields fd) ∅ !! name f
          = Some (numberMessage f)) as Hl.
  { apply (checkNumbers_lookup _ (requiredFields_names fd)).
    left. exists f. apply list_elem_of_In in Hin. auto. }
  rewrite H1, lookup_empty in Hl. discriminate.
Qed.

Ltac split_orb :=
  repeat match goal with
  | H : (_ || _)%bool = false |- _ => apply orb_false_iff in H as [? ?]
  end.

(** Case analysis on a number that a test has compared. *)
Ltac by_cases x :=
  let E := fresh "E" in
  destruct x as [| |?q|] eqn:E; rewrite ?E in *; simpl in *;
  try discriminate; qprop;
  eauto; try (eexists; split; [reflexivity|lra]).

Lemma validated_accepted (fd : formData) : validated fd -> accepted fd.
Proof.
  intros Hv. destruct (validated_checks fd Hv) as [Hnum Hrange].
  unfold checkRanges in Hrange.
  repeat match type of Hrange with
  | check _ _ _ _ = ∅ =>
      let Hc := fresh "Hc" in
      apply check_empty in Hrange as [Hc Hrange]
  end.
  unfold requiredFields in Hnum.
  rewrite !Forall_app in Hnum. destruct Hnum as [Hbase [Hdraw Hpension]].
  repeat match type of Hbase with
  | Forall _ (_ :: _) =>
      let Hf := fresh "Hf" in
      apply Forall_cons in Hbase as [Hf Hbase]
  end.
  unfold notANumber in *. simpl in *. split_orb.
  split.
  - by_cases (parseFloat (salary fd)).
  - by_cases (parseFloat (currentPot fd)).
  - by_cases (parseFloat (contributionRate fd)).
  - by_cases (parseFloat (inflationRate fd)).
  - destruct (parseInt (numFunds fd)) as [| |n|] eqn:E; auto;
      simpl in *; try discriminate.
    right. exists n. qprop. split; [reflexivity|lra].
  - assumption.
  - intros Hdt. rewrite Hdt in *. simpl in *.
    apply Forall_cons in Hdraw as [Hd _].
    split_orb. simpl in *. by_cases (parseFloat (drawdownPercentage fd)).
  - intros Hdt. rewrite Hdt in *. simpl in *.
    apply Forall_cons in Hdraw as [Hd _].
    split_orb. simpl in *. by_cases (parseFloat (drawdownFixed fd)).
  - intros Hdt. rewrite Hdt in *. simpl in *.
    apply Forall_cons in Hdraw as [Hd _].
    split_orb. simpl in *. by_cases (parseFloat (drawdownInitialPotPercentage fd)).
  - intros Hsp. rewrite Hsp in *. simpl in *.
    apply Forall_cons in Hpension as [Hd _].
    split_orb. simpl in *. by_cases (parseFloat (customStatePensionAnnual fd)).
Qed.

(** ** The paths of the accumulation *)

Section Paths.

Variable rand : nat -> Q.
Variables meanReturn volatility contributionRate inflationRate : number.

Lemma balancesFrom_length (n : nat) (pot salary : number) (calls : nat) :
  length (balancesFrom rand meanReturn volatility contributionRate
            inflationRate n pot salary calls) = n.
Proof.
  revert pot salary calls. induction n as [|n IH]; intros; simpl; auto.
Qed.

(** With enough iterations allowed, the inner loop records the balances
    of the years that are left. *)
Lemma yearLoop_ends (years : number) :
  years <> PosInf ->
  forall (n year : nat) (pot salary : number) (bal : list number)
         (calls : nat),
    (wholeBelow years - year <= n)%nat ->
    forall fuel, (n <= fuel)%nat ->
      yearLoop rand fuel years meanReturn volatility contributionRate
        inflationRate year pot salary bal calls
      = Ok (bal ++ balancesFrom rand meanReturn volatility contributionRate
                     inflationRate (wholeBelow years - year) pot salary calls,
            (calls + (wholeBelow years - year))%nat).
Proof.
  intros Hinf. induction n as [|n IH];
    intros year pot salary bal calls Hn fuel Hfuel.
  - assert (nlt (ofNat year) years = false) as Hout.
    { destruct (nlt (ofNat year) years) eqn:E; trivial.
      apply nlt_wholeBelow in E; trivial. lia. }
    replace (wholeBelow years - year)%nat with 0%nat by lia.
    destruct fuel; cbn [yearLoop]; rewrite Hout, app_nil_r, Nat.add_0_r;
      reflexivity.
  - destruct (nlt (ofNat year) years) eqn:Hin.
    + apply nlt_wholeBelow in Hin as Hlt; trivial.
      destruct fuel as [|fuel]; [lia|]. cbn [yearLoop]. rewrite Hin.
      fold (yearPot rand meanReturn volatility contributionRate pot salary
              calls).
      rewrite IH by lia.
      replace (wholeBelow years - year)%nat
        with (S (wholeBelow years - S year)) by lia.
      simpl. rewrite <- app_assoc. simpl.
      f_equal. f_equal. lia.
    + assert (wholeBelow years - year = 0)%nat as ->.
      { destruct (Nat.eq_dec (wholeBelow years - year)%nat 0%nat) as [|Hne];
          trivial.
        assert (nlt (ofNat year) years = true); [|congruence].
        apply nlt_wholeBelow; trivial. lia. }
      destruct fuel; cbn [yearLoop]; rewrite Hin, app_nil_r, Nat.add_0_r;
        reflexivity.
Qed.

End Paths.

Lemma pathLoop_ends (rand : nat -> Q) (fd : formData) (years : number) :
  years <> PosInf ->
  forall (todo : nat) (results : list (list number)) (done fuel : nat),
    (wholeBelow years <= fuel)%nat ->
    pathLoop rand fuel fd years todo results (done * wholeBelow years)
    = Ok (results
          ++ map (pathOf rand fd (wholeBelow years)) (seq done todo)).
Proof.
  intros Hinf. induction todo as [|todo IH]; intros results done fuel Hfuel.
  - simpl. rewrite app_nil_r. reflexivity.
  - simpl pathLoop.
    rewrite (yearLoop_ends rand _ _ _ _ years Hinf (wholeBelow years))
      by lia.
    rewrite Nat.sub_0_r. simpl.
    replace (done * wholeBelow years + wholeBelow years)%nat
      with (S done * wholeBelow years)%nat by lia.
    rewrite IH by exact Hfuel.
    rewrite <- app_assoc. reflexivity.
Qed.

Lemma simulatedPaths_ends (rand : nat -> Q) (fd : formData) (fuel : nat) :
  yearsOf fd <> PosInf ->
  (wholeBelow (yearsOf fd) <= fuel)%nat ->
  simulatedPaths rand fuel fd
  = Ok (map (pathOf rand fd (wholeBelow (yearsOf fd))) (seq 0 simulations)).
Proof.
  intros Hinf Hfuel. unfold simulatedPaths.
  apply (pathLoop_ends rand fd (yearsOf fd) Hinf simulations [] 0 fuel Hfuel).
Qed.

(** ** The length of the percentile series *)

Lemma arrayCreate_whole (z : Z) :
  (0 <= z <= 2 ^ 32 - 1)%Z -> arrayCreate (ofZ z) = Ok (Z.to_nat z).
Proof.
  intros [H0 H1]. unfold arrayCreate, ofZ. rewrite Qfloor_Z.
  assert (Qeq_bool (inject_Z z) (inject_Z z) = true) as -> by (qprop; lra).
  assert (Qleb 0 (inject_Z z) = true) as ->.
  { qprop. apply (inject_Z_le 0 z). exact H0. }
  assert (Qleb (inject_Z z) (inject_Z (2 ^ 32 - 1)) = true) as ->.
  { qprop. apply inject_Z_le. exact H1. }
  reflexivity.
Qed.

Lemma arrayCreate_toLength (y : Q) :
  y < inject_Z (2 ^ 32) ->
  arrayCreate (toLength (Fin y)) = Ok (Z.to_nat (Qfloor y)).
Proof.
  intros Hy. unfold toLength. destruct (Qleb y 0) eqn:E; qprop.
  - assert (Qfloor y <= 0)%Z as Hf.
    { apply (Qfloor_resp_le y 0) in E. exact E. }
    replace (Z.to_nat (Qfloor y)) with 0%nat by lia. reflexivity.
  - assert (0 <= Qfloor y)%Z as Hf0.
    { apply (Qfloor_resp_le 0 y). lra. }
    assert (Qfloor y < 2 ^ 32)%Z as Hf1.
    { apply inject_Z_lt. pose proof (Qfloor_le y). lra. }
    rewrite Z.min_l by lia. apply arrayCreate_whole. lia.
Qed.

(** [simulateAccumulation] returns when the years are a finite number
    below 2^32 and it is allowed one iteration per year. *)
Lemma simulateAccumulation_ends
  (rand : nat -> Q) (fd : formData) (y : Q) (fuel : nat) :
  yearsOf fd = Fin y ->
  y < inject_Z (2 ^ 32) ->
  (Z.to_nat (Qceiling y) <= fuel)%nat ->
  simulateAccumulation rand fuel fd
  = Ok (percentilesOf
          (map (pathOf rand fd (Z.to_nat (Qceiling y))) (seq 0 simulations))
          (Z.to_nat (Qfloor y))).
Proof.
  intros Hy Hlt Hfuel. unfold simulateAccumulation.
  rewrite simulatedPaths_ends; rewrite Hy; try discriminate; try exact Hfuel.
  simpl wholeBelow. cbn [mbind outcome_bind].
  rewrite arrayCreate_toLength by exact Hlt. reflexivity.
Qed.

Lemma percentilesOf_length (results : list (list number)) (len : nat) :
  length (p25 (percentilesOf results len)) = len
  /\ length (p50 (percentilesOf results len)) = len
  /\ length (p75 (percentilesOf results len)) = len.
Proof.
  unfold percentilesOf. simpl.
  rewrite !length_map, length_seq. auto.
Qed.







(** ** Order on numbers *)

(** Case analysis on numbers, with the tests on rationals turned into
    propositions. *)
Ltac numbers :=
  unfold positive, nonneg, ngt, nge in *;
  repeat match goal with
  | x : number |- _ => destruct x
  end;
  simpl in *; try discriminate; try contradiction; try reflexivity;
  qprop; try lra.

Lemma positive_nonneg (x : number) : positive x -> nonneg x.
Proof. intros H. numbers. Qed.

Lemma nadd_positive (a b : number) :
  nonneg a -> positive b -> positive (nadd a b).
Proof. intros Ha Hb. numbers. Qed.

Lemma Qcompare_pos (q : Q) : 0 < q -> (q ?= 0)%Q = Gt.
Proof. intros H. apply Qgt_alt. exact H. Qed.

Lemma nmul_positive (a b : number) :
  positive a -> positive b -> positive (nmul a b).
Proof.
  intros Ha Hb. numbers; unfold fin_sign;
    try (rewrite Qcompare_pos by assumption; reflexivity).
  nra.
Qed.

Lemma nle_trans (a b c : number) :
  nle a b = true -> nle b c = true -> nle a c = true.
Proof. intros Hab Hbc. numbers. Qed.

Lemma nle_refl (a : number) : a <> NaN -> nle a a = true.
Proof. intros H. numbers. Qed.

Lemma positive_defined (a : number) : positive a -> a <> NaN.
Proof. intros H ->. discriminate. Qed.

(** ** Sorting with [(a, b) => a - b] *)

Lemma sortsAfter_false (x y : option number) :
  defined x -> defined y ->
  sortsAfter nsub x y = false -> ordered x y.
Proof.
  destruct x as [a|], y as [b|]; simpl; try contradiction.
  intros Ha Hb H. unfold nsub in H. numbers.
Qed.

Lemma sortsAfter_true (x y : option number) :
  defined x -> defined y ->
  sortsAfter nsub x y = true -> ordered y x.
Proof.
  destruct x as [a|], y as [b|]; simpl; try contradiction.
  intros Ha Hb H. unfold nsub in H. numbers.
Qed.

Lemma ordered_trans (x y z : option number) :
  ordered x y -> ordered y z -> ordered x z.
Proof.
  destruct x, y, z; simpl; try contradiction. apply nle_trans.
Qed.

Lemma insertSorted_perm (comparefn : number -> number -> number)
  (x : option number) (l : list (option number)) :
  Permutation (insertSorted comparefn x l) (x :: l).
Proof.
  induction l as [|y l IH]; simpl.
  - reflexivity.
  - destruct (sortsAfter comparefn x y).
    + rewrite IH. apply perm_swap.
    + reflexivity.
Qed.

Lemma jsSort_perm (comparefn : number -> number -> number)
  (l : list (option number)) :
  Permutation (jsSort comparefn l) l.
Proof.
  induction l as [|x l IH]; simpl.
  - reflexivity.
  - rewrite insertSorted_perm, IH. reflexivity.
Qed.

Lemma insertSorted_ascending (x : option number) (l : list (option number)) :
  defined x -> Forall defined l -> ascending l ->
  ascending (insertSorted nsub x l).
Proof.
  intros Hx Hl Hs. induction Hs as [|y l Hs IH Hy]; simpl.
  - repeat constructor.
  - apply Forall_cons in Hl as [Hdy Hl].
    destruct (sortsAfter nsub x y) eqn:E.
    + constructor; [apply IH, Hl|].
      rewrite (insertSorted_perm nsub x l). constructor; [|exact Hy].
      apply sortsAfter_true; assumption.
    + apply sortsAfter_false in E; trivial.
      constructor; [constructor; assumption|].
      constructor; [exact E|].
      eapply Forall_impl; [exact Hy|]. simpl.
      intros z Hz. exact (ordered_trans x y z E Hz).
Qed.

Lemma jsSort_ascending (l : list (option number)) :
  Forall defined l -> ascending (jsSort nsub l).
Proof.
  induction l as [|x l IH]; intros Hl; simpl.
  - constructor.
  - apply Forall_cons in Hl as [Hx Hl].
    apply insertSorted_ascending; auto.
    rewrite (jsSort_perm nsub l). exact Hl.
Qed.

(** In an ascending list an earlier element is no larger than a later
    one. *)
Lemma ascending_lookup (l : list (option number)) (i j : nat)
  (x y : option number) :
  ascending l -> Forall defined l -> (i <= j)%nat ->
  l !! i = Some x -> l !! j = Some y -> ordered x y.
Proof.
  intros Hs. revert i j. induction Hs as [|z l Hs IH Hz];
    intros i j Hl Hij Hi Hj.
  - rewrite lookup_nil in Hi. discriminate.
  - apply Forall_cons in Hl as [Hdz Hl].
    destruct i as [|i], j as [|j]; simpl in *; try lia.
    + injection Hi as <-. injection Hj as <-.
      destruct z as [a|]; simpl in *; [|contradiction].
      apply nle_refl, Hdz.
    + injection Hi as <-.
      rewrite Forall_forall in Hz. apply Hz.
      apply list_elem_of_lookup. eauto.
    + apply (IH i j); trivial. lia.
Qed.

(** ** The balances of an accepted form are positive *)

Lemma fundData_spread (f : fund) :
  0 <= fundVolatility (fundData f)
  /\ fundVolatility (fundData f) < 1 + fundReturn (fundData f).
Proof. destruct f; simpl; lra. Qed.

Lemma yearPot_positive (rand : nat -> Q) (m s : Q) (cr pot salary : number)
  (calls : nat) :
  0 <= rand calls < 1 -> 0 <= s -> s < 1 + m ->
  positive cr -> nonneg pot -> positive salary ->
  positive (yearPot rand (Fin m) (Fin s) cr pot salary calls).
Proof.
  intros Hu Hs Hm Hcr Hpot Hsal. unfold yearPot.
  apply nmul_positive.
  - apply nadd_positive; [exact Hpot|].
    apply nmul_positive; assumption.
  - unfold positive. simpl. qprop.
    assert (0 <= s * rand calls) as Hsu.
    { apply Qmult_le_0_compat; lra. }
    lra.
Qed.

Lemma balancesFrom_positive (rand : nat -> Q) (m s : Q) (cr infl : number) :
  (forall k, 0 <= rand k < 1) -> 0 <= s -> s < 1 + m ->
  positive cr -> nonneg infl ->
  forall (n : nat) (pot salary : number) (calls : nat),
    nonneg pot -> positive salary ->
    Forall positive (balancesFrom rand (Fin m) (Fin s) cr infl n pot salary calls).
Proof.
  intros Hu Hs Hm Hcr Hinfl.
  induction n as [|n IH]; intros pot salary calls Hpot Hsal; simpl.
  - constructor.
  - assert (positive (yearPot rand (Fin m) (Fin s) cr pot salary calls)) as Hy.
    { apply yearPot_positive; auto. }
    constructor; [exact Hy|].
    apply IH.
    + apply positive_nonneg, Hy.
    + apply nmul_positive; [exact Hsal|].
      clear - Hinfl. numbers.
Qed.

Lemma pathOf_positive (rand : nat -> Q) (fd : formData) (n j : nat) :
  accepted fd -> (forall k, 0 <= rand k < 1) ->
  Forall positive (pathOf rand fd n j).
Proof.
  intros Hacc Hu. unfold pathOf.
  destruct (fundData_spread (fundSelection fd)) as [Hs Hm].
  destruct (acc_contribution fd Hacc) as (c & -> & Hc).
  destruct (acc_inflation fd Hacc) as (i & -> & Hi).
  apply balancesFrom_positive; trivial.
  - unfold positive. simpl. qprop. apply Qlt_shift_div_l; lra.
  - unfold nonneg. simpl. qprop. apply Qle_shift_div_l; lra.
  - apply (acc_currentPot fd Hacc).
  - apply (acc_salary fd Hacc).
Qed.

Lemma pathOf_length (rand : nat -> Q) (fd : formData) (n j : nat) :
  length (pathOf rand fd n j) = n.
Proof. apply balancesFrom_length. Qed.

(** ** Reading the percentiles *)

Lemma getPercentile_1000 (row : list (option number)) :
  length row = 1000%nat ->
  getPercentile row (Fin 0.25) = mjoin (row !! 250%nat)
  /\ getPercentile row (Fin 0.5) = mjoin (row !! 500%nat)
  /\ getPercentile row (Fin 0.75) = mjoin (row !! 750%nat).
Proof.
  intros H. unfold getPercentile. rewrite H.
  repeat split; reflexivity.
Qed.

Lemma positiveValue_defined (x : option number) :
  positiveValue x -> defined x.
Proof. destruct x; simpl; [apply positive_defined|trivial]. Qed.

Lemma yearValues_positive (results : list (list number)) (n i : nat) :
  Forall (fun run => length run = n /\ Forall positive run) results ->
  (i < n)%nat ->
  Forall positiveValue (map (fun run => run !! i) results).
Proof.
  intros Hres Hi. apply Forall_map.
  eapply Forall_impl; [exact Hres|]. simpl.
  intros run [Hlen Hpos].
  destruct (run !! i) as [a|] eqn:E.
  - simpl. rewrite Forall_forall in Hpos. apply Hpos.
    apply list_elem_of_lookup. eauto.
  - apply lookup_ge_None in E. lia.
Qed.

(** The facts about year [i] that the claims on the percentiles use. *)
Lemma year_percentiles (results : list (list number)) (n len i : nat) :
  length results = 1000%nat ->
  Forall (fun run => length run = n /\ Forall positive run) results ->
  (len <= n)%nat -> (i < len)%nat ->
  let values := map (fun run => run !! i) results in
  let sorted := yearRow results i in
  exists a b c,
    length values = 1000%nat
    /\ Forall positiveValue values
    /\ Permutation sorted values
    /\ ascending sorted
    /\ sorted !! 250%nat = Some (Some a)
    /\ sorted !! 500%nat = Some (Some b)
    /\ sorted !! 750%nat = Some (Some c)
    /\ p25 (percentilesOf results len) !! i = Some (Some a)
    /\ p50 (percentilesOf results len) !! i = Some (Some b)
    /\ p75 (percentilesOf results len) !! i = Some (Some c)
    /\ nle a b = true /\ nle b c = true.
Proof.
  intros Hlen Hres Hn Hi values sorted.
  assert (length values = 1000%nat) as Hvl.
  { unfold values. rewrite length_map. exact Hlen. }
  assert (Forall positiveValue values) as Hpos.
  { apply (yearValues_positive results n i Hres). lia. }
  assert (Permutation sorted values) as Hperm by apply jsSort_perm.
  assert (Forall positiveValue sorted) as Hsp.
  { rewrite Hperm. exact Hpos. }
  assert (Forall defined sorted) as Hsd.
  { eapply Forall_impl; [exact Hsp|]. apply positiveValue_defined. }
  assert (ascending sorted) as Hasc.
  { apply jsSort_ascending.
    eapply Forall_impl; [exact Hpos|]. apply positiveValue_defined. }
  assert (length sorted = 1000%nat) as Hsl.
  { rewrite (Permutation_length Hperm). exact Hvl. }
  assert (forall k, (k < 1000)%nat -> exists a, sorted !! k = Some (Some a))
    as Hget.
  { intros k Hk. destruct (sorted !! k) as [x|] eqn:E.
    - rewrite Forall_forall in Hsp.
      assert (positiveValue x) as Hx.
      { apply Hsp, list_elem_of_lookup. eauto. }
      destruct x as [a|]; [eauto|contradiction].
    - apply lookup_ge_None in E. lia. }
  destruct (Hget 250%nat) as [a Ha]; [lia|].
  destruct (Hget 500%nat) as [b Hb]; [lia|].
  destruct (Hget 750%nat) as [c Hc]; [lia|].
  destruct (getPercentile_1000 sorted Hsl) as (G25 & G50 & G75).
  exists a, b, c.
  assert (forall (pct : number) (x : number),
            getPercentile sorted pct = Some x ->
            map (fun row => getPercentile row pct)
              (map (yearRow results) (seq 0 len)) !! i = Some (Some x))
    as Hmap.
  { intros pct x Hx. rewrite !list_lookup_fmap.
    rewrite lookup_seq_lt by exact Hi. simpl. fold sorted. rewrite Hx.
    reflexivity. }
  split; [exact Hvl|]. split; [exact Hpos|]. split; [exact Hperm|].
  split; [exact Hasc|]. split; [exact Ha|]. split; [exact Hb|].
  split; [exact Hc|].
  split; [apply Hmap; rewrite G25, Ha; reflexivity|].
  split; [apply Hmap; rewrite G50, Hb; reflexivity|].
  split; [apply Hmap; rewrite G75, Hc; reflexivity|].
  split.
  - apply (ascending_lookup sorted 250 500 (Some a) (Some b)); trivial. lia.
  - apply (ascending_lookup sorted 500 750 (Some b) (Some c)); trivial. lia.
Qed.

Lemma paths_positive (rand : nat -> Q) (fd : formData) (n : nat) :
  accepted fd -> (forall k, 0 <= rand k < 1) ->
  let results := map (pathOf rand fd n) (seq 0 simulations) in
  length results = 1000%nat
  /\ Forall (fun run => length run = n /\ Forall positive run) results.
Proof.
  intros Hacc Hu results. split.
  - unfold results. rewrite length_map, length_seq. reflexivity.
  - apply Forall_map, Forall_forall. intros j _. simpl. split.
    + apply pathOf_length.
    + apply pathOf_positive; assumption.
Qed.

Lemma floor_le_ceiling (y : Q) :
  (Z.to_nat (Qfloor y) <= Z.to_nat (Qceiling y))%nat.
Proof.
  assert (Qfloor y <= Qceiling y)%Z as H.
  { rewrite Zle_Qle. apply Qle_floor_ceiling. }
  lia.
Qed.

(** C1.  For a form [validateInputs] accepts, draws in [0, 1) and a
    finite number of years [y] below 2^32, [simulateAccumulation]
    returns from 1000 paths; for every year index [i] of its output the
    values of the 1000 paths at [i] are positive numbers, the array
    [sort] leaves is a permutation of them in ascending order, the
    indices [Math.floor(percentile * data.length)] are 250, 500 and 750,
    and [p25[i]], [p50[i]] and [p75[i]] are the elements of that array
    at these positions. *)
Theorem percentiles_read_at_250_500_750
  (rand : nat -> Q) (fd : formData) (y : Q) :
  validated fd ->
  (forall k, 0 <= rand k < 1) ->
  yearsOf fd = Fin y ->
  y < inject_Z (2 ^ 32) ->
  exists acc results,
    (forall fuel, (Z.to_nat (Qceiling y) <= fuel)%nat ->
       simulatedPaths rand fuel fd = Ok results
       /\ simulateAccumulation rand fuel fd = Ok acc)
    /\ length results = 1000%nat
    /\ length (p50 acc) = Z.to_nat (Qfloor y)
    /\ forall i, (i < length (p50 acc))%nat ->
         let values := map (fun run => run !! i) results in
         let sorted := jsSort nsub values in
         length values = 1000%nat
         /\ Forall positiveValue values
         /\ Permutation sorted values
         /\ ascending sorted
         /\ Math_floor (nmul (Fin 0.25) (ofNat (length sorted))) = ofZ 250
         /\ Math_floor (nmul (Fin 0.5) (ofNat (length sorted))) = ofZ 500
         /\ Math_floor (nmul (Fin 0.75) (ofNat (length sorted))) = ofZ 750
         /\ is_Some (sorted !! 250%nat)
         /\ p25 acc !! i = sorted !! 250%nat
         /\ p50 acc !! i = sorted !! 500%nat
         /\ p75 acc !! i = sorted !! 750%nat.
Proof.
  intros Hv Hu Hy Hlt.
  pose proof (validated_accepted fd Hv) as Hacc.
  set (n := Z.to_nat (Qceiling y)).
  set (len := Z.to_nat (Qfloor y)).
  set (results := map (pathOf rand fd n) (seq 0 simulations)).
  destruct (paths_positive rand fd n Hacc Hu) as [Hlen Hres].
  fold results in Hlen, Hres.
  exists (percentilesOf results len), results.
  split; [|split; [exact Hlen|split; [apply percentilesOf_length|]]].
  - intros fuel Hfuel. split.
    + rewrite simulatedPaths_ends; rewrite Hy; try discriminate; trivial.
    + apply simulateAccumulation_ends; assumption.
  - intros i Hi values sorted.
    destruct (percentilesOf_length results len) as (_ & H50 & _).
    rewrite H50 in Hi.
    destruct (year_percentiles results n len i Hlen Hres
                (floor_le_ceiling y) Hi)
      as (a & b & c & Hvl & Hpos & Hperm & Hasc & Ha & Hb & Hc
          & G25 & G50 & G75 & _).
    fold values in Hvl, Hpos, Hperm.
    change (yearRow results i) with sorted in Hperm, Hasc, Ha, Hb, Hc.
    assert (length sorted = 1000%nat) as Hsl.
    { rewrite (Permutation_length Hperm). exact Hvl. }
    rewrite G25, G50, G75, Ha, Hb, Hc, Hsl. repeat split; eauto.
Qed.

Lemma percentiles_read_at_250_500_750_witness :
  exists acc results,
    simulateAccumulation (fun _ => 1 # 2) 2 halfYearForm = Ok acc
    /\ simulatedPaths (fun _ => 1 # 2) 2 halfYearForm = Ok results
    /\ p50 acc !! 0%nat
       = jsSort nsub (map (fun run => run !! 0%nat) results) !! 500%nat.
Proof.
  destruct (percentiles_read_at_250_500_750
              (fun _ => 1 # 2) halfYearForm (3 + - (15 # 10)))
    as (acc & results & Hrun & _ & Hlen & Hrows).
  - vm_compute. reflexivity.
  - intros k. lra.
  - reflexivity.
  - reflexivity.
  - exists acc, results.
    destruct (Hrun 2%nat) as [Hpaths Hacc]; [vm_compute; lia|].
    split; [exact Hacc|]. split; [exact Hpaths|].
    apply (Hrows 0%nat). rewrite Hlen. vm_compute. lia.
Defined.

(** C5.  For a form [validateInputs] accepts, draws in [0, 1) and a
    finite number of years [y] below 2^32, [simulateAccumulation]
    returns, and at every year index [i] of its output
    [p25[i] <= p50[i] <= p75[i]]. *)
Theorem percentiles_in_order (rand : nat -> Q) (fd : formData) (y : Q) :
  validated fd ->
  (forall k, 0 <= rand k < 1) ->
  yearsOf fd = Fin y ->
  y < inject_Z (2 ^ 32) ->
  exists acc,
    (forall fuel, (Z.to_nat (Qceiling y) <= fuel)%nat ->
       simulateAccumulation rand fuel fd = Ok acc)
    /\ length (p50 acc) = Z.to_nat (Qfloor y)
    /\ forall i, (i < length (p50 acc))%nat ->
         exists a b c,
           p25 acc !! i = Some (Some a)
           /\ p50 acc !! i = Some (Some b)
           /\ p75 acc !! i = Some (Some c)
           /\ nle a b = true /\ nle b c = true.
Proof.
  intros Hv Hu Hy Hlt.
  pose proof (validated_accepted fd Hv) as Hacc.
  set (n := Z.to_nat (Qceiling y)).
  set (len := Z.to_nat (Qfloor y)).
  set (results := map (pathOf rand fd n) (seq 0 simulations)).
  destruct (paths_positive rand fd n Hacc Hu) as [Hlen Hres].
  fold results in Hlen, Hres.
  destruct (percentilesOf_length results len) as (_ & H50 & _).
  exists (percentilesOf results len).
  split; [|split; [exact H50|]].
  - intros fuel Hfuel. apply simulateAccumulation_ends; assumption.
  - intros i Hi. rewrite H50 in Hi.
    destruct (year_percentiles results n len i Hlen Hres
                (floor_le_ceiling y) Hi)
      as (a & b & c & _ & _ & _ & _ & _ & _ & _ & G25 & G50 & G75 & Hab & Hbc).
    exists a, b, c. auto.
Qed.

Lemma percentiles_in_order_witness :
  exists acc a b c,
    simulateAccumulation (fun _ => 1 # 2) 2 halfYearForm = Ok acc
    /\ p25 acc !! 0%nat = Some (Some a)
    /\ p50 acc !! 0%nat = Some (Some b)
    /\ p75 acc !! 0%nat = Some (Some c)
    /\ nle a b = true /\ nle b c = true.
Proof.
  destruct (percentiles_in_order
              (fun _ => 1 # 2) halfYearForm (3 + - (15 # 10)))
    as (acc & Hrun & Hlen & Hrows).
  - vm_compute. reflexivity.
  - intros k. lra.
  - reflexivity.
  - reflexivity.
  - destruct (Hrows 0%nat) as (a & b & c & H); [rewrite Hlen; vm_compute; lia|].
    exists acc, a, b, c. split; [apply Hrun; vm_compute; lia | exact H].
Defined.

(** ** The pots stay finite and non-negative *)

Lemma finNonneg_inv (x : number) :
  finNonneg x -> exists q, x = Fin q /\ 0 <= q.
Proof. destruct x; simpl; try contradiction. eauto. Qed.

Lemma finite_inv (x : number) : finite x -> exists q, x = Fin q.
Proof. destruct x; simpl; try contradiction. eauto. Qed.

(** Summing from a larger start gives a larger total. *)
Lemma fold_nadd_mono (l : list number) :
  Forall finNonneg l ->
  forall a b : Q, a <= b ->
    exists ta tb,
      fold_left nadd l (Fin a) = Fin ta
      /\ fold_left nadd l (Fin b) = Fin tb
      /\ ta <= tb /\ a <= ta.
Proof.
  induction 1 as [|x l Hx Hl IH]; intros a b Hab; simpl.
  - exists a, b. repeat split; trivial. lra.
  - apply finNonneg_inv in Hx as (q & -> & Hq). simpl.
    destruct (IH (a + q) (b + q)) as (ta & tb & Ha & Hb & Hle & Hge);
      [lra|].
    exists ta, tb. repeat split; trivial. lra.
Qed.

Lemma sum_finNonneg (l : list number) :
  Forall finNonneg l -> finNonneg (sum l).
Proof.
  intros H. destruct (fold_nadd_mono l H 0 0) as (t & _ & Ht & _ & _ & Hge);
    [lra|].
  unfold sum. rewrite Ht. exact Hge.
Qed.

Lemma Math_min_within (a : number) (q0 : Q) :
  nonneg a -> 0 <= q0 ->
  exists w, Math_min a (Fin q0) = Fin w /\ 0 <= w <= q0.
Proof.
  intros Ha Hq. unfold nonneg in Ha.
  destruct a as [| |q|]; simpl in *; try discriminate; qprop.
  - destruct (Qleb q q0) eqn:E; qprop; eexists; split;
      try reflexivity; lra.
  - exists q0. split; [reflexivity|lra].
Qed.

Lemma Forall_imap_lookup {A B : Type} (P : B -> Prop) (f : nat -> A -> B)
  (l : list A) :
  (forall i x, l !! i = Some x -> P (f i x)) -> Forall P (imap f l).
Proof.
  intros H. apply Forall_lookup. intros i y Hy.
  rewrite list_lookup_imap in Hy.
  destruct (l !! i) as [x|] eqn:E; simpl in Hy; [|discriminate].
  injection Hy as <-. apply H, E.
Qed.

Lemma numAt_lookup (l : list number) (i : nat) (x : number) :
  l !! i = Some x -> numAt l i = x.
Proof. unfold numAt. intros ->. reflexivity. Qed.

Lemma numAt_finNonneg (l : list number) (i : nat) :
  Forall finNonneg l -> (i < length l)%nat -> finNonneg (numAt l i).
Proof.
  intros Hl Hi. destruct (lookup_lt_is_Some_2 l i Hi) as [x Hx].
  rewrite (numAt_lookup l i x Hx).
  rewrite Forall_lookup in Hl. exact (Hl i x Hx).
Qed.

Lemma applyReturns_finNonneg (returns ps : list number) :
  Forall finite returns -> (length ps <= length returns)%nat ->
  Forall finNonneg ps -> Forall finNonneg (applyReturns returns ps).
Proof.
  intros Hr Hlen Hps. apply Forall_imap_lookup. intros i x Hx.
  assert (finNonneg x) as Hfx.
  { rewrite Forall_lookup in Hps. exact (Hps i x Hx). }
  apply finNonneg_inv in Hfx as (q & -> & Hq).
  assert (i < length returns)%nat as Hi.
  { apply lookup_lt_Some in Hx. lia. }
  destruct (lookup_lt_is_Some_2 returns i Hi) as [r Hri].
  rewrite (numAt_lookup returns i r Hri).
  rewrite Forall_lookup in Hr.
  destruct (finite_inv r (Hr i r Hri)) as [qr ->]. simpl.
  destruct (Qleb (q * (1 + qr)) 0) eqn:E; simpl; qprop; lra.
Qed.

Lemma rebalance_finNonneg (ps : list number) :
  Forall finNonneg ps -> Forall finNonneg (rebalance ps).
Proof.
  intros Hps. unfold rebalance.
  destruct (Nat.ltb 1 (length (List.filter isPositive ps))) eqn:E;
    [|exact Hps].
  apply Nat.ltb_lt in E.
  destruct (finNonneg_inv _ (sum_finNonneg ps Hps)) as (t & -> & Ht).
  apply Forall_map, Forall_forall. intros x _. simpl.
  destruct (isPositive x); simpl; [|lra].
  set (k := length (List.filter isPositive ps)) in *.
  assert (0 < inject_Z (Z.of_nat k)) as Hk.
  { apply (inject_Z_lt 0). lia. }
  destruct (Qeq_bool (inject_Z (Z.of_nat k)) 0) eqn:Ez; qprop; [lra|].
  simpl. apply Qle_shift_div_l; lra.
Qed.

Lemma rebalance_length (ps : list number) :
  length (rebalance ps) = length ps.
Proof.
  unfold rebalance. destruct (Nat.ltb _ _); [apply length_map|reflexivity].
Qed.

Lemma nadd_finNonneg (a b : number) :
  finNonneg a -> finNonneg b -> finNonneg (nadd a b).
Proof.
  destruct a, b; simpl; try contradiction. intros; lra.
Qed.

Lemma consolidate_finNonneg (todo from : nat) (w : number)
  (ps : list number) (moved : list bool) :
  Forall finNonneg ps ->
  (from + todo < length ps)%nat ->
  Forall finNonneg (fst (consolidate todo from w ps moved))
  /\ length (fst (consolidate todo from w ps moved)) = length ps.
Proof.
  intros Hps. revert from. induction todo as [|todo IH]; intros from Hlen;
    simpl.
  - auto.
  - destruct (_ && _ && _)%bool.
    + simpl. rewrite !length_insert. split; [|reflexivity].
      apply Forall_insert; [apply Forall_insert|]; trivial; simpl; try lra.
      apply nadd_finNonneg; apply numAt_finNonneg; trivial; lia.
    + apply IH. lia.
Qed.

Lemma sweep_finNonneg (ps : list number) :
  Forall finNonneg ps -> (1 <= length ps)%nat ->
  Forall finNonneg (sweep ps).
Proof.
  intros Hps Hlen. unfold sweep. apply Forall_imap_lookup.
  intros [|i] x Hx; simpl; [|lra].
  rewrite list_lookup_insert_eq in Hx by lia. injection Hx as <-.
  apply nadd_finNonneg.
  - apply numAt_finNonneg; trivial.
  - apply sum_finNonneg, Forall_drop, Hps.
Qed.

Lemma sweep_length (ps : list number) : length (sweep ps) = length ps.
Proof. unfold sweep. rewrite length_imap, length_insert. reflexivity. Qed.

Lemma policyAmount_nonneg (p : plan) (v : vars) :
  planOk p -> varsOk p v -> nonneg (policyAmount p v).
Proof.
  intros Hp Hv. unfold policyAmount.
  destruct (String.eqb (planDrawdownType p) "percentage").
  - destruct (finNonneg_inv _ (sum_finNonneg _ (vars_nonneg p v Hv)))
      as (t & -> & Ht).
    destruct (finNonneg_inv _ (plan_rate p Hp)) as (d & -> & Hd).
    unfold nonneg. simpl. qprop. apply Qmult_le_0_compat; assumption.
  - apply (vars_fixed p v Hv).
Qed.

(** The withdrawal is a finite amount between zero and what the first
    pot holds. *)
Lemma withdrawal_within (p : plan) (v : vars) :
  planOk p -> varsOk p v ->
  exists q0 w rest,
    pots v = Fin q0 :: rest
    /\ withdrawalOf p v = Fin w
    /\ 0 <= w <= q0
    /\ Forall finNonneg rest
    /\ withdraw (withdrawalOf p v) (pots v) = Fin (q0 + - w) :: rest.
Proof.
  intros Hp Hv.
  pose proof (vars_pots p v Hv) as Hlen.
  pose proof (vars_nonneg p v Hv) as Hnn.
  pose proof (plan_funds p Hp) as Hn.
  pose proof (policyAmount_nonneg p v Hp Hv) as Hpol.
  unfold withdrawalOf, withdraw.
  destruct (pots v) as [|x rest]; simpl in Hlen; [lia|].
  apply Forall_cons in Hnn as [Hx Hrest].
  apply finNonneg_inv in Hx as (q0 & -> & Hq0).
  change (numAt (Fin q0 :: rest) 0) with (Fin q0).
  destruct (Math_min_within _ q0 Hpol Hq0) as (w & -> & Hw).
  exists q0, w, rest. repeat split; trivial; lra.
Qed.

Lemma potsConsolidated_ok (p : plan) (v : vars) :
  planOk p -> varsOk p v ->
  Forall finNonneg (fst (potsConsolidated p v))
  /\ length (fst (potsConsolidated p v)) = planFunds p.
Proof.
  intros Hp Hv.
  pose proof (vars_pots p v Hv) as Hlen.
  pose proof (plan_funds p Hp) as Hn.
  destruct (withdrawal_within p v Hp Hv)
    as (q0 & w & rest & Hpots & Hw & Hwq & Hrest & Hafter).
  unfold potsConsolidated. rewrite Hafter, Hw.
  assert (length (Fin (q0 + - w) :: rest) = planFunds p) as Hl1.
  { rewrite <- Hlen, Hpots. reflexivity. }
  assert (Forall finNonneg (Fin (q0 + - w) :: rest)) as Hf1.
  { constructor; [simpl; lra|exact Hrest]. }
  set (ps1 := Fin (q0 + - w) :: rest) in *.
  assert (Forall finNonneg (applyReturns (planReturns p) ps1)) as Hf2.
  { apply applyReturns_finNonneg; trivial.
    - apply (plan_returns p Hp).
    - lia. }
  assert (length (applyReturns (planReturns p) ps1) = planFunds p) as Hl2.
  { unfold applyReturns. rewrite length_imap. exact Hl1. }
  set (ps2 := applyReturns (planReturns p) ps1) in *.
  set (ps3 := if yearEnd v then rebalance ps2 else ps2).
  assert (Forall finNonneg ps3 /\ length ps3 = planFunds p) as [Hf3 Hl3].
  { unfold ps3. destruct (yearEnd v); [|auto].
    split; [apply rebalance_finNonneg, Hf2|].
    rewrite rebalance_length. exact Hl2. }
  destruct (consolidate_finNonneg (planFunds p - 1) 0 (Fin w) ps3
              (movedFunds v) Hf3) as [Hf4 Hl4]; [lia|].
  split; [exact Hf4|lia].
Qed.

Lemma potsAfter_ok (p : plan) (v : vars) :
  planOk p -> varsOk p v ->
  Forall finNonneg (fst (potsAfter p v))
  /\ length (fst (potsAfter p v)) = planFunds p.
Proof.
  intros Hp Hv.
  pose proof (plan_funds p Hp) as Hn.
  destruct (potsConsolidated_ok p v Hp Hv) as [Hf Hl].
  unfold potsAfter. destruct (potsConsolidated p v) as [ps moved].
  simpl in Hf, Hl.
  destruct (_ && _)%bool; simpl.
  - split; [apply sweep_finNonneg; trivial; lia|].
    rewrite sweep_length. exact Hl.
  - auto.
Qed.

Lemma inflate_nonneg (x i : number) :
  nonneg x -> finNonneg i -> nonneg (nmul x (nadd (Fin 1) i)).
Proof.
  intros Hx Hi. apply finNonneg_inv in Hi as (q & -> & Hq).
  unfold nonneg in *. destruct x as [| |a|]; simpl in *; try discriminate.
  - qprop. apply Qmult_le_0_compat; lra.
  - unfold fin_sign. rewrite Qcompare_pos by lra. reflexivity.
Qed.

Lemma record_ok (p : plan) (v : vars) :
  planOk p -> varsOk p v -> varsOk p (record p v).
Proof.
  intros Hp Hv. destruct (potsAfter_ok p v Hp Hv) as [Hf Hl].
  split.
  - rewrite record_pots. exact Hl.
  - rewrite record_pots. exact Hf.
  - unfold record. destruct (potsAfter p v). simpl.
    destruct (_ && _)%bool; [|apply (vars_fixed p v Hv)].
    apply inflate_nonneg; [apply (vars_fixed p v Hv)|].
    apply (plan_inflation p Hp).
  - rewrite record_fundBalances, length_imap. apply (vars_series p v Hv).
Qed.

Lemma month_ok (p : plan) (v : vars) :
  planOk p -> varsOk p v -> varsOk p (fst (month p v)).
Proof.
  intros Hp Hv. pose proof (record_ok p v Hp Hv) as [H1 H2 H3 H4].
  unfold month. destruct (nlt _ _); [destruct (ngt _ _)|]; simpl;
    split; assumption.
Qed.

Lemma reachable_ok (p : plan) (v0 v : vars) :
  planOk p -> varsOk p v0 -> reachable p v0 v -> varsOk p v.
Proof.
  intros Hp H0 Hr. induction Hr as [|v Hr IH Hrun Hstay].
  - exact H0.
  - apply month_ok; assumption.
Qed.

Lemma planOf_ok (fd : formData) (n : nat) :
  accepted fd -> (1 <= n <= length (funds fd))%nat -> planOk (planOf fd n).
Proof.
  intros Hacc Hn. split; simpl.
  - rewrite length_map. exact Hn.
  - apply Forall_map, Forall_forall. intros f _. exact I.
  - destruct (String.eqb (drawdownType fd) "percentage") eqn:E; [|simpl; lra].
    apply String.eqb_eq in E.
    destruct (acc_percentage fd Hacc E) as (d & -> & Hd). simpl.
    repeat (apply Qle_shift_div_l; [lra|]). lra.
  - destruct (acc_inflation fd Hacc) as (i & -> & Hi). simpl.
    apply Qle_shift_div_l; lra.
Qed.

Lemma initial_ok (fd : formData) (sp : Q) (n moved : nat) :
  accepted fd -> parseInt (numFunds fd) = ofNat n -> (1 <= n)%nat ->
  0 < sp ->
  varsOk (planOf fd n) (initialVars fd (Fin sp) n moved).
Proof.
  intros Hacc Hpn Hn Hsp. split; simpl.
  - apply length_replicate.
  - apply Forall_replicate. rewrite Hpn. unfold ofNat, ofZ. simpl.
    assert (0 < inject_Z (Z.of_nat n)) as Hpos.
    { apply (inject_Z_lt 0). lia. }
    destruct (Qeq_bool (inject_Z (Z.of_nat n)) 0) eqn:E; qprop; [lra|].
    simpl. apply Qle_shift_div_l; lra.
  - destruct (String.eqb (drawdownType fd) "fixed") eqn:E1.
    + apply String.eqb_eq in E1.
      apply positive_nonneg, (acc_fixed fd Hacc E1).
    + destruct (String.eqb (drawdownType fd) "initialPot") eqn:E2.
      * apply String.eqb_eq in E2.
        destruct (acc_initialPot fd Hacc E2) as (d & -> & Hd).
        unfold nonneg. simpl. qprop.
        repeat (apply Qle_shift_div_l; [lra|]).
        assert (0 <= sp * d) by (apply Qmult_le_0_compat; lra). lra.
      * reflexivity.
  - apply length_replicate.
Qed.

(** ** After the switch age *)

Lemma sweep_zero (ps : list number) (i : nat) :
  (1 <= i)%nat -> (i < length ps)%nat -> numAt (sweep ps) i = Fin 0.
Proof.
  intros H1 Hi. unfold sweep, numAt.
  rewrite list_lookup_imap, list_lookup_insert_ne by lia.
  destruct (lookup_lt_is_Some_2 ps i Hi) as [x ->]. simpl.
  destruct i; [lia|reflexivity].
Qed.

(** The sweep puts the total of the later pots into the first pot. *)
Lemma sweep_first_pot (ps : list number) :
  (1 <= length ps)%nat ->
  numAt (sweep ps) 0 = nadd (numAt ps 0) (sum (drop 1 ps)).
Proof.
  intros Hlen. unfold sweep, numAt at 1.
  rewrite list_lookup_imap, list_lookup_insert_eq by lia. reflexivity.
Qed.

Lemma not_positive_zero (ps : list number) (i : nat) :
  Forall finNonneg ps ->
  existsb isPositive (drop 1 ps) = false ->
  (1 <= i)%nat -> (i < length ps)%nat ->
  isZero (numAt ps i).
Proof.
  intros Hps Hnone H1 Hi.
  destruct (lookup_lt_is_Some_2 ps i Hi) as [x Hx].
  rewrite (numAt_lookup ps i x Hx).
  assert (finNonneg x) as Hfx.
  { rewrite Forall_lookup in Hps. exact (Hps i x Hx). }
  assert (isPositive x = false) as Hnp.
  { destruct (isPositive x) eqn:E; trivial.
    assert (existsb isPositive (drop 1 ps) = true); [|congruence].
    apply existsb_exists. exists x. split; [|exact E].
    apply list_elem_of_In, list_elem_of_lookup. exists (i - 1)%nat.
    rewrite lookup_drop. replace (1 + (i - 1))%nat with i by lia. exact Hx. }
  apply finNonneg_inv in Hfx as (q & -> & Hq).
  unfold isPositive, ngt in Hnp. simpl in *. qprop. lra.
Qed.

Lemma potsAfter_swept (p : plan) (v : vars) (i : nat) :
  planOk p -> varsOk p v ->
  nge (simAge v) (planSwitchAge p) = true ->
  (1 <= i < planFunds p)%nat ->
  isZero (numAt (fst (potsAfter p v)) i).
Proof.
  intros Hp Hv Hage Hi.
  destruct (potsConsolidated_ok p v Hp Hv) as [Hf Hl].
  unfold potsAfter. destruct (potsConsolidated p v) as [ps moved].
  simpl in Hf, Hl. rewrite Hage. simpl.
  destruct (existsb isPositive (drop 1 ps)) eqn:E; simpl.
  - rewrite sweep_zero by lia. simpl. reflexivity.
  - apply not_positive_zero; trivial; lia.
Qed.

Lemma record_swept (p : plan) (v : vars) :
  planOk p -> tracked p v -> sweptFrom p (fundBalances (record p v)).
Proof.
  intros Hp [Hok Hlen Hage Hsw].
  intros i series' m x Hi Hseries Hm Hswitch.
  rewrite record_fundBalances, list_lookup_imap in Hseries.
  destruct (fundBalances v !! i) as [series|] eqn:E; simpl in Hseries;
    [|discriminate].
  injection Hseries as <-.
  assert (length series = months v) as Hls.
  { rewrite Forall_lookup in Hlen. exact (Hlen i series E). }
  assert (i < planFunds p)%nat as Hin.
  { apply lookup_lt_Some in E. rewrite (vars_series p v Hok) in E. exact E. }
  destruct (Nat.lt_ge_cases m (length series)) as [Hold|Hnew].
  - rewrite lookup_app_l in Hm by exact Hold.
    exact (Hsw i series m x Hi E Hm Hswitch).
  - rewrite lookup_app_r in Hm by exact Hnew.
    destruct (m - length series)%nat as [|k] eqn:Ek; simpl in Hm;
      [|discriminate].
    injection Hm as <-.
    assert (m = months v) as -> by lia.
    rewrite <- Hage in Hswitch.
    apply potsAfter_swept; trivial. lia.
Qed.

Lemma month_fundBalances (p : plan) (v : vars) :
  fundBalances (fst (month p v)) = fundBalances (record p v).
Proof.
  unfold month. destruct (nlt _ _); [destruct (ngt _ _)|]; reflexivity.
Qed.

Lemma month_tracked (p : plan) (v : vars) :
  planOk p -> tracked p v -> snd (month p v) = false ->
  tracked p (fst (month p v)).
Proof.
  intros Hp Ht Hstay.
  pose proof (record_swept p v Hp Ht) as Hsw.
  pose proof (month_ok p v Hp (tr_ok p v Ht)) as Hok.
  pose proof (tr_length p v Ht) as Hlen.
  split; trivial.
  - rewrite month_fundBalances, record_fundBalances, month_months, Hstay.
    apply imap_push_length. exact Hlen.
  - unfold month in *. destruct (nlt _ _); [destruct (ngt _ _)|];
      simpl in *; try discriminate.
    rewrite record_months. reflexivity.
  - rewrite month_fundBalances. exact Hsw.
Qed.

Lemma reachable_tracked (p : plan) (v0 v : vars) :
  planOk p -> tracked p v0 -> reachable p v0 v -> tracked p v.
Proof.
  intros Hp H0 Hr. induction Hr as [|v Hr IH Hrun Hstay].
  - exact H0.
  - apply month_tracked; assumption.
Qed.

(** Where the loop ends: at a state it reached whose test failed, or in
    the month of such a state that left with [break]. *)
Lemma monthLoop_final (p : plan) (v0 : vars) (fuel : nat) (v v' : vars) :
  reachable p v0 v ->
  monthLoop fuel p v = Ok v' ->
  (reachable p v0 v' /\ running p v' = false)
  \/ exists u, reachable p v0 u /\ running p u = true
               /\ month p u = (v', true).
Proof.
  revert v. induction fuel as [|fuel IH]; intros v Hr Hloop; simpl in Hloop.
  - destruct (running p v) eqn:E; [discriminate|].
    injection Hloop as <-. auto.
  - destruct (running p v) eqn:E.
    + destruct (month p v) as [v1 broke] eqn:Em. destruct broke.
      * injection Hloop as <-. right. exists v. auto.
      * apply (IH v1); [|exact Hloop].
        replace v1 with (fst (month p v)) by (rewrite Em; reflexivity).
        apply reach_month; trivial. rewrite Em. reflexivity.
    + injection Hloop as <-. auto.
Qed.

Lemma nge_first_month (x z : number) :
  nge (nadd x (Math_floor (ndiv (ofNat 0) (Fin 12)))) z = nge x z.
Proof.
  change (Math_floor (ndiv (ofNat 0) (Fin 12))) with (Fin 0).
  unfold nge. destruct x as [| |q|], z as [| |r|]; simpl; trivial.
  destruct (Qleb r (q + 0)) eqn:E1, (Qleb r q) eqn:E2; trivial; qprop; lra.
Qed.

(** The age does not go down from month to month, so the months at or
    above the switch age are all the months from the first of them. *)
Lemma ageAt_mono (p : plan) (m m' : nat) :
  (m <= m')%nat ->
  nge (ageAt p m) (planSwitchAge p) = true ->
  nge (ageAt p m') (planSwitchAge p) = true.
Proof.
  intros Hm. unfold ageAt, nge.
  assert (Qfloor (inject_Z (Z.of_nat m) / 12)
          <= Qfloor (inject_Z (Z.of_nat m') / 12))%Z as Hf.
  { apply Qfloor_resp_le. apply Qle_shift_div_l; [lra|].
    assert (inject_Z (Z.of_nat m) / 12 * 12 == inject_Z (Z.of_nat m))
      as -> by (field; lra).
    apply inject_Z_le. lia. }
  apply inject_Z_le in Hf.
  change (ndiv (ofNat m) (Fin 12)) with (Fin (inject_Z (Z.of_nat m) / 12)).
  change (ndiv (ofNat m') (Fin 12)) with (Fin (inject_Z (Z.of_nat m') / 12)).
  unfold Math_floor, ofZ.
  generalize dependent (inject_Z (Qfloor (inject_Z (Z.of_nat m) / 12))).
  generalize (inject_Z (Qfloor (inject_Z (Z.of_nat m') / 12))).
  intros f' f Hf.
  destruct (planRetirementAge p) as [| |r|], (planSwitchAge p) as [| |w|];
    simpl; trivial.
  intros H. qprop. lra.
Qed.

Lemma initial_tracked (fd : formData) (sp : Q) (n moved : nat) :
  accepted fd -> parseInt (numFunds fd) = ofNat n -> (1 <= n)%nat ->
  0 < sp ->
  tracked (planOf fd n) (initialVars fd (Fin sp) n moved).
Proof.
  intros Hacc Hpn Hn Hsp. split.
  - apply initial_ok; assumption.
  - apply (initial_recorded fd (Fin sp) n moved).
  - symmetry. apply nge_first_month.
  - intros i series m x _ Hseries Hm _. simpl in Hseries.
    apply lookup_replicate in Hseries as [-> _].
    rewrite lookup_nil in Hm. discriminate.
Qed.

Lemma usable_positive (sp : Q) : 0 < sp -> unusable (Some (Fin sp)) = false.
Proof.
  intros H. simpl.
  assert (Qeq_bool sp 0 = false) as -> by (qprop; lra).
  assert (Qleb sp 0 = false) as -> by (qprop; lra).
  reflexivity.
Qed.

Lemma planOf_maxMonths (fd : formData) (n : nat) :
  planMaxMonths (planOf fd n) <> PosInf.
Proof.
  simpl. destruct (parseInt_whole (retirementAge fd)) as [->|[z ->]];
    discriminate.
Qed.

Lemma record_movedFunds (p : plan) (v : vars) :
  movedFunds (record p v) = snd (potsAfter p v).
Proof. unfold record. destruct (potsAfter p v). reflexivity. Qed.

Lemma consolidate_moved_length (todo from : nat) (w : number)
  (ps : list number) (moved : list bool) :
  length (snd (consolidate todo from w ps moved)) = length moved.
Proof.
  revert from. induction todo as [|todo IH]; intros from; simpl.
  - reflexivity.
  - destruct (_ && _ && _)%bool; [|apply IH].
    simpl. apply length_insert.
Qed.

Lemma potsAfter_moved_length (p : plan) (v : vars) :
  length (snd (potsAfter p v)) = length (movedFunds v).
Proof.
  unfold potsAfter.
  pose proof (consolidate_moved_length (planFunds p - 1) 0
                (withdrawalOf p v)
                (if yearEnd v
                 then rebalance (applyReturns (planReturns p)
                                   (withdraw (withdrawalOf p v) (pots v)))
                 else applyReturns (planReturns p)
                        (withdraw (withdrawalOf p v) (pots v)))
                (movedFunds v)) as Hlen.
  fold (potsConsolidated p v) in Hlen.
  destruct (potsConsolidated p v) as [ps moved]. simpl in Hlen.
  destruct (_ && _)%bool; simpl; [rewrite length_map|]; exact Hlen.
Qed.

Lemma reachable_moved_length (p : plan) (v0 v : vars) :
  reachable p v0 v -> length (movedFunds v) = length (movedFunds v0).
Proof.
  induction 1 as [|v Hr IH Hrun Hstay]; [reflexivity|].
  unfold month in *. destruct (nlt _ _); [discriminate|].
  cbn [fst nextMonth movedFunds].
  rewrite record_movedFunds, potsAfter_moved_length. exact IH.
Qed.

(** What the sweep leaves, when it happens. *)
Lemma potsAfter_sweep (p : plan) (v : vars) :
  nge (simAge v) (planSwitchAge p) = true ->
  existsb isPositive (drop 1 (fst (potsConsolidated p v))) = true ->
  potsAfter p v
  = (sweep (fst (potsConsolidated p v)),
     replicate (length (movedFunds v)) true).
Proof.
  intros Hage Hsome.
  pose proof (potsAfter_moved_length p v) as Hlen.
  unfold potsAfter in *.
  destruct (potsConsolidated p v) as [ps moved]. cbn [fst] in Hsome.
  rewrite Hage, Hsome in *. cbn [andb snd] in *.
  f_equal. rewrite length_map in Hlen. rewrite <- Hlen.
  clear. induction moved as [|b moved IH]; simpl; [reflexivity|].
  f_equal. exact IH.
Qed.

(** C4.  For a form [validateInputs] accepts, with as many funds chosen
    as the number-of-funds select says, and a positive finite starting
    pot.  [simulateDecumulation] returns once it is allowed the months
    its test admits, and in its result every balance recorded for a fund
    after the first, in a month [m] with
    [retirementAge + Math.floor(m / 12)] at or above the switch age, is
    zero; these months are all the months from the first of them.  At
    every state the loop reaches, the month writes down, for each fund,
    the pot it ends with; in a month at or above the switch age every
    pot after the first ends at zero; and when a pot after the first
    still holds something after the consolidation, the sweep adds all of
    them to the first pot in one step, sets each to 0 and sets every
    moved flag. *)
Theorem later_funds_empty_from_switch_age (fd : formData) (sp : Q) :
  validated fd ->
  In (numFunds fd) numFundsOptions ->
  parseInt (numFunds fd) = ofNat (length (funds fd)) ->
  0 < sp ->
  let n := length (funds fd) in
  let p := planOf fd n in
  let v0 := initialVars fd (Fin sp) n (n - 1) in
  (exists res,
     (forall fuel, (wholeBelow (planMaxMonths p) <= fuel)%nat ->
        simulateDecumulation fuel fd (Some (Fin sp)) = Ok res)
     /\ forall (i : nat) (series : list number) (m : nat) (x : number),
          (1 <= i)%nat ->
          fundSeries res !! i = Some series ->
          series !! m = Some x ->
          nge (ageAt p m) (planSwitchAge p) = true ->
          isZero x
          /\ forall m', (m <= m')%nat ->
                        nge (ageAt p m') (planSwitchAge p) = true)
  /\ forall v,
       reachable p v0 v ->
       fundBalances (record p v)
       = imap (fun i series => series ++ [numAt (pots (record p v)) i])
           (fundBalances v)
       /\ Forall (fun series => length series = S (months v))
            (fundBalances (record p v))
       /\ (nge (ageAt p (months v)) (planSwitchAge p) = true ->
           (forall i, (1 <= i < n)%nat ->
              isZero (numAt (pots (record p v)) i))
           /\ (existsb isPositive (drop 1 (fst (potsConsolidated p v)))
               = true ->
               numAt (pots (record p v)) 0
               = nadd (numAt (fst (potsConsolidated p v)) 0)
                   (sum (drop 1 (fst (potsConsolidated p v))))
               /\ (forall i, (1 <= i < n)%nat ->
                     numAt (pots (record p v)) i = Fin 0)
               /\ movedFunds (record p v) = replicate (n - 1) true)).
Proof.
  intros Hv Hsel Hfunds Hsp n p v0.
  pose proof (validated_accepted fd Hv) as Hacc.
  destruct (numFunds_option fd Hsel) as (n' & Hn & Hpn & Hc1 & Hc2).
  assert (n' = n) as Hnl.
  { rewrite Hpn in Hfunds. unfold ofNat, ofZ, inject_Z in Hfunds.
    injection Hfunds as Hfunds. unfold n. lia. }
  subst n'.
  assert (planOk p) as Hp by (apply planOf_ok; [exact Hacc|fold n; lia]).
  assert (tracked p v0) as Ht0.
  { apply initial_tracked; trivial. lia. }
  split.
  - destruct (monthLoop_ends p (planOf_maxMonths fd _)
                (wholeBelow (planMaxMonths p)) v0)
      as (v' & k & Hloop & _ & _ & _).
    { simpl. lia. }
    { simpl. lia. }
    { apply initial_recorded. }
    exists (resultOf v'). split.
    + intros fuel Hfuel. unfold simulateDecumulation.
      rewrite (usable_positive sp Hsp), Hc1, Hc2.
      cbn [mbind outcome_bind default]. unfold id. fold p. fold v0.
      rewrite (Hloop fuel Hfuel). reflexivity.
    + assert (sweptFrom p (fundBalances v')) as Hsw.
      2: { intros i series m x Hi Hseries Hm Hage. split.
           - exact (Hsw i series m x Hi Hseries Hm Hage).
           - intros m' Hle. exact (ageAt_mono p m m' Hle Hage). }
      destruct (monthLoop_final p v0 _ v0 v' (reach_start p v0)
                  (Hloop _ (Nat.le_refl _)))
        as [[Hr _]|(u & Hr & Hrun & Hm)].
      * apply (tr_swept p v' (reachable_tracked p v0 v' Hp Ht0 Hr)).
      * replace v' with (fst (month p u)) by (rewrite Hm; reflexivity).
        rewrite month_fundBalances. apply record_swept; trivial.
        apply (reachable_tracked p v0 u Hp Ht0 Hr).
  - intros v Hr.
    destruct (reachable_tracked p v0 v Hp Ht0 Hr) as [Hok Hlen Hage _].
    destruct (potsConsolidated_ok p v Hp Hok) as [_ Hcl].
    pose proof (reachable_moved_length p v0 v Hr) as Hml.
    cbn [v0 movedFunds initialVars] in Hml.
    rewrite length_replicate in Hml.
    split; [rewrite record_fundBalances, record_pots; reflexivity|].
    split.
    { rewrite record_fundBalances. apply imap_push_length. exact Hlen. }
    intros Hswitch. rewrite <- Hage in Hswitch. split.
    + intros i Hi. rewrite record_pots.
      apply potsAfter_swept; trivial.
    + intros Hsome.
      rewrite record_pots, record_movedFunds,
        (potsAfter_sweep p v Hswitch Hsome), Hml.
      cbn [fst snd]. split; [|split; [|reflexivity]].
      * apply sweep_first_pot. rewrite Hcl. cbn [p planFunds planOf]. lia.
      * intros i Hi. apply sweep_zero; [lia|].
        rewrite Hcl. cbn [p planFunds planOf]. lia.
Qed.

Lemma later_funds_empty_from_switch_age_witness :
  let p := planOf switchAtRetirementForm 3 in
  let v0 := initialVars switchAtRetirementForm (Fin 500000) 3 2 in
  nge (ageAt p 0) (planSwitchAge p) = true
  /\ numAt (pots (record p v0)) 1 = Fin 0
  /\ numAt (pots (record p v0)) 2 = Fin 0
  /\ movedFunds (record p v0) = [true; true]
  /\ Forall (fun series => length series = 1%nat) (fundBalances (record p v0))
  /\ fundBalances (record p v0) !! 1%nat = Some [Fin 0].
Proof.
  intros p v0.
  destruct (later_funds_empty_from_switch_age switchAtRetirementForm 500000)
    as [_ Hmonth].
  - vm_compute. reflexivity.
  - simpl. auto.
  - reflexivity.
  - reflexivity.
  - destruct (Hmonth v0 (reach_start _ _)) as (Hrec & Hlen & Hswitch).
    assert (nge (ageAt p 0) (planSwitchAge p) = true) as Hage
      by (vm_compute; reflexivity).
    destruct (Hswitch Hage) as [_ Hsweep].
    destruct Hsweep as (_ & Hzero & Hmoved); [vm_compute; reflexivity|].
    split; [exact Hage|].
    split; [apply Hzero; simpl; lia|].
    split; [apply Hzero; simpl; lia|].
    split; [exact Hmoved|]. split; [exact Hlen|].
    assert (fundBalances (record p v0)
            = imap (fun i series => series ++ [numAt (pots (record p v0)) i])
                [[]; []; []]) as -> by exact Hrec.
    cbn [imap app]. cbn [lookup list_lookup].
    change (Some ([] ++ [numAt (pots (record p v0)) 1]) = Some [Fin 0]).
    assert (numAt (pots (record p v0)) 1 = Fin 0) as ->
      by (apply Hzero; simpl; lia).
    reflexivity.
Defined.

(** ** The percentile series from year to year *)

Lemma dip_validated : validated dipForm.
Proof. vm_compute. reflexivity. Qed.

(** With every draw at 0.1 the return of each year is
    0.053 - 0.8 * 0.1464 < 0, and the second year ends below the
    first. *)
Lemma dip_run :
  exists acc a b,
    simulateAccumulation (fun _ => 1 # 10) 2 dipForm = Ok acc
    /\ p25 acc !! 0%nat = Some (Some a)
    /\ p25 acc !! 1%nat = Some (Some b)
    /\ nle a b = false.
Proof.
  eexists. eexists. eexists. split; [|split; [|split]];
    vm_compute; reflexivity.
Qed.

(** C7 as stated fails: for the accepted form [dipForm], two years from
    retirement, and every draw at 0.1, the second entry of [p25] is
    below the first. *)
Lemma percentile_series_can_dip :
  ~ (forall (rand : nat -> Q) (fuel : nat) (fd : formData)
            (acc : accumulation) (y : Q),
       validated fd ->
       (forall k, 0 <= rand k < 1) ->
       yearsOf fd = Fin y ->
       0 < y ->
       simulateAccumulation rand fuel fd = Ok acc ->
       nonDecreasing (p25 acc) /\ nonDecreasing (p50 acc)
       /\ nonDecreasing (p75 acc)).
Proof.
  intros H. destruct dip_run as (acc & a & b & Hrun & Ha & Hb & Hab).
  assert (forall k : nat, 0 <= 1 # 10 < 1) as Hu by (intros; lra).
  assert (0 < 2) as Hpos by lra.
  destruct (H (fun _ => 1 # 10) 2%nat dipForm acc 2 dip_validated Hu
              eq_refl Hpos Hrun) as [H25 _].
  specialize (H25 0%nat (Some a) (Some b) Ha Hb). simpl in H25.
  congruence.
Qed.

Lemma ordered_defined (x y : option number) :
  ordered x y -> defined x /\ defined y.
Proof.
  destruct x as [a|], y as [b|]; simpl; try contradiction.
  intros H. split; intros E; subst; [|destruct a]; discriminate.
Qed.

Lemma ordered_sortsAfter (x y : option number) :
  ordered x y -> sortsAfter nsub x y = false.
Proof.
  destruct x as [a|], y as [b|]; simpl; try contradiction.
  intros H. unfold nsub. numbers.
Qed.

(** An element no larger than the rest goes to the front. *)
Lemma insertSorted_head (x : option number) (l : list (option number)) :
  ascending (x :: l) -> insertSorted nsub x l = x :: l.
Proof.
  intros Hs. apply StronglySorted_inv in Hs as [_ Hx].
  destruct l as [|y l]; simpl; [reflexivity|].
  apply Forall_cons in Hx as [Hxy _].
  rewrite (ordered_sortsAfter x y Hxy). reflexivity.
Qed.

(** Sorting keeps one list below another, position by position. *)
Lemma insertSorted_dominates (s1 s2 : list (option number)) :
  Forall2 ordered s1 s2 ->
  ascending s1 -> ascending s2 ->
  forall x y, ordered x y ->
    Forall2 ordered (insertSorted nsub x s1) (insertSorted nsub y s2).
Proof.
  induction 1 as [|a b s1 s2 Hab H12 IH]; intros Hs1 Hs2 x y Hxy.
  - simpl. repeat constructor. exact Hxy.
  - pose proof (StronglySorted_inv Hs1) as [Hs1' _].
    pose proof (StronglySorted_inv Hs2) as [Hs2' _].
    destruct (ordered_defined x y Hxy) as [Hdx Hdy].
    destruct (ordered_defined a b Hab) as [Hda Hdb].
    simpl.
    destruct (sortsAfter nsub x a) eqn:Exa, (sortsAfter nsub y b) eqn:Eyb.
    + constructor; [exact Hab|]. apply IH; assumption.
    + apply sortsAfter_true in Exa; trivial.
      apply sortsAfter_false in Eyb; trivial.
      constructor; [exact (ordered_trans a x y Exa Hxy)|].
      rewrite <- (insertSorted_head b s2 Hs2).
      apply IH; trivial. exact (ordered_trans x y b Hxy Eyb).
    + apply sortsAfter_false in Exa; trivial.
      apply sortsAfter_true in Eyb; trivial.
      constructor; [exact (ordered_trans x a b Exa Hab)|].
      rewrite <- (insertSorted_head a s1 Hs1).
      apply IH; trivial. exact (ordered_trans a b y Hab Eyb).
    + constructor; [exact Hxy|]. constructor; assumption.
Qed.

Lemma Forall2_ordered_defined (l1 l2 : list (option number)) :
  Forall2 ordered l1 l2 -> Forall defined l1 /\ Forall defined l2.
Proof.
  induction 1 as [|x y l1 l2 Hxy _ [IH1 IH2]].
  - split; constructor.
  - destruct (ordered_defined x y Hxy). split; constructor; assumption.
Qed.

Lemma jsSort_dominates (l1 l2 : list (option number)) :
  Forall2 ordered l1 l2 ->
  Forall2 ordered (jsSort nsub l1) (jsSort nsub l2).
Proof.
  induction 1 as [|x y l1 l2 Hxy H12 IH]; simpl.
  - constructor.
  - destruct (Forall2_ordered_defined l1 l2 H12) as [Hd1 Hd2].
    apply insertSorted_dominates; trivial; apply jsSort_ascending; assumption.
Qed.

Lemma nadd_grows (a c : number) :
  nonneg a -> positive c -> nle a (nadd a c) = true.
Proof. intros Ha Hc. numbers. Qed.

Lemma nmul_grows (b : number) (f : Q) :
  nonneg b -> 1 <= f -> nle b (nmul b (Fin f)) = true.
Proof.
  intros Hb Hf. unfold nonneg in Hb.
  destruct b as [| |q|]; simpl in *; try discriminate.
  - qprop. nra.
  - unfold fin_sign. rewrite Qcompare_pos by lra. reflexivity.
Qed.

(** With a return that is not negative the pot does not shrink over the
    year. *)
Lemma yearPot_grows (rand : nat -> Q) (m s : Q) (cr pot salary : number)
  (calls : nat) :
  0 <= m + s * (rand calls * 2 - 1) ->
  positive cr -> nonneg pot -> positive salary ->
  nle pot (yearPot rand (Fin m) (Fin s) cr pot salary calls) = true.
Proof.
  intros Hr Hcr Hpot Hsal. unfold yearPot.
  assert (positive (nmul salary cr)) as Hc by (apply nmul_positive; trivial).
  apply (nle_trans _ (nadd pot (nmul salary cr))).
  - apply nadd_grows; assumption.
  - simpl. apply nmul_grows.
    + apply positive_nonneg, nadd_positive; assumption.
    + unfold Qminus in Hr. lra.
Qed.

Lemma balancesFrom_rise (rand : nat -> Q) (m s : Q) (cr infl : number) :
  (forall k, 0 <= rand k < 1) -> 0 <= s -> s < 1 + m ->
  (forall k, 0 <= m + s * (rand k * 2 - 1)) ->
  positive cr -> nonneg infl ->
  forall (n : nat) (pot salary : number) (calls : nat),
    nonneg pot -> positive salary ->
    forall (i : nat) (a b : number),
      balancesFrom rand (Fin m) (Fin s) cr infl n pot salary calls !! i
      = Some a ->
      balancesFrom rand (Fin m) (Fin s) cr infl n pot salary calls !! S i
      = Some b ->
      nle a b = true.
Proof.
  intros Hu Hs Hm Hr Hcr Hinfl.
  induction n as [|n IH]; intros pot salary calls Hpot Hsal i a b Ha Hb.
  - simpl in Ha. rewrite lookup_nil in Ha. discriminate.
  - simpl in Ha, Hb.
    assert (positive (yearPot rand (Fin m) (Fin s) cr pot salary calls))
      as Hy by (apply yearPot_positive; auto).
    assert (positive (nmul salary (nadd (Fin 1) infl))) as Hsal'.
    { apply nmul_positive; [exact Hsal|]. clear - Hinfl. numbers. }
    destruct i as [|i]; simpl in Ha, Hb.
    + injection Ha as <-. destruct n as [|n]; simpl in Hb.
      * discriminate.
      * injection Hb as <-.
        apply yearPot_grows; auto. apply positive_nonneg, Hy.
    + apply (IH _ _ _ (positive_nonneg _ Hy) Hsal' i a b Ha Hb).
Qed.

Lemma pathOf_rise (rand : nat -> Q) (fd : formData) (n j i : nat)
  (a b : number) :
  accepted fd -> (forall k, 0 <= rand k < 1) -> returnsNonneg rand fd ->
  pathOf rand fd n j !! i = Some a ->
  pathOf rand fd n j !! S i = Some b ->
  nle a b = true.
Proof.
  intros Hacc Hu Hr. unfold pathOf.
  destruct (fundData_spread (fundSelection fd)) as [Hs Hm].
  destruct (acc_contribution fd Hacc) as (c & -> & Hc).
  destruct (acc_inflation fd Hacc) as (q & -> & Hq).
  apply balancesFrom_rise; trivial.
  - unfold positive. simpl. qprop. apply Qlt_shift_div_l; lra.
  - unfold nonneg. simpl. qprop. apply Qle_shift_div_l; lra.
  - apply (acc_currentPot fd Hacc).
  - apply (acc_salary fd Hacc).
Qed.

(** The values of one year are below those of the next, path by path. *)
Lemma yearValues_rise (rand : nat -> Q) (fd : formData) (n i : nat) :
  accepted fd -> (forall k, 0 <= rand k < 1) -> returnsNonneg rand fd ->
  (S i < n)%nat ->
  let results := map (pathOf rand fd n) (seq 0 simulations) in
  Forall2 ordered (map (fun run => run !! i) results)
    (map (fun run => run !! S i) results).
Proof.
  intros Hacc Hu Hr Hi results.
  apply Forall2_fmap, Forall_Forall2_diag, Forall_map, Forall_forall.
  intros j _. simpl.
  assert (length (pathOf rand fd n j) = n) as Hlen by apply pathOf_length.
  destruct (lookup_lt_is_Some_2 (pathOf rand fd n j) i) as [a Ha]; [lia|].
  destruct (lookup_lt_is_Some_2 (pathOf rand fd n j) (S i)) as [b Hb];
    [lia|].
  rewrite Ha, Hb. simpl. exact (pathOf_rise rand fd n j i a b Hacc Hu Hr Ha Hb).
Qed.

(** C7, as the code has it.  For a form [validateInputs] accepts, draws
    in [0, 1) that make every drawn return [meanReturn + volatility * U]
    at least zero, and a finite number of years [y] below 2^32,
    [simulateAccumulation] returns, and in each of [p25], [p50] and
    [p75] every entry is a number no larger than the next one. *)
Theorem percentiles_rise_when_returns_are_not_negative
  (rand : nat -> Q) (fd : formData) (y : Q) :
  validated fd ->
  (forall k, 0 <= rand k < 1) ->
  returnsNonneg rand fd ->
  yearsOf fd = Fin y ->
  y < inject_Z (2 ^ 32) ->
  exists acc,
    (forall fuel, (Z.to_nat (Qceiling y) <= fuel)%nat ->
       simulateAccumulation rand fuel fd = Ok acc)
    /\ length (p50 acc) = Z.to_nat (Qfloor y)
    /\ nonDecreasing (p25 acc)
    /\ nonDecreasing (p50 acc)
    /\ nonDecreasing (p75 acc).
Proof.
  intros Hv Hu Hr Hy Hlt.
  pose proof (validated_accepted fd Hv) as Hacc.
  set (n := Z.to_nat (Qceiling y)).
  set (len := Z.to_nat (Qfloor y)).
  set (results := map (pathOf rand fd n) (seq 0 simulations)).
  destruct (paths_positive rand fd n Hacc Hu) as [Hlen Hres].
  fold results in Hlen, Hres.
  destruct (percentilesOf_length results len) as (L25 & L50 & L75).
  assert (forall i, (S i < len)%nat ->
            Forall2 ordered (yearRow results i) (yearRow results (S i)))
    as Hrows.
  { intros i Hi. apply jsSort_dominates.
    apply (yearValues_rise rand fd n i Hacc Hu Hr).
    pose proof (floor_le_ceiling y). unfold n. lia. }
  assert (forall i, (S i < len)%nat ->
            exists a b c a' b' c',
              p25 (percentilesOf results len) !! i = Some (Some a)
              /\ p25 (percentilesOf results len) !! S i = Some (Some a')
              /\ p50 (percentilesOf results len) !! i = Some (Some b)
              /\ p50 (percentilesOf results len) !! S i = Some (Some b')
              /\ p75 (percentilesOf results len) !! i = Some (Some c)
              /\ p75 (percentilesOf results len) !! S i = Some (Some c')
              /\ nle a a' = true /\ nle b b' = true /\ nle c c' = true)
    as Hpair.
  { intros i Hi.
    destruct (year_percentiles results n len i Hlen Hres
                (floor_le_ceiling y)) as
      (a & b & c & _ & _ & _ & _ & Ha & Hb & Hc & G25 & G50 & G75 & _);
      [lia|].
    destruct (year_percentiles results n len (S i) Hlen Hres
                (floor_le_ceiling y) Hi) as
      (a' & b' & c' & _ & _ & _ & _ & Ha' & Hb' & Hc' & G25' & G50' & G75'
       & _).
    exists a, b, c, a', b', c'.
    pose proof (Forall2_lookup_lr _ _ _ _ _ _ (Hrows i Hi) Ha Ha') as Haa.
    pose proof (Forall2_lookup_lr _ _ _ _ _ _ (Hrows i Hi) Hb Hb') as Hbb.
    pose proof (Forall2_lookup_lr _ _ _ _ _ _ (Hrows i Hi) Hc Hc') as Hcc.
    simpl in Haa, Hbb, Hcc. repeat split; assumption. }
  exists (percentilesOf results len).
  split; [|split; [exact L50|]].
  - intros fuel Hfuel. apply simulateAccumulation_ends; assumption.
  - repeat split; intros i x x' Hx Hx';
      (assert (S i < len)%nat as Hi
         by (apply lookup_lt_Some in Hx'; lia));
      destruct (Hpair i Hi)
        as (a & b & c & a' & b' & c' & E1 & E1' & E2 & E2' & E3 & E3'
            & Haa & Hbb & Hcc);
      rewrite ?E1, ?E2, ?E3 in Hx; rewrite ?E1', ?E2', ?E3' in Hx';
      injection Hx as <-; injection Hx' as <-; assumption.
Qed.

Lemma percentiles_rise_when_returns_are_not_negative_witness :
  exists acc,
    simulateAccumulation (fun _ => 3 # 4) 35 sampleForm = Ok acc
    /\ length (p50 acc) = 35%nat
    /\ nonDecreasing (p50 acc).
Proof.
  destruct (percentiles_rise_when_returns_are_not_negative
              (fun _ => 3 # 4) sampleForm (65 + - 30))
    as (acc & Hrun & Hlen & _ & H50 & _).
  - vm_compute. reflexivity.
  - intros k. lra.
  - intros k. simpl. lra.
  - reflexivity.
  - reflexivity.
  - exists acc. split; [apply Hrun; vm_compute; lia|].
    split; [exact Hlen | exact H50].
Defined.

(** ** Where the monthly loop stops *)

Lemma reachable_invariant (p : plan) (v0 : vars) (I : vars -> Prop) :
  I v0 ->
  (forall v, reachable p v0 v -> I v -> running p v = true ->
             snd (month p v) = false -> I (fst (month p v))) ->
  forall v, reachable p v0 v -> I v.
Proof.
  intros H0 Hstep v Hr. induction Hr as [|v Hr IH Hrun Hstay]; auto.
Qed.

(** A run on a usable starting pot: the value returned is the result of
    the state in which the loop stopped, and this state is either one at
    the head of the loop whose test failed, or the one a month left with
    [break]. *)
Lemma simulateDecumulation_final (fd : formData) (startingPot : option number) :
  In (numFunds fd) numFundsOptions ->
  unusable startingPot = false ->
  exists (n : nat) (v' : vars),
    (1 <= n <= 5)%nat
    /\ parseInt (numFunds fd) = ofNat n
    /\ (forall fuel,
          (wholeBelow (planMaxMonths (planOf fd n)) <= fuel)%nat ->
          simulateDecumulation fuel fd startingPot = Ok (resultOf v'))
    /\ ((reachable (planOf fd n)
           (initialVars fd (default NaN startingPot) n (n - 1)) v'
         /\ running (planOf fd n) v' = false)
        \/ exists u,
             reachable (planOf fd n)
               (initialVars fd (default NaN startingPot) n (n - 1)) u
             /\ running (planOf fd n) u = true
             /\ month (planOf fd n) u = (v', true)).
Proof.
  intros Hsel Huse.
  destruct (numFunds_option fd Hsel) as (n & Hn & Hpn & Hc1 & Hc2).
  set (p := planOf fd n).
  set (v0 := initialVars fd (default NaN startingPot) n (n - 1)).
  destruct (monthLoop_ends p (planOf_maxMonths fd _)
              (wholeBelow (planMaxMonths p)) v0)
    as (v' & k & Hloop & _ & _ & _).
  { simpl. lia. }
  { simpl. lia. }
  { apply initial_recorded. }
  exists n, v'. split; [exact Hn|]. split; [exact Hpn|]. split.
  - intros fuel Hfuel. unfold simulateDecumulation.
    rewrite Huse, Hc1, Hc2.
    cbn [mbind outcome_bind]. fold p. fold v0.
    rewrite (Hloop fuel Hfuel). reflexivity.
  - exact (monthLoop_final p v0 _ v0 v' (reach_start p v0)
             (Hloop _ (Nat.le_refl _))).
Qed.

(** The state a month leaves with [break]. *)
Lemma month_broke (p : plan) (u v' : vars) :
  month p u = (v', true) ->
  nlt (sum (pots (record p u))) (Fin 1) = true
  /\ ((ngt (currentYearWithdrawals (record p u)) (Fin 0) = true
       /\ v' = flushYear (record p u))
      \/ (ngt (currentYearWithdrawals (record p u)) (Fin 0) = false
          /\ v' = record p u)).
Proof.
  unfold month. intros Hm.
  destruct (nlt (sum (pots (record p u))) (Fin 1)); [|discriminate].
  split; [reflexivity|].
  destruct (ngt (currentYearWithdrawals (record p u)) (Fin 0));
    injection Hm as <-; auto.
Qed.

(** ** The lengths of the series *)

Lemma succ_div_12 (m : nat) :
  (S m / 12 = if Nat.eqb (m mod 12) 11 then S (m / 12) else m / 12)%nat.
Proof.
  pose proof (Nat.div_mod_eq m 12) as Hm.
  pose proof (Nat.mod_upper_bound m 12) as Hr.
  destruct (Nat.eqb (m mod 12) 11) eqn:E.
  - apply Nat.eqb_eq in E. symmetry.
    apply (Nat.div_unique _ _ _ 0); lia.
  - apply Nat.eqb_neq in E. symmetry.
    apply (Nat.div_unique _ _ _ (S (m mod 12))); lia.
Qed.

Lemma succ_mod_12 (m : nat) :
  (S m mod 12 = 0)%nat <-> (m mod 12 = 11)%nat.
Proof.
  pose proof (Nat.div_mod_eq m 12) as Hm.
  pose proof (Nat.mod_upper_bound m 12) as Hr.
  pose proof (Nat.div_mod_eq (S m) 12) as Hm'.
  pose proof (Nat.mod_upper_bound (S m) 12) as Hr'.
  pose proof (succ_div_12 m) as Hd.
  destruct (Nat.eqb (m mod 12) 11) eqn:E.
  - apply Nat.eqb_eq in E. lia.
  - apply Nat.eqb_neq in E. lia.
Qed.

(** What [record] leaves in each variable of the year-end bookkeeping. *)
Lemma record_annualWithdrawals (p : plan) (v : vars) :
  annualWithdrawals (record p v)
  = if yearEnd v
    then annualWithdrawals v
         ++ [nadd (currentYearWithdrawals v) (withdrawalOf p v)]
    else annualWithdrawals v.
Proof. unfold record. destruct (potsAfter p v). reflexivity. Qed.

Lemma record_currentYearWithdrawals (p : plan) (v : vars) :
  currentYearWithdrawals (record p v)
  = if yearEnd v then Fin 0
    else nadd (currentYearWithdrawals v) (withdrawalOf p v).
Proof. unfold record. destruct (potsAfter p v). reflexivity. Qed.

Lemma record_pensionAnnualValues (p : plan) (v : vars) :
  statePensionAnnualValues (record p v)
  = if yearEnd v
    then statePensionAnnualValues v ++ [currentStatePensionAnnual v]
    else statePensionAnnualValues v.
Proof. unfold record. destruct (potsAfter p v). reflexivity. Qed.

Lemma record_aligned (p : plan) (v : vars) (n : nat) :
  aligned n v ->
  recorded (S (months v)) (record p v)
  /\ length (fundBalances (record p v)) = n
  /\ length (statePensionAnnualValues (record p v)) = (S (months v) / 12)%nat
  /\ length (annualWithdrawals (record p v)) = (S (months v) / 12)%nat.
Proof.
  intros [Hm Hf Hp Ha]. split; [|split; [|split]].
  - apply record_recorded. exact Hm.
  - rewrite record_fundBalances, length_imap. exact Hf.
  - rewrite succ_div_12, record_pensionAnnualValues. unfold yearEnd.
    destruct (Nat.eqb (months v mod 12) 11); [|exact Hp].
    rewrite length_app, Hp. simpl. lia.
  - rewrite succ_div_12, record_annualWithdrawals. unfold yearEnd.
    destruct (Nat.eqb (months v mod 12) 11); [|exact Ha].
    rewrite length_app, Ha. simpl. lia.
Qed.

Lemma month_aligned (p : plan) (v : vars) (n : nat) :
  aligned n v -> snd (month p v) = false -> aligned n (fst (month p v)).
Proof.
  intros Hal Hstay. destruct (record_aligned p v n Hal) as (Hm & Hf & Hp & Ha).
  unfold month in *. destruct (nlt (sum (pots (record p v))) (Fin 1)).
  - discriminate.
  - split; cbn [fst nextMonth months fundBalances statePensionAnnualValues
                 annualWithdrawals]; rewrite ?record_months; assumption.
Qed.

Lemma initial_aligned (fd : formData) (sp : number) (n moved : nat) :
  aligned n (initialVars fd sp n moved).
Proof.
  split; simpl; trivial.
  - apply initial_recorded.
  - apply length_replicate.
Qed.

(** The state in which the loop stops is aligned on the number of months
    it recorded. *)
Lemma final_aligned (p : plan) (v0 v' : vars) (n : nat) :
  aligned n v0 ->
  (reachable p v0 v' /\ running p v' = false)
  \/ (exists u, reachable p v0 u /\ running p u = true
                /\ month p u = (v', true)) ->
  length (fundBalances v') = n
  /\ Forall (fun series => length series = length (withdrawals v'))
       (fundBalances v')
  /\ length (statePensionMonthlyValues v') = length (withdrawals v')
  /\ length (statePensionAnnualValues v')
     = (length (withdrawals v') / 12)%nat
  /\ (length (annualWithdrawals v') = (length (withdrawals v') / 12)%nat
      \/ ((length (withdrawals v') mod 12)%nat <> 0%nat
          /\ length (annualWithdrawals v')
             = S (length (withdrawals v') / 12))).
Proof.
  intros H0 Hfinal.
  assert (forall v, reachable p v0 v -> aligned n v) as Hinv.
  { apply reachable_invariant.
    - exact H0.
    - intros v _ Hal _ Hstay. apply month_aligned; assumption. }
  destruct Hfinal as [[Hr _]|(u & Hr & _ & Hm)].
  - destruct (Hinv v' Hr) as [(Hw & Hs & Hf) Hfn Hp Ha].
    rewrite Hw. auto 10.
  - destruct (record_aligned p u n (Hinv u Hr))
      as ((Hw & Hs & Hf) & Hfn & Hp & Ha).
    apply month_broke in Hm as [_ Hm].
    assert (currentYearWithdrawals (record p u) = Fin 0
            \/ (S (months u) mod 12)%nat <> 0%nat) as Hcyw.
    { destruct (Nat.eqb (months u mod 12) 11) eqn:E.
      - left. rewrite record_currentYearWithdrawals. unfold yearEnd.
        rewrite E. reflexivity.
      - right. rewrite succ_mod_12. apply Nat.eqb_neq. exact E. }
    destruct Hm as [[Eg ->]|[Eg ->]];
      cbn [flushYear fundBalances withdrawals annualWithdrawals
           statePensionMonthlyValues statePensionAnnualValues];
      rewrite Hw.
    + split; [exact Hfn|]. split; [exact Hf|]. split; [exact Hs|].
      split; [exact Hp|].
      destruct Hcyw as [Hz|Hne].
      * rewrite Hz in Eg. discriminate.
      * right. split; [exact Hne|]. rewrite length_app, Ha. simpl. lia.
    + auto 10.
Qed.

(** X1.  For a usable starting pot and a number of funds [n] chosen in
    the select, [simulateDecumulation] returns (once it is allowed the
    months its test admits) a result whose series are aligned: there are
    [n] fund series; every fund series and the monthly state pension
    series have as many entries as [withdrawals]; the annual state
    pension series has one entry per completed twelve months; and
    [annualWithdrawals] has the same number of entries, or one more (the
    unfinished year pushed before the [break]) when the number of months
    is not a multiple of 12. *)
Theorem series_are_aligned (fd : formData) (startingPot : option number) :
  In (numFunds fd) numFundsOptions ->
  unusable startingPot = false ->
  exists (res : decumulation) (n : nat),
    parseInt (numFunds fd) = ofNat n
    /\ (forall fuel,
          (wholeBelow (planMaxMonths (planOf fd n)) <= fuel)%nat ->
          simulateDecumulation fuel fd startingPot = Ok res)
    /\ length (fundSeries res) = n
    /\ Forall (fun series => length series = length (withdrawalSeries res))
         (fundSeries res)
    /\ length (statePensionMonthlySeries res) = length (withdrawalSeries res)
    /\ length (statePensionAnnualSeries res)
       = (length (withdrawalSeries res) / 12)%nat
    /\ (length (annualWithdrawalSeries res)
        = (length (withdrawalSeries res) / 12)%nat
        \/ ((length (withdrawalSeries res) mod 12)%nat <> 0%nat
            /\ length (annualWithdrawalSeries res)
               = S (length (withdrawalSeries res) / 12))).
Proof.
  intros Hsel Huse.
  destruct (simulateDecumulation_final fd startingPot Hsel Huse)
    as (n & v' & Hn & Hpn & Hrun & Hfinal).
  exists (resultOf v'), n. split; [exact Hpn|]. split; [exact Hrun|].
  cbn [resultOf fundSeries withdrawalSeries annualWithdrawalSeries
       statePensionMonthlySeries statePensionAnnualSeries].
  apply (final_aligned (planOf fd n)
           (initialVars fd (default NaN startingPot) n (n - 1)) v' n);
    [apply initial_aligned|exact Hfinal].
Qed.

Lemma series_are_aligned_witness :
  exists (res : decumulation) (n : nat),
    parseInt (numFunds sampleForm) = ofNat n
    /\ length (fundSeries res) = n
    /\ length (statePensionMonthlySeries res)
       = length (withdrawalSeries res).
Proof.
  destruct (series_are_aligned sampleForm (Some (Fin 500000)))
    as (res & n & Hn & _ & Hfunds & _ & Hpension & _).
  - simpl. auto.
  - reflexivity.
  - exists res, n. auto.
Defined.

(** ** No amount below zero *)

Ltac signs :=
  unfold notNegative, nonneg, positive, ngt, nge, Math_min, Math_max,
    isPositive in *;
  repeat match goal with
  | x : number |- _ => destruct x
  end;
  simpl in *; try discriminate; try contradiction; try reflexivity;
  repeat match goal with
  | |- context [Qleb ?a ?b] => destruct (Qleb a b) eqn:?; simpl
  end;
  qprop; try lra.

Lemma notNegative_nadd (a b : number) :
  notNegative a -> notNegative b -> notNegative (nadd a b).
Proof. intros Ha Hb. signs. Qed.

Lemma notNegative_fold (l : list number) :
  Forall notNegative l ->
  forall a, notNegative a -> notNegative (fold_left nadd l a).
Proof.
  induction 1 as [|x l Hx _ IH]; intros a Ha; simpl; [exact Ha|].
  apply IH, notNegative_nadd; assumption.
Qed.

Lemma notNegative_sum (l : list number) :
  Forall notNegative l -> notNegative (sum l).
Proof. intros Hl. apply notNegative_fold; [exact Hl|reflexivity]. Qed.

Lemma notNegative_numAt (l : list number) (i : nat) :
  Forall notNegative l -> notNegative (numAt l i).
Proof.
  intros Hl. unfold numAt. destruct (l !! i) as [x|] eqn:E; [|reflexivity].
  rewrite Forall_lookup in Hl. exact (Hl i x E).
Qed.

Lemma notNegative_max (y : number) : notNegative (Math_max (Fin 0) y).
Proof. signs. Qed.

(** What is left of a pot after a withdrawal that is capped at the
    pot. *)
Lemma notNegative_left (a x : number) :
  notNegative a -> notNegative x -> notNegative (nsub x (Math_min a x)).
Proof. intros Ha Hx. unfold nsub. signs. Qed.

Lemma notNegative_min (a x : number) :
  notNegative a -> notNegative x -> notNegative (Math_min a x).
Proof. intros Ha Hx. signs. Qed.

Lemma notNegative_times (a : number) (r : Q) :
  notNegative a -> 0 <= r -> notNegative (nmul a (Fin r)).
Proof.
  intros Ha Hr. unfold notNegative in *.
  destruct a as [| |q|]; simpl in *; try discriminate; trivial.
  - qprop. apply Qmult_le_0_compat; assumption.
  - unfold fin_sign. destruct (r ?= 0)%Q eqn:E; trivial.
    apply Qlt_alt in E. lra.
Qed.

Lemma notNegative_share (t : number) (k : nat) :
  notNegative t -> (1 <= k)%nat -> notNegative (ndiv t (ofNat k)).
Proof.
  intros Ht Hk. unfold notNegative, ofNat, ofZ in *.
  assert (0 < inject_Z (Z.of_nat k)) as Hpos.
  { apply (inject_Z_lt 0). lia. }
  destruct t as [| |q|]; simpl in *; try discriminate; trivial.
  - destruct (Qeq_bool (inject_Z (Z.of_nat k)) 0) eqn:E; qprop; [lra|].
    simpl. qprop. apply Qle_shift_div_l; lra.
  - assert (Qltb (inject_Z (Z.of_nat k)) 0 = false) as -> by (qprop; lra).
    reflexivity.
Qed.

Lemma applyReturns_notNegative (returns ps : list number) :
  Forall notNegative (applyReturns returns ps).
Proof.
  apply Forall_imap_lookup. intros i x _. apply notNegative_max.
Qed.

Lemma rebalance_notNegative (ps : list number) :
  Forall notNegative ps -> Forall notNegative (rebalance ps).
Proof.
  intros Hps. unfold rebalance.
  destruct (Nat.ltb 1 (length (List.filter isPositive ps))) eqn:E;
    [|exact Hps].
  apply Nat.ltb_lt in E.
  apply Forall_map, Forall_forall. intros x _. cbv beta.
  destruct (isPositive x); [|reflexivity].
  apply notNegative_share; [apply notNegative_sum, Hps|lia].
Qed.

Lemma consolidate_notNegative (todo from : nat) (w : number)
  (ps : list number) (moved : list bool) :
  Forall notNegative ps ->
  Forall notNegative (fst (consolidate todo from w ps moved)).
Proof.
  intros Hps. revert from. induction todo as [|todo IH]; intros from; simpl.
  - exact Hps.
  - destruct (_ && _ && _)%bool; [|apply IH].
    simpl. apply Forall_insert; [apply Forall_insert|]; trivial.
    + apply notNegative_nadd; apply notNegative_numAt, Hps.
    + reflexivity.
Qed.

Lemma sweep_notNegative (ps : list number) :
  Forall notNegative ps -> Forall notNegative (sweep ps).
Proof.
  intros Hps. unfold sweep. apply Forall_imap_lookup.
  intros [|i] x Hx; [|reflexivity].
  assert (Forall notNegative
            (<[0%nat := nadd (numAt ps 0) (sum (drop 1 ps))]> ps)) as Hins.
  { apply Forall_insert; [exact Hps|].
    apply notNegative_nadd; [apply notNegative_numAt, Hps|].
    apply notNegative_sum, Forall_drop, Hps. }
  rewrite Forall_lookup in Hins. exact (Hins 0%nat x Hx).
Qed.

Lemma policyAmount_notNegative (p : plan) (v : vars) :
  finNonneg (planDrawdownRate p) -> unsigned v ->
  notNegative (policyAmount p v).
Proof.
  intros Hrate Hv. unfold policyAmount.
  destruct (String.eqb (planDrawdownType p) "percentage").
  - apply finNonneg_inv in Hrate as (r & -> & Hr).
    apply notNegative_times; [|exact Hr].
    apply notNegative_sum, (un_pots v Hv).
  - apply (un_fixed v Hv).
Qed.

Lemma withdrawalOf_notNegative (p : plan) (v : vars) :
  finNonneg (planDrawdownRate p) -> unsigned v ->
  notNegative (withdrawalOf p v).
Proof.
  intros Hrate Hv. apply notNegative_min.
  - apply policyAmount_notNegative; assumption.
  - apply notNegative_numAt, (un_pots v Hv).
Qed.

Lemma potsAfter_notNegative (p : plan) (v : vars) :
  Forall notNegative (fst (potsAfter p v)).
Proof.
  unfold potsAfter.
  assert (Forall notNegative (fst (potsConsolidated p v))) as Hc.
  { unfold potsConsolidated. apply consolidate_notNegative.
    destruct (yearEnd v); [apply rebalance_notNegative|];
      apply applyReturns_notNegative. }
  destruct (potsConsolidated p v) as [ps moved]. cbn [fst] in Hc.
  destruct (_ && _)%bool; cbn [fst]; [apply sweep_notNegative|]; exact Hc.
Qed.

Lemma record_unsigned (p : plan) (v : vars) :
  finNonneg (planDrawdownRate p) -> finNonneg (planInflationRate p) ->
  unsigned v -> unsigned (record p v).
Proof.
  intros Hrate Hinfl Hv.
  pose proof (withdrawalOf_notNegative p v Hrate Hv) as Hw.
  pose proof (potsAfter_notNegative p v) as Hps.
  assert (notNegative (nadd (currentYearWithdrawals v) (withdrawalOf p v)))
    as Hcyw.
  { apply notNegative_nadd; [apply (un_year v Hv)|exact Hw]. }
  split.
  - rewrite record_pots. exact Hps.
  - unfold record. destruct (potsAfter p v). cbn [currentDrawdownFixed].
    destruct (_ && _)%bool; [|apply (un_fixed v Hv)].
    apply finNonneg_inv in Hinfl as (i & -> & Hi).
    apply notNegative_times; [apply (un_fixed v Hv)|lra].
  - rewrite record_withdrawals. apply Forall_app. split;
      [apply (un_withdrawals v Hv)|apply Forall_singleton, Hw].
  - rewrite record_fundBalances. apply Forall_imap_lookup.
    intros i series Hi. apply Forall_app. split.
    + pose proof (un_balances v Hv) as Hb. rewrite Forall_lookup in Hb.
      exact (Hb i series Hi).
    + apply Forall_singleton, notNegative_numAt, Hps.
  - unfold record. destruct (potsAfter p v). cbn [annualWithdrawals].
    destruct (yearEnd v); [|apply (un_annual v Hv)].
    apply Forall_app. split;
      [apply (un_annual v Hv)|apply Forall_singleton, Hcyw].
  - unfold record. destruct (potsAfter p v). cbn [currentYearWithdrawals].
    destruct (yearEnd v); [reflexivity|exact Hcyw].
Qed.

Lemma month_unsigned (p : plan) (v : vars) :
  finNonneg (planDrawdownRate p) -> finNonneg (planInflationRate p) ->
  unsigned v -> unsigned (fst (month p v)).
Proof.
  intros Hrate Hinfl Hv.
  destruct (record_unsigned p v Hrate Hinfl Hv) as [H1 H2 H3 H4 H5 H6].
  unfold month. destruct (nlt _ _); [destruct (ngt _ _)|]; cbn [fst].
  - split; cbn [flushYear pots currentDrawdownFixed withdrawals fundBalances
                annualWithdrawals currentYearWithdrawals]; trivial.
    apply Forall_app. split; [exact H5|apply Forall_singleton, H6].
  - split; assumption.
  - split; cbn [nextMonth pots currentDrawdownFixed withdrawals fundBalances
                annualWithdrawals currentYearWithdrawals]; assumption.
Qed.

Lemma positive_notNegative (x : number) : positive x -> notNegative x.
Proof. intros Hx. signs. Qed.

(** A usable starting pot is a positive number or Infinity. *)
Lemma usable_notNegative (x : number) :
  unusable (Some x) = false -> positive x.
Proof.
  unfold positive. destruct x as [| |q|]; simpl; try discriminate; trivial.
  intros H. apply orb_false_iff in H as [_ H]. qprop. exact H.
Qed.

Lemma initial_unsigned (fd : formData) (sp : number) (n moved : nat) :
  accepted fd -> positive sp -> (1 <= n)%nat ->
  parseInt (numFunds fd) = ofNat n ->
  unsigned (initialVars fd sp n moved).
Proof.
  intros Hacc Hsp Hn Hpn. split; cbn [initialVars pots currentDrawdownFixed
    withdrawals fundBalances annualWithdrawals currentYearWithdrawals].
  - apply Forall_replicate. rewrite Hpn. apply notNegative_share; [|exact Hn].
    apply positive_notNegative, Hsp.
  - destruct (String.eqb (drawdownType fd) "fixed") eqn:E1.
    + apply String.eqb_eq in E1.
      apply positive_notNegative, (acc_fixed fd Hacc E1).
    + destruct (String.eqb (drawdownType fd) "initialPot") eqn:E2;
        [|reflexivity].
      apply String.eqb_eq in E2.
      destruct (acc_initialPot fd Hacc E2) as (d & -> & Hd).
      change (Fin 12) with (ofNat 12). apply notNegative_share; [|lia].
      change (Fin 100) with (ofNat 100). apply notNegative_share; [|lia].
      apply notNegative_times; [|lra]. apply positive_notNegative, Hsp.
  - constructor.
  - apply Forall_replicate. constructor.
  - constructor.
  - reflexivity.
Qed.

(** X2.  No amount below zero is ever written down.  For a form
    [validateInputs] accepts, a number of funds chosen in the select and
    any usable starting pot (Infinity included), every value
    [simulateDecumulation] returns in [withdrawals], in
    [annualWithdrawals] and in the series of each fund satisfies
    [!(x < 0)]: the pots come out of [Math.max(0, ...)], of a share of
    their total or of a sum of pots, and the withdrawal is capped at the
    first pot. *)
Theorem recorded_amounts_are_never_negative
  (fd : formData) (startingPot : number) :
  validated fd ->
  In (numFunds fd) numFundsOptions ->
  unusable (Some startingPot) = false ->
  exists (res : decumulation) (n : nat),
    parseInt (numFunds fd) = ofNat n
    /\ (forall fuel,
          (wholeBelow (planMaxMonths (planOf fd n)) <= fuel)%nat ->
          simulateDecumulation fuel fd (Some startingPot) = Ok res)
    /\ Forall notNegative (withdrawalSeries res)
    /\ Forall notNegative (annualWithdrawalSeries res)
    /\ Forall (Forall notNegative) (fundSeries res).
Proof.
  intros Hv Hsel Huse.
  pose proof (validated_accepted fd Hv) as Hacc.
  destruct (simulateDecumulation_final fd (Some startingPot) Hsel Huse)
    as (n & v' & Hn & Hpn & Hrun & Hfinal).
  exists (resultOf v'), n. split; [exact Hpn|]. split; [exact Hrun|].
  cbn [default] in Hfinal. unfold id in Hfinal.
  set (p := planOf fd n) in *.
  set (v0 := initialVars fd startingPot n (n - 1)) in *.
  assert (finNonneg (planDrawdownRate p)) as Hrate.
  { cbn [p planDrawdownRate planOf].
    destruct (String.eqb (drawdownType fd) "percentage") eqn:E;
      [|simpl; lra].
    apply String.eqb_eq in E.
    destruct (acc_percentage fd Hacc E) as (d & -> & Hd). simpl.
    repeat (apply Qle_shift_div_l; [lra|]). lra. }
  assert (finNonneg (planInflationRate p)) as Hinfl.
  { cbn [p planInflationRate planOf].
    destruct (acc_inflation fd Hacc) as (i & -> & Hi). simpl.
    apply Qle_shift_div_l; lra. }
  assert (forall v, reachable p v0 v -> unsigned v) as Hinv.
  { apply reachable_invariant.
    - apply initial_unsigned; trivial; [|lia].
      apply usable_notNegative, Huse.
    - intros v _ Hu _ _. apply month_unsigned; assumption. }
  assert (unsigned v') as [_ _ Hw Hb Ha _].
  { destruct Hfinal as [[Hr _]|(u & Hr & _ & Hm)].
    - apply Hinv, Hr.
    - replace v' with (fst (month p u)) by (rewrite Hm; reflexivity).
      apply month_unsigned; trivial. apply Hinv, Hr. }
  cbn [resultOf withdrawalSeries annualWithdrawalSeries fundSeries]. auto.
Qed.

Lemma recorded_amounts_are_never_negative_witness :
  exists (res : decumulation) (n : nat),
    parseInt (numFunds sampleForm) = ofNat n
    /\ Forall notNegative (withdrawalSeries res)
    /\ Forall (Forall notNegative) (fundSeries res).
Proof.
  destruct (recorded_amounts_are_never_negative sampleForm PosInf)
    as (res & n & Hn & _ & Hw & _ & Hf).
  - vm_compute. reflexivity.
  - simpl. auto.
  - reflexivity.
  - exists res, n. auto.
Defined.

(** ** The withdrawal of a month *)

Lemma planOf_rates (fd : formData) (n : nat) :
  accepted fd ->
  finNonneg (planDrawdownRate (planOf fd n))
  /\ finNonneg (planInflationRate (planOf fd n)).
Proof.
  intros Hacc. split.
  - cbn [planDrawdownRate planOf].
    destruct (String.eqb (drawdownType fd) "percentage") eqn:E;
      [|simpl; lra].
    apply String.eqb_eq in E.
    destruct (acc_percentage fd Hacc E) as (d & -> & Hd). simpl.
    repeat (apply Qle_shift_div_l; [lra|]). lra.
  - cbn [planInflationRate planOf].
    destruct (acc_inflation fd Hacc) as (i & -> & Hi). simpl.
    apply Qle_shift_div_l; lra.
Qed.

(** In every state the loop of an accepted form reaches, nothing is
    below zero. *)
Lemma reachable_unsigned (fd : formData) (startingPot : number) (n : nat)
  (v : vars) :
  accepted fd -> (1 <= n)%nat -> parseInt (numFunds fd) = ofNat n ->
  unusable (Some startingPot) = false ->
  reachable (planOf fd n) (initialVars fd startingPot n (n - 1)) v ->
  unsigned v.
Proof.
  intros Hacc Hn Hpn Huse. destruct (planOf_rates fd n Hacc) as [Hrate Hinfl].
  apply reachable_invariant.
  - apply initial_unsigned; trivial. apply usable_notNegative, Huse.
  - intros u _ Hu _ _. apply month_unsigned; assumption.
Qed.

(** A total above zero has no NaN among its amounts. *)
Lemma fold_positive_nonneg (l : list number) :
  Forall notNegative l ->
  forall a, notNegative a ->
    ngt (fold_left nadd l a) (Fin 0) = true ->
    Forall nonneg l /\ nonneg a.
Proof.
  induction 1 as [|x l Hx _ IH]; intros a Ha Hpos; simpl in Hpos.
  - split; [constructor|]. signs.
  - destruct (IH (nadd a x) (notNegative_nadd a x Ha Hx) Hpos) as [Hl Hax].
    assert (nonneg a /\ nonneg x) as [Hna Hnx] by (split; signs).
    split; [constructor|]; assumption.
Qed.

Lemma running_nonneg (p : plan) (v : vars) :
  Forall notNegative (pots v) -> running p v = true ->
  Forall nonneg (pots v).
Proof.
  intros Hps Hrun. unfold running in Hrun.
  apply andb_true_iff in Hrun as [Hsum _].
  apply (fold_positive_nonneg _ Hps (Fin 0)); [reflexivity|exact Hsum].
Qed.

(** Adding the same amounts to a start that is not above another gives
    a total that is not above the other; NaN is above nothing. *)
Lemma nadd_not_above (a b x : number) :
  ngt a b = false -> notNegative a -> notNegative b -> notNegative x ->
  ngt (nadd a x) (nadd b x) = false.
Proof. intros Hab Ha Hb Hx. signs. Qed.

Lemma fold_nadd_not_above (l : list number) :
  Forall notNegative l ->
  forall a b, ngt a b = false -> notNegative a -> notNegative b ->
    ngt (fold_left nadd l a) (fold_left nadd l b) = false.
Proof.
  induction 1 as [|x l Hx _ IH]; intros a b Hab Ha Hb; simpl.
  - exact Hab.
  - apply IH; [apply nadd_not_above| |]; trivial;
      apply notNegative_nadd; assumption.
Qed.

(** Adding the same amounts to a smaller start gives a smaller total;
    the amounts may be infinite. *)
Lemma nadd_le_compat (a b c : number) :
  nle a b = true -> nonneg a -> nonneg c ->
  nle (nadd a c) (nadd b c) = true /\ nonneg (nadd a c).
Proof. intros Hab Ha Hc. split; numbers. Qed.

Lemma fold_nadd_le (l : list number) :
  Forall nonneg l ->
  forall a b, nle a b = true -> nonneg a ->
    nle (fold_left nadd l a) (fold_left nadd l b) = true.
Proof.
  induction 1 as [|x l Hx _ IH]; intros a b Hab Ha; simpl.
  - exact Hab.
  - destruct (nadd_le_compat a b x Hab Ha Hx) as [Hle Hnn].
    apply IH; assumption.
Qed.

(** What is left of the first pot is not above what it held. *)
Lemma left_not_above (a x : number) :
  notNegative a -> notNegative x ->
  ngt (nadd (Fin 0) (nsub x (Math_min a x))) (nadd (Fin 0) x) = false.
Proof. intros Ha Hx. unfold nsub. signs. Qed.

Lemma notNaN_nonneg (x : number) :
  notNegative x -> isNaN x = false -> nonneg x.
Proof. intros Hx Hn. signs. Qed.

(** C3, as the code has it.  For a form [validateInputs] accepts, with
    as many funds chosen as the number-of-funds select says, and any
    usable starting pot (Infinity included).  In every month the loop
    runs, the withdrawal is the smaller of the amount of the drawdown
    type and the first pot, and taking it changes the first pot only;
    what it leaves in the first pot is never below 0, and the total of
    the pots right after it is never above the total before it: the
    comparisons [< 0] and [>] are false, as they are of NaN.  When the
    first pot is finite and the amount of the drawdown type is not NaN,
    the withdrawal is a finite amount from 0 to the first pot, the first
    pot stays at or above 0 and the total after is at most the total
    before.  The withdrawal is what the month writes down, and the
    returns, the rebalancing and the consolidation of the month work on
    the pots it leaves. *)
Theorem withdrawal_comes_from_first_pot
  (fd : formData) (startingPot : number) (v : vars) :
  validated fd ->
  In (numFunds fd) numFundsOptions ->
  parseInt (numFunds fd) = ofNat (length (funds fd)) ->
  unusable (Some startingPot) = false ->
  let n := length (funds fd) in
  let p := planOf fd n in
  reachable p (initialVars fd startingPot n (n - 1)) v ->
  running p v = true ->
  let w := withdrawalOf p v in
  let after := withdraw w (pots v) in
  w = Math_min (policyAmount p v) (numAt (pots v) 0)
  /\ after = <[0%nat := nsub (numAt (pots v) 0) w]> (pots v)
  /\ nlt (numAt after 0) (Fin 0) = false
  /\ ngt (sum after) (sum (pots v)) = false
  /\ (forall q0 : Q,
        numAt (pots v) 0 = Fin q0 ->
        isNaN (policyAmount p v) = false ->
        exists wq : Q,
          w = Fin wq /\ 0 <= wq <= q0
          /\ numAt after 0 = nsub (Fin q0) (Fin wq)
          /\ nle (Fin 0) (numAt after 0) = true
          /\ nle (sum after) (sum (pots v)) = true)
  /\ withdrawals (record p v) = withdrawals v ++ [w]
  /\ potsConsolidated p v
     = consolidate (planFunds p - 1) 0 w
         (if yearEnd v
          then rebalance (applyReturns (planReturns p) after)
          else applyReturns (planReturns p) after)
         (movedFunds v)
  /\ pots (record p v) = fst (potsAfter p v).
Proof.
  intros Hv Hsel Hfunds Huse n p Hr Hrun w after.
  pose proof (validated_accepted fd Hv) as Hacc.
  destruct (numFunds_option fd Hsel) as (n' & Hn & Hpn & _ & _).
  assert (n' = n) as Hnl.
  { rewrite Hpn in Hfunds. unfold ofNat, ofZ, inject_Z in Hfunds.
    injection Hfunds as Hfunds. unfold n. lia. }
  subst n'.
  destruct (planOf_rates fd n Hacc) as [Hrate _].
  pose proof (reachable_unsigned fd startingPot n v Hacc (proj1 Hn) Hpn Huse Hr)
    as Hu.
  pose proof (un_pots v Hu) as Hps.
  pose proof (policyAmount_notNegative p v Hrate Hu) as Hpol.
  pose proof (running_nonneg p v Hps Hrun) as Hnn.
  split; [reflexivity|]. split; [reflexivity|].
  assert (withdrawals (record p v) = withdrawals v ++ [w]) as Hrec
    by apply record_withdrawals.
  assert (pots (record p v) = fst (potsAfter p v)) as Hkept
    by apply record_pots.
  assert (nlt (numAt after 0) (Fin 0) = false
          /\ ngt (sum after) (sum (pots v)) = false
          /\ forall q0 : Q,
               numAt (pots v) 0 = Fin q0 ->
               isNaN (policyAmount p v) = false ->
               exists wq : Q,
                 w = Fin wq /\ 0 <= wq <= q0
                 /\ numAt after 0 = nsub (Fin q0) (Fin wq)
                 /\ nle (Fin 0) (numAt after 0) = true
                 /\ nle (sum after) (sum (pots v)) = true) as Hstep.
  { unfold after, withdraw.
    assert (w = Math_min (policyAmount p v) (numAt (pots v) 0)) as Hw
      by reflexivity.
    clearbody w. clear after Hrec Hkept.
    destruct (pots v) as [|x rest].
    { split; [reflexivity|]. split; [reflexivity|].
      intros q0 Hq0. discriminate Hq0. }
    change (numAt (x :: rest) 0) with x in *. cbn [insert list_insert].
    change (numAt (nsub x w :: rest) 0) with (nsub x w).
    apply Forall_cons in Hps as [Hx Hrest].
    apply Forall_cons in Hnn as [Hnx Hnrest].
    split; [rewrite Hw; apply notNegative_left; assumption|].
    split.
    { unfold sum. cbn [fold_left]. rewrite Hw.
      apply fold_nadd_not_above; [exact Hrest| | |].
      - apply left_not_above; assumption.
      - apply notNegative_nadd; [reflexivity|].
        apply notNegative_left; assumption.
      - apply notNegative_nadd; [reflexivity|exact Hx]. }
    intros q0 -> Hnan.
    pose proof (notNaN_nonneg _ Hpol Hnan) as Hpn'.
    assert (0 <= q0) as Hq0
      by (unfold nonneg in Hnx; simpl in Hnx; qprop; lra).
    destruct (Math_min_within _ q0 Hpn' Hq0) as (wq & Hwq & Hin).
    rewrite Hwq in Hw. exists wq. rewrite Hw.
    split; [reflexivity|]. split; [exact Hin|]. split; [reflexivity|].
    split; [simpl; qprop; lra|].
    unfold sum. cbn [fold_left].
    apply fold_nadd_le; [exact Hnrest| |].
    - simpl. qprop. lra.
    - unfold nonneg. simpl. qprop. lra. }
  destruct Hstep as (H1 & H2 & H3).
  split; [exact H1|]. split; [exact H2|]. split; [exact H3|].
  split; [exact Hrec|]. split; [reflexivity|exact Hkept].
Qed.

Lemma withdrawal_comes_from_first_pot_witness :
  let p := planOf sampleForm 3 in
  let v0 := initialVars sampleForm (Fin 500000) 3 2 in
  exists wq : Q,
    withdrawalOf p v0 = Fin wq
    /\ 0 <= wq <= 500000 / 3
    /\ nle (Fin 0) (numAt (withdraw (withdrawalOf p v0) (pots v0)) 0) = true
    /\ nle (sum (withdraw (withdrawalOf p v0) (pots v0))) (sum (pots v0))
       = true
    /\ withdrawals (record p v0) = [Fin wq].
Proof.
  intros p v0.
  destruct (withdrawal_comes_from_first_pot sampleForm (Fin 500000) v0)
    as (_ & _ & _ & _ & Hfinite & Hrec & _).
  - vm_compute. reflexivity.
  - simpl. auto.
  - reflexivity.
  - reflexivity.
  - apply reach_start.
  - vm_compute. reflexivity.
  - destruct (Hfinite (500000 / 3)) as (wq & Hw & Hwq & _ & Hnn & Hle).
    + reflexivity.
    + vm_compute. reflexivity.
    + exists wq. split; [exact Hw|]. split; [exact Hwq|].
      split; [exact Hnn|]. split; [exact Hle|].
      change (withdrawals (record p v0) = [] ++ [Fin wq]).
      rewrite <- Hw. exact Hrec.
Defined.

(** C3 as stated fails: the first pot does not stay at or above 0 in
    every month.  A starting pot of Infinity is usable; with a
    withdrawal in percent of the pots the first month withdraws
    [Math.min(Infinity, Infinity)] from a first pot that holds Infinity,
    and [Infinity - Infinity] is NaN, which is not [>= 0]. *)
Lemma first_pot_can_become_NaN :
  ~ (forall (fd : formData) (startingPot : number) (v : vars),
       validated fd ->
       In (numFunds fd) numFundsOptions ->
       parseInt (numFunds fd) = ofNat (length (funds fd)) ->
       unusable (Some startingPot) = false ->
       let n := length (funds fd) in
       let p := planOf fd n in
       reachable p (initialVars fd startingPot n (n - 1)) v ->
       running p v = true ->
       nle (Fin 0) (numAt (withdraw (withdrawalOf p v) (pots v)) 0) = true).
Proof.
  intros H.
  assert (nle (Fin 0)
            (numAt (withdraw
                      (withdrawalOf (planOf sampleForm 3)
                         (initialVars sampleForm PosInf 3 2))
                      (pots (initialVars sampleForm PosInf 3 2))) 0)
          = false) as Hnan by (vm_compute; reflexivity).
  assert (nle (Fin 0)
            (numAt (withdraw
                      (withdrawalOf (planOf sampleForm 3)
                         (initialVars sampleForm PosInf 3 2))
                      (pots (initialVars sampleForm PosInf 3 2))) 0)
          = true) as Hle.
  { apply (H sampleForm PosInf (initialVars sampleForm PosInf 3 2)
             sample_validated).
    - simpl. auto.
    - reflexivity.
    - reflexivity.
    - apply reach_start.
    - vm_compute. reflexivity. }
  rewrite Hle in Hnan. discriminate.
Qed.

(** ** Each year is the total of its months *)

Lemma sum_snoc (l : list number) (x : number) :
  sum (l ++ [x]) = nadd (sum l) x.
Proof. unfold sum. rewrite fold_left_app. reflexivity. Qed.

Lemma yearTotal_complete (ws : list number) (w : number) (k : nat) :
  (12 * S k <= length ws)%nat ->
  yearTotal (ws ++ [w]) k = yearTotal ws k.
Proof.
  intros Hk. unfold yearTotal.
  rewrite drop_app_le by lia.
  rewrite take_app_le by (rewrite length_drop; lia). reflexivity.
Qed.

Lemma yearTotal_running (ws : list number) (w : number) (k : nat) :
  (12 * k <= length ws < 12 * S k)%nat ->
  yearTotal (ws ++ [w]) k = nadd (yearTotal ws k) w.
Proof.
  intros Hk. unfold yearTotal.
  rewrite drop_app_le by lia.
  rewrite !take_ge by (rewrite ?length_app, length_drop; simpl; lia).
  apply sum_snoc.
Qed.

Lemma yearTotal_none (ws : list number) (k : nat) :
  (length ws <= 12 * k)%nat -> yearTotal ws k = Fin 0.
Proof.
  intros Hk. unfold yearTotal. rewrite drop_ge by lia. reflexivity.
Qed.

Lemma month_of_year (m : nat) :
  (12 * (m / 12) <= m < 12 * S (m / 12))%nat
  /\ ((m mod 12 = 11)%nat -> (S m = 12 * S (m / 12))%nat).
Proof.
  pose proof (Nat.div_mod_eq m 12) as Hm.
  pose proof (Nat.mod_upper_bound m 12) as Hr.
  lia.
Qed.

Lemma record_yearsBooked (p : plan) (v : vars) :
  yearsBooked (months v) v -> yearsBooked (S (months v)) (record p v).
Proof.
  intros [Hm Hy Ha Hc].
  destruct (month_of_year (months v)) as [Hin Hend].
  pose proof (succ_div_12 (months v)) as Hdiv.
  split.
  - rewrite record_withdrawals, length_app, Hm. cbn [length]. lia.
  - rewrite Hdiv, record_annualWithdrawals. unfold yearEnd.
    destruct (Nat.eqb (months v mod 12) 11); [|exact Hy].
    rewrite length_app, Hy. cbn [length]. lia.
  - intros k x. rewrite record_annualWithdrawals, record_withdrawals.
    unfold yearEnd. destruct (Nat.eqb (months v mod 12) 11) eqn:E.
    + intros Hk. apply lookup_app_Some in Hk as [Hk|[Hge Hk]].
      * rewrite yearTotal_complete; [exact (Ha k x Hk)|rewrite Hm].
        apply lookup_lt_Some in Hk. lia.
      * rewrite Hy in *. apply list_lookup_singleton_Some in Hk as [Hk <-].
        replace k with (months v / 12)%nat by lia.
        rewrite yearTotal_running by (rewrite Hm; lia). rewrite Hc. reflexivity.
    + intros Hk. rewrite yearTotal_complete; [exact (Ha k x Hk)|rewrite Hm].
      apply lookup_lt_Some in Hk. lia.
  - rewrite Hdiv, record_currentYearWithdrawals, record_withdrawals.
    unfold yearEnd. destruct (Nat.eqb (months v mod 12) 11) eqn:E.
    + apply Nat.eqb_eq in E. specialize (Hend E).
      rewrite yearTotal_none; [reflexivity|].
      rewrite length_app, Hm. cbn [length]. lia.
    + rewrite yearTotal_running by (rewrite Hm; lia). rewrite Hc. reflexivity.
Qed.

Lemma month_yearsBooked (p : plan) (v : vars) :
  yearsBooked (months v) v -> snd (month p v) = false ->
  yearsBooked (months (fst (month p v))) (fst (month p v)).
Proof.
  intros Hyb Hstay.
  destruct (record_yearsBooked p v Hyb) as [H1 H2 H3 H4].
  unfold month in *. destruct (nlt _ _); [discriminate|].
  cbn [fst nextMonth months]. rewrite record_months.
  split; assumption.
Qed.

(** X3.  Each entry of [annualWithdrawals] is the total of the
    withdrawals of its twelve months, added up from 0 in the order of
    the months as [currentYearWithdrawals] does: for a usable starting
    pot and a number of funds chosen in the select, entry [k] is
    [withdrawals.slice(12 * k, 12 * k + 12).reduce((s, x) => s + x, 0)];
    the entry of an unfinished year, pushed before the [break], is the
    total of the months it has. *)
Theorem each_year_is_the_total_of_its_months
  (fd : formData) (startingPot : option number) :
  In (numFunds fd) numFundsOptions ->
  unusable startingPot = false ->
  exists (res : decumulation) (n : nat),
    parseInt (numFunds fd) = ofNat n
    /\ (forall fuel,
          (wholeBelow (planMaxMonths (planOf fd n)) <= fuel)%nat ->
          simulateDecumulation fuel fd startingPot = Ok res)
    /\ forall k x,
         annualWithdrawalSeries res !! k = Some x ->
         x = sum (take 12 (drop (12 * k) (withdrawalSeries res))).
Proof.
  intros Hsel Huse.
  destruct (simulateDecumulation_final fd startingPot Hsel Huse)
    as (n & v' & Hn & Hpn & Hrun & Hfinal).
  exists (resultOf v'), n. split; [exact Hpn|]. split; [exact Hrun|].
  set (p := planOf fd n) in *.
  set (v0 := initialVars fd (default NaN startingPot) n (n - 1)) in *.
  assert (forall v, reachable p v0 v -> yearsBooked (months v) v) as Hinv.
  { apply reachable_invariant.
    - split; cbn [v0 initialVars months withdrawals annualWithdrawals
                  currentYearWithdrawals]; trivial.
      intros k x Hk. rewrite lookup_nil in Hk. discriminate.
    - intros v _ Hyb _ Hstay. apply month_yearsBooked; assumption. }
  cbn [resultOf annualWithdrawalSeries withdrawalSeries].
  fold (yearTotal (withdrawals v')).
  destruct Hfinal as [[Hr _]|(u & Hr & _ & Hm)].
  - intros k x. apply (yb_annual _ _ (Hinv v' Hr)).
  - destruct (record_yearsBooked p u (Hinv u Hr)) as [Hlen Hy Ha Hc].
    apply month_broke in Hm as [_ [[_ ->]|[_ ->]]];
      cbn [flushYear annualWithdrawals withdrawals]; [|exact Ha].
    intros k x Hk. apply lookup_app_Some in Hk as [Hk|[Hge Hk]].
    + exact (Ha k x Hk).
    + rewrite Hy in *. apply list_lookup_singleton_Some in Hk as [Hk <-].
      replace k with (S (months u) / 12)%nat by lia. exact Hc.
Qed.

Lemma each_year_is_the_total_of_its_months_witness :
  exists (res : decumulation) (n : nat),
    parseInt (numFunds sampleForm) = ofNat n
    /\ forall x,
         annualWithdrawalSeries res !! 0%nat = Some x ->
         x = sum (take 12 (withdrawalSeries res)).
Proof.
  destruct (each_year_is_the_total_of_its_months sampleForm
              (Some (Fin 500000)))
    as (res & n & Hn & _ & Hyear).
  - simpl. auto.
  - reflexivity.
  - exists res, n. split; [exact Hn|]. intros x Hx. exact (Hyear 0%nat x Hx).
Defined.

(** ** Inflation of the state pension and of the fixed drawdown *)

Lemma record_pensionMonthlyValues (p : plan) (v : vars) :
  statePensionMonthlyValues (record p v)
  = statePensionMonthlyValues v ++ [currentStatePensionMonthly (record p v)].
Proof. unfold record. destruct (potsAfter p v). reflexivity. Qed.

Lemma record_currentPensionMonthly (p : plan) (v : vars) :
  currentStatePensionMonthly (record p v)
  = if (yearEnd v && negb (String.eqb (planStatePension p) "No"))%bool
    then nmul (currentStatePensionMonthly v)
           (nadd (Fin 1) (planInflationRate p))
    else currentStatePensionMonthly v.
Proof. unfold record. destruct (potsAfter p v). reflexivity. Qed.

Lemma record_currentPensionAnnual (p : plan) (v : vars) :
  currentStatePensionAnnual (record p v)
  = if (yearEnd v && negb (String.eqb (planStatePension p) "No"))%bool
    then nmul (currentStatePensionAnnual v)
           (nadd (Fin 1) (planInflationRate p))
    else currentStatePensionAnnual v.
Proof. unfold record. destruct (potsAfter p v). reflexivity. Qed.

Lemma record_currentDrawdownFixed (p : plan) (v : vars) :
  currentDrawdownFixed (record p v)
  = if (yearEnd v
        && (String.eqb (planDrawdownType p) "fixed"
            || String.eqb (planDrawdownType p) "initialPot"))%bool
    then nmul (currentDrawdownFixed v) (nadd (Fin 1) (planInflationRate p))
    else currentDrawdownFixed v.
Proof. unfold record. destruct (potsAfter p v). reflexivity. Qed.

Lemma record_pensionFollows (p : plan) (v : vars) (a : number) :
  pensionFollows p a (months v) v ->
  pensionFollows p a (S (months v)) (record p v).
Proof.
  intros [Ha Hm Hlm Hly Hmv Hav].
  assert (currentStatePensionAnnual (record p v)
          = inflated (planInflationRate p)
              (pensionRises (planStatePension p) (S (months v) / 12)) a
          /\ currentStatePensionMonthly (record p v)
             = inflated (planInflationRate p)
                 (pensionRises (planStatePension p) (S (months v) / 12))
                 (ndiv a (Fin 12))) as [Ha' Hm'].
  { rewrite record_currentPensionAnnual, record_currentPensionMonthly,
      succ_div_12, Ha, Hm.
    unfold yearEnd, pensionRises.
    destruct (Nat.eqb (months v mod 12) 11); [|auto].
    destruct (String.eqb (planStatePension p) "No"); cbn [andb negb]; auto. }
  split; trivial.
  - rewrite record_pensionMonthlyValues, length_app, Hlm. cbn [length]. lia.
  - rewrite record_pensionAnnualValues, succ_div_12. unfold yearEnd.
    destruct (Nat.eqb (months v mod 12) 11); [|exact Hly].
    rewrite length_app, Hly. cbn [length]. lia.
  - intros j x. rewrite record_pensionMonthlyValues.
    intros Hj. apply lookup_app_Some in Hj as [Hj|[Hge Hj]].
    + apply (Hmv j x Hj).
    + rewrite Hlm in *. apply list_lookup_singleton_Some in Hj as [Hj <-].
      replace j with (months v) by lia. exact Hm'.
  - intros k x. rewrite record_pensionAnnualValues.
    destruct (yearEnd v); [|apply Hav].
    intros Hk. apply lookup_app_Some in Hk as [Hk|[Hge Hk]].
    + apply (Hav k x Hk).
    + rewrite Hly in *. apply list_lookup_singleton_Some in Hk as [Hk <-].
      replace k with (months v / 12)%nat by lia. exact Ha.
Qed.

Lemma month_pensionFollows (p : plan) (v : vars) (a : number) :
  pensionFollows p a (months v) v ->
  snd (month p v) = false ->
  pensionFollows p a (months (fst (month p v))) (fst (month p v)).
Proof.
  intros Hpi Hstay.
  destruct (record_pensionFollows p v a Hpi) as [H1 H2 H3 H4 H5 H6].
  unfold month in *. destruct (nlt _ _); [discriminate|].
  cbn [fst nextMonth months]. rewrite record_months.
  split; assumption.
Qed.

(** X4.  The state pension is raised once at every year end.  For a
    usable starting pot and a number of funds chosen in the select, the
    value recorded for month [j] (counted from 0) is the monthly pension
    of the start, [base / 12], after [floor((j + 1) / 12)] updates
    [x *= (1 + inflationRate)], and the value recorded for year [k] is
    [base] after [k] such updates; with "No" there is no update.
    [base] is 11960 for "Yes - Standard", the custom amount for
    "Yes - Custom" and 0 otherwise. *)
Theorem state_pension_rises_once_a_year
  (fd : formData) (startingPot : option number) :
  In (numFunds fd) numFundsOptions ->
  unusable startingPot = false ->
  let rate := ndiv (parseFloat (inflationRate fd)) (Fin 100) in
  let rises := pensionRises (includeStatePension fd) in
  exists (res : decumulation) (n : nat),
    parseInt (numFunds fd) = ofNat n
    /\ (forall fuel,
          (wholeBelow (planMaxMonths (planOf fd n)) <= fuel)%nat ->
          simulateDecumulation fuel fd startingPot = Ok res)
    /\ (forall j x,
          statePensionMonthlySeries res !! j = Some x ->
          x = inflated rate (rises (S j / 12)%nat)
                (ndiv (statePensionBase fd) (Fin 12)))
    /\ (forall k x,
          statePensionAnnualSeries res !! k = Some x ->
          x = inflated rate (rises k) (statePensionBase fd)).
Proof.
  intros Hsel Huse rate rises.
  destruct (simulateDecumulation_final fd startingPot Hsel Huse)
    as (n & v' & Hn & Hpn & Hrun & Hfinal).
  exists (resultOf v'), n. split; [exact Hpn|]. split; [exact Hrun|].
  set (p := planOf fd n) in *.
  set (v0 := initialVars fd (default NaN startingPot) n (n - 1)) in *.
  assert (forall v, reachable p v0 v ->
                    pensionFollows p (statePensionBase fd) (months v) v)
    as Hinv.
  { apply reachable_invariant.
    - split; cbn [v0 initialVars months currentStatePensionAnnual
                  currentStatePensionMonthly statePensionMonthlyValues
                  statePensionAnnualValues]; trivial.
      + unfold pensionRises.
        destruct (String.eqb (planStatePension p) "No"); reflexivity.
      + unfold pensionRises.
        destruct (String.eqb (planStatePension p) "No"); reflexivity.
      + intros j x Hj. rewrite lookup_nil in Hj. discriminate.
      + intros j x Hj. rewrite lookup_nil in Hj. discriminate.
    - intros v _ Hpi _ Hstay. apply month_pensionFollows; assumption. }
  cbn [resultOf statePensionMonthlySeries statePensionAnnualSeries].
  change rate with (planInflationRate p).
  change rises with (pensionRises (planStatePension p)).
  destruct Hfinal as [[Hr _]|(u & Hr & _ & Hm)].
  - destruct (Hinv v' Hr) as [_ _ _ _ Hmv Hav]. auto.
  - destruct (record_pensionFollows p u _ (Hinv u Hr))
      as [_ _ _ _ Hmv Hav].
    apply month_broke in Hm as [_ [[_ ->]|[_ ->]]]; auto.
Qed.

Lemma state_pension_rises_once_a_year_witness :
  exists (res : decumulation) (n : nat),
    parseInt (numFunds sampleForm) = ofNat n
    /\ forall x,
         statePensionAnnualSeries res !! 1%nat = Some x ->
         x = nmul (Fin 11960) (nadd (Fin 1) (ndiv (Fin 2) (Fin 100))).
Proof.
  destruct (state_pension_rises_once_a_year sampleForm (Some (Fin 500000)))
    as (res & n & Hn & _ & _ & Hannual).
  - simpl. auto.
  - reflexivity.
  - exists res, n. split; [exact Hn|]. intros x Hx.
    exact (Hannual 1%nat x Hx).
Defined.

Lemma record_drawdownFollows (p : plan) (v : vars) (b first : number) :
  planDrawdownType p = "fixed" \/ planDrawdownType p = "initialPot" ->
  drawdownFollows p b first (months v) v ->
  drawdownFollows p b first (S (months v)) (record p v).
Proof.
  intros Htype [Hc Hl (series & Hs & Hsl & Hfirst & Hv)].
  assert ((String.eqb (planDrawdownType p) "fixed"
           || String.eqb (planDrawdownType p) "initialPot")%bool = true
          /\ String.eqb (planDrawdownType p) "percentage" = false)
    as [Efixed Epct].
  { destruct Htype as [-> | ->]; split; reflexivity. }
  assert (withdrawalOf p v
          = Math_min (inflated (planInflationRate p) (months v / 12) b)
              (firstPotBefore first series (months v))) as Hw.
  { unfold withdrawalOf, policyAmount. rewrite Epct, Hc, Hfirst.
    reflexivity. }
  split.
  - rewrite record_currentDrawdownFixed, succ_div_12, Efixed, Hc.
    unfold yearEnd. destruct (Nat.eqb (months v mod 12) 11); reflexivity.
  - rewrite record_withdrawals, length_app, Hl. cbn [length]. lia.
  - exists (series ++ [numAt (pots (record p v)) 0]).
    split; [|split; [|split]].
    + rewrite record_fundBalances, list_lookup_imap, Hs, record_pots.
      reflexivity.
    + rewrite length_app, Hsl. cbn [length]. lia.
    + cbn [firstPotBefore]. unfold numAt at 2.
      rewrite lookup_app_r by lia. rewrite Hsl, Nat.sub_diag. reflexivity.
    + assert (forall j, (j <= months v)%nat ->
                firstPotBefore first
                  (series ++ [numAt (pots (record p v)) 0]) j
                = firstPotBefore first series j) as Hsame.
      { intros [|j] Hj; [reflexivity|]. cbn [firstPotBefore]. unfold numAt.
        rewrite lookup_app_l by lia. reflexivity. }
      intros j x. rewrite record_withdrawals.
      intros Hj. apply lookup_app_Some in Hj as [Hj|[Hge Hj]].
      * rewrite Hsame; [exact (Hv j x Hj)|].
        apply lookup_lt_Some in Hj. lia.
      * rewrite Hl in *. apply list_lookup_singleton_Some in Hj as [Hj <-].
        replace j with (months v) by lia.
        rewrite Hsame by lia. exact Hw.
Qed.

Lemma month_drawdownFollows (p : plan) (v : vars) (b first : number) :
  planDrawdownType p = "fixed" \/ planDrawdownType p = "initialPot" ->
  drawdownFollows p b first (months v) v ->
  snd (month p v) = false ->
  drawdownFollows p b first (months (fst (month p v))) (fst (month p v)).
Proof.
  intros Htype Hdi Hstay.
  destruct (record_drawdownFollows p v b first Htype Hdi) as [H1 H2 H3].
  unfold month in *. destruct (nlt _ _); [discriminate|].
  cbn [fst nextMonth months]. rewrite record_months.
  split; assumption.
Qed.

(** X5.  The fixed drawdown is raised once at every year end, and each
    withdrawal is capped at what the first fund held.  For the drawdown
    types "fixed" and "initialPot", a usable starting pot and a number
    of funds chosen in the select, the withdrawal recorded for month [j]
    (counted from 0) is [Math.min(d, f)], where [d] is the drawdown of
    the start after [floor(j / 12)] updates [d *= (1 + inflationRate)],
    and [f] is the balance recorded for the first fund in month [j - 1],
    or its share [startingPot / numFunds] for the first month. *)
Theorem fixed_drawdown_rises_once_a_year
  (fd : formData) (startingPot : number) :
  In (numFunds fd) numFundsOptions ->
  unusable (Some startingPot) = false ->
  drawdownType fd = "fixed" \/ drawdownType fd = "initialPot" ->
  let rate := ndiv (parseFloat (inflationRate fd)) (Fin 100) in
  exists (res : decumulation) (n : nat) (first : list number),
    parseInt (numFunds fd) = ofNat n
    /\ (forall fuel,
          (wholeBelow (planMaxMonths (planOf fd n)) <= fuel)%nat ->
          simulateDecumulation fuel fd (Some startingPot) = Ok res)
    /\ fundSeries res !! 0%nat = Some first
    /\ forall j x,
         withdrawalSeries res !! j = Some x ->
         x = Math_min (inflated rate (j / 12)%nat (drawdownBase fd startingPot))
               (match j with
                | O => ndiv startingPot (parseInt (numFunds fd))
                | S j' => numAt first j'
                end).
Proof.
  intros Hsel Huse Htype rate.
  destruct (simulateDecumulation_final fd (Some startingPot) Hsel Huse)
    as (n & v' & Hn & Hpn & Hrun & Hfinal).
  cbn [default] in Hfinal. unfold id in Hfinal.
  set (p := planOf fd n) in *.
  set (v0 := initialVars fd startingPot n (n - 1)) in *.
  set (share := ndiv startingPot (parseInt (numFunds fd))).
  assert (forall v, reachable p v0 v ->
            drawdownFollows p (drawdownBase fd startingPot) share
              (months v) v) as Hinv.
  { apply reachable_invariant.
    - split; cbn [v0 initialVars months currentDrawdownFixed withdrawals
                  fundBalances pots]; trivial.
      exists []. destruct n as [|n]; [lia|].
      split; [reflexivity|]. split; [reflexivity|]. split; [reflexivity|].
      intros j x Hj. rewrite lookup_nil in Hj. discriminate.
    - intros v _ Hdi _ Hstay. apply month_drawdownFollows; assumption. }
  assert (drawdownFollows p (drawdownBase fd startingPot) share
            (length (withdrawals v')) v') as [_ _ (first & Hf & _ & _ & Hv)].
  { destruct Hfinal as [[Hr _]|(u & Hr & _ & Hm)].
    - pose proof (Hinv v' Hr) as Hdi.
      rewrite (df_months _ _ _ _ _ Hdi). exact Hdi.
    - pose proof (record_drawdownFollows p u _ _ Htype (Hinv u Hr)) as Hdi.
      apply month_broke in Hm as [_ [[_ ->]|[_ ->]]];
        cbn [flushYear withdrawals]; rewrite (df_months _ _ _ _ _ Hdi);
        destruct Hdi as [H1 H2 H3]; split; assumption. }
  exists (resultOf v'), n, first.
  split; [exact Hpn|]. split; [exact Hrun|]. split; [exact Hf|].
  exact Hv.
Qed.

Lemma fixed_drawdown_rises_once_a_year_witness :
  exists (res : decumulation) (first : list number),
    fundSeries res !! 0%nat = Some first
    /\ forall x,
         withdrawalSeries res !! 0%nat = Some x ->
         x = Math_min (Fin 1000) (ndiv (Fin 500000) (Fin 3)).
Proof.
  destruct (fixed_drawdown_rises_once_a_year fixedDrawdownForm (Fin 500000))
    as (res & n & first & _ & _ & Hfirst & Hvalues).
  - simpl. auto.
  - reflexivity.
  - left. reflexivity.
  - exists res, first. split; [exact Hfirst|]. intros x Hx.
    exact (Hvalues 0%nat x Hx).
Defined.

(** ** A fund that is empty stays empty *)

Lemma isZero_lookup (ps : list number) (i : nat) :
  isZero (numAt ps i) -> exists x, ps !! i = Some x /\ isZero x.
Proof.
  unfold numAt. destruct (ps !! i) as [x|]; simpl; [|contradiction].
  intros Hx. exists x. auto.
Qed.

Lemma isZero_not_positive (x : number) : isZero x -> isPositive x = false.
Proof.
  destruct x as [| |q|]; simpl; try contradiction.
  intros Hq. unfold isPositive, ngt. simpl. qprop. lra.
Qed.

Lemma withdraw_later (w : number) (ps : list number) (i : nat) :
  (1 <= i)%nat -> numAt (withdraw w ps) i = numAt ps i.
Proof.
  intros Hi. unfold withdraw, numAt.
  rewrite list_lookup_insert_ne by lia. reflexivity.
Qed.

(** [Math.max(0, 0 * (1 + r))] is zero. *)
Lemma applyReturns_zero (returns ps : list number) (i : nat) (r : Q) :
  returns !! i = Some (Fin r) ->
  isZero (numAt ps i) -> isZero (numAt (applyReturns returns ps) i).
Proof.
  intros Hr Hz. apply isZero_lookup in Hz as (x & Hx & Hz).
  unfold applyReturns, numAt at 1. rewrite list_lookup_imap, Hx. simpl.
  rewrite (numAt_lookup _ _ _ Hr).
  destruct x as [| |q|]; simpl in Hz; try contradiction. simpl.
  destruct (Qleb (q * (1 + r)) 0) eqn:E; simpl; [reflexivity|].
  rewrite Hz. ring.
Qed.

(** The rebalancing gives nothing to a fund that holds nothing. *)
Lemma rebalance_zero (ps : list number) (i : nat) :
  isZero (numAt ps i) -> isZero (numAt (rebalance ps) i).
Proof.
  intros Hz. unfold rebalance.
  destruct (Nat.ltb 1 (length (List.filter isPositive ps))); [|exact Hz].
  apply isZero_lookup in Hz as (x & Hx & Hz).
  unfold numAt. rewrite list_lookup_fmap, Hx. simpl.
  rewrite (isZero_not_positive x Hz). simpl. reflexivity.
Qed.

(** The consolidation adds to the first pot only. *)
Lemma consolidate_zero (todo from : nat) (w : number) (ps : list number)
  (moved : list bool) (i : nat) :
  (1 <= i)%nat -> isZero (numAt ps i) ->
  isZero (numAt (fst (consolidate todo from w ps moved)) i).
Proof.
  intros Hi Hz. revert from. induction todo as [|todo IH]; intros from; simpl.
  - exact Hz.
  - destruct (_ && _ && _)%bool; [|apply IH]. cbn [fst].
    apply isZero_lookup in Hz as (x & Hx & Hz).
    apply lookup_lt_Some in Hx as Hlt.
    unfold numAt. destruct (Nat.eq_dec i (from + 1)%nat) as [->|Hne].
    + rewrite list_lookup_insert_eq by (rewrite length_insert; exact Hlt).
      simpl. reflexivity.
    + rewrite !list_lookup_insert_ne by lia. rewrite Hx. exact Hz.
Qed.

(** No step of the month puts money into an empty fund after the
    first. *)
Lemma potsAfter_zero (p : plan) (v : vars) (i : nat) (r : Q) :
  (1 <= i)%nat -> planReturns p !! i = Some (Fin r) ->
  isZero (numAt (pots v) i) ->
  isZero (numAt (fst (potsAfter p v)) i).
Proof.
  intros Hi Hr Hz.
  assert (isZero (numAt (fst (potsConsolidated p v)) i)) as Hc.
  { unfold potsConsolidated. apply consolidate_zero; [exact Hi|].
    assert (isZero (numAt (applyReturns (planReturns p)
                             (withdraw (withdrawalOf p v) (pots v))) i))
      as Ha.
    { apply (applyReturns_zero _ _ _ r Hr). rewrite withdraw_later; trivial. }
    destruct (yearEnd v); [apply rebalance_zero|]; exact Ha. }
  unfold potsAfter. destruct (potsConsolidated p v) as [ps moved].
  cbn [fst] in Hc. destruct (_ && _)%bool; cbn [fst]; [|exact Hc].
  apply isZero_lookup in Hc as (x & Hx & _).
  rewrite sweep_zero; [simpl; reflexivity|exact Hi|].
  apply lookup_lt_Some in Hx. exact Hx.
Qed.

Lemma planOf_returns (fd : formData) (n i : nat) :
  (i < length (funds fd))%nat ->
  exists r : Q, planReturns (planOf fd n) !! i = Some (Fin r).
Proof.
  intros Hi. destruct (lookup_lt_is_Some_2 _ _ Hi) as [f Hf].
  cbn [planReturns planOf]. rewrite list_lookup_fmap, Hf. simpl.
  eexists. reflexivity.
Qed.

Lemma record_emptied (p : plan) (v : vars) :
  (forall i, (1 <= i < length (fundBalances v))%nat ->
             exists r : Q, planReturns p !! i = Some (Fin r)) ->
  emptied v -> emptied (record p v).
Proof.
  intros Hret [Hs Hp].
  assert (forall i series m x,
            (1 <= i)%nat -> fundBalances v !! i = Some series ->
            series !! m = Some x -> isZero x ->
            isZero (numAt (fst (potsAfter p v)) i)) as Hkeep.
  { intros i series m x Hi Hseries Hm Hx.
    destruct (Hret i) as [r Hr].
    { apply lookup_lt_Some in Hseries. lia. }
    apply (potsAfter_zero p v i r Hi Hr). exact (Hp i series m x Hi Hseries Hm Hx). }
  split.
  - intros i series' Hi Hseries'.
    rewrite record_fundBalances, list_lookup_imap in Hseries'.
    destruct (fundBalances v !! i) as [series|] eqn:Hseries;
      [|discriminate]. simpl in Hseries'. injection Hseries' as <-.
    intros m m' x y Hmm Hm Hx Hm'.
    apply lookup_app_Some in Hm as [Hm|[Hge Hm]].
    + apply lookup_app_Some in Hm' as [Hm'|[Hge' Hm']].
      * exact (Hs i series Hi Hseries m m' x y Hmm Hm Hx Hm').
      * apply list_lookup_singleton_Some in Hm' as [_ <-].
        exact (Hkeep i series m x Hi Hseries Hm Hx).
    + apply list_lookup_singleton_Some in Hm as [Hm0 <-].
      apply lookup_app_Some in Hm' as [Hm'|[Hge' Hm']].
      * apply lookup_lt_Some in Hm'. lia.
      * apply list_lookup_singleton_Some in Hm' as [_ <-]. exact Hx.
  - intros i series' m x Hi Hseries' Hm Hx.
    rewrite record_pots.
    rewrite record_fundBalances, list_lookup_imap in Hseries'.
    destruct (fundBalances v !! i) as [series|] eqn:Hseries;
      [|discriminate]. simpl in Hseries'. injection Hseries' as <-.
    apply lookup_app_Some in Hm as [Hm|[Hge Hm]].
    + exact (Hkeep i series m x Hi Hseries Hm Hx).
    + apply list_lookup_singleton_Some in Hm as [_ <-]. exact Hx.
Qed.

Lemma month_emptied (p : plan) (v : vars) :
  (forall i, (1 <= i < length (fundBalances v))%nat ->
             exists r : Q, planReturns p !! i = Some (Fin r)) ->
  emptied v -> emptied (fst (month p v)).
Proof.
  intros Hret Hv. destruct (record_emptied p v Hret Hv) as [Hs Hp].
  unfold month. destruct (nlt _ _); [destruct (ngt _ _)|]; cbn [fst];
    split; assumption.
Qed.

(** X6.  A fund after the first that is empty stays empty.  With as
    many funds chosen as the number-of-funds select says and a usable
    starting pot, [simulateDecumulation] returns one series per fund,
    and in the series of every fund after the first a zero is followed
    by zeros only: the returns give [Math.max(0, 0 * (1 + r))], the
    rebalancing gives 0 to a pot that is not above 0, and the
    consolidation and the sweep add to the first pot only.  At every
    state the loop reaches, the month writes down the pot each fund ends
    with, and a pot after the first that holds zero ends the month at
    zero. *)
Theorem an_empty_fund_stays_empty
  (fd : formData) (startingPot : option number) :
  In (numFunds fd) numFundsOptions ->
  parseInt (numFunds fd) = ofNat (length (funds fd)) ->
  unusable startingPot = false ->
  let n := length (funds fd) in
  let p := planOf fd n in
  let v0 := initialVars fd (default NaN startingPot) n (n - 1) in
  (exists res : decumulation,
     (forall fuel, (wholeBelow (planMaxMonths p) <= fuel)%nat ->
        simulateDecumulation fuel fd startingPot = Ok res)
     /\ length (fundSeries res) = n
     /\ forall (i : nat) (series : list number) (m m' : nat) (x y : number),
          (1 <= i)%nat -> fundSeries res !! i = Some series ->
          (m <= m')%nat -> series !! m = Some x -> isZero x ->
          series !! m' = Some y -> isZero y)
  /\ forall v,
       reachable p v0 v ->
       fundBalances (record p v)
       = imap (fun i series => series ++ [numAt (pots (record p v)) i])
           (fundBalances v)
       /\ forall i, (1 <= i < n)%nat ->
            isZero (numAt (pots v) i) ->
            isZero (numAt (pots (record p v)) i).
Proof.
  intros Hsel Hfunds Huse n p v0.
  destruct (simulateDecumulation_final fd startingPot Hsel Huse)
    as (n' & v' & Hn & Hpn & Hrun & Hfinal).
  assert (n' = n) as Hnl.
  { rewrite Hpn in Hfunds. unfold ofNat, ofZ, inject_Z in Hfunds.
    injection Hfunds as Hfunds. unfold n. lia. }
  subst n'. fold p v0 in Hrun, Hfinal.
  assert (forall i, (1 <= i < n)%nat ->
                    exists r : Q, planReturns p !! i = Some (Fin r)) as Hret.
  { intros i Hi. apply planOf_returns. fold n. lia. }
  assert (forall v, reachable p v0 v -> aligned n v) as Hal.
  { apply reachable_invariant.
    - apply initial_aligned.
    - intros v _ Ha _ Hstay. apply month_aligned; assumption. }
  assert (forall v, reachable p v0 v -> emptied v) as Hinv.
  { intros v Hr. generalize (Hal v Hr). revert v Hr.
    apply (reachable_invariant p v0
             (fun v => aligned n v -> emptied v)).
    - intros _. split.
      + intros i series Hi Hseries m m' x y _ Hm.
        cbn [v0 initialVars fundBalances] in Hseries.
        apply lookup_replicate in Hseries as [-> _].
        rewrite lookup_nil in Hm. discriminate.
      + intros i series m x Hi Hseries Hm.
        cbn [v0 initialVars fundBalances] in Hseries.
        apply lookup_replicate in Hseries as [-> _].
        rewrite lookup_nil in Hm. discriminate.
    - intros v Hr IH _ _ _. apply month_emptied.
      + rewrite (al_funds n v (Hal v Hr)). exact Hret.
      + apply IH, Hal, Hr. }
  split.
  - exists (resultOf v'). split; [exact Hrun|].
    destruct (final_aligned p v0 v' n (initial_aligned fd _ n _) Hfinal)
      as (Hlen & _).
    split; [exact Hlen|].
    assert (emptied v') as [Hs _].
    { destruct Hfinal as [[Hr _]|(u & Hr & _ & Hm)].
      - apply Hinv, Hr.
      - replace v' with (fst (month p u)) by (rewrite Hm; reflexivity).
        apply month_emptied; [|apply Hinv, Hr].
        rewrite (al_funds n u (Hal u Hr)). exact Hret. }
    intros i series m m' x y Hi Hseries Hmm Hm Hx Hm'.
    exact (Hs i series Hi Hseries m m' x y Hmm Hm Hx Hm').
  - intros v Hr. split.
    + rewrite record_pots. apply record_fundBalances.
    + intros i Hi Hz. destruct (Hret i Hi) as [r Hrr].
      rewrite record_pots. apply (potsAfter_zero p v i r); [lia|exact Hrr|exact Hz].
Qed.

Lemma an_empty_fund_stays_empty_witness :
  let p := planOf switchAtRetirementForm 3 in
  let v0 := initialVars switchAtRetirementForm (Fin 500000) 3 2 in
  isZero (numAt (pots (record p v0)) 1)
  /\ isZero (numAt (pots (record p (fst (month p v0)))) 1).
Proof.
  intros p v0.
  destruct (an_empty_fund_stays_empty switchAtRetirementForm
              (Some (Fin 500000))) as [_ Hmonth].
  - simpl. auto.
  - reflexivity.
  - reflexivity.
  - assert (isZero (numAt (pots (record p v0)) 1)) as Hz
      by (vm_compute; reflexivity).
    split; [exact Hz|].
    assert (reachable p v0 (fst (month p v0))) as Hr.
    { apply reach_month; [apply reach_start| |]; vm_compute; reflexivity. }
    apply (proj2 (Hmonth _ Hr) 1%nat); [simpl; lia|].
    vm_compute. reflexivity.
Defined.

(** ** What validateInputs reports, and what it accepts *)

Lemma check_lookup (c : bool) (k msg : string) (m : gmap string string)
  (k' msg' : string) :
  check c k msg m !! k' = Some msg' ->
  (c = true /\ k' = k) \/ m !! k' = Some msg'.
Proof.
  unfold check. destruct c; [|auto].
  destruct (decide (k = k')) as [<-|Hne]; [auto|].
  rewrite lookup_insert_ne by exact Hne. auto.
Qed.

Lemma required_base (fd : formData) (k : string) :
  In k ["age"; "salary"; "currentPot"; "contributionRate"; "retirementAge";
        "ageToLowRiskFund"; "inflationRate"; "numFunds"] ->
  In k (map name (requiredFields fd)).
Proof.
  intros H. unfold requiredFields. rewrite map_app, in_app_iff. left. exact H.
Qed.

Lemma required_drawdown (fd : formData) (k : string) :
  (String.eqb (drawdownType fd) "percentage" = true
   /\ k = "drawdownPercentage")
  \/ (String.eqb (drawdownType fd) "fixed" = true /\ k = "drawdownFixed")
  \/ (String.eqb (drawdownType fd) "initialPot" = true
      /\ k = "drawdownInitialPotPercentage") ->
  In k (map name (requiredFields fd)).
Proof.
  intros H. unfold requiredFields.
  rewrite !map_app, !in_app_iff. right. left.
  destruct H as [[E ->]|[[E ->]|[E ->]]]; apply String.eqb_eq in E;
    rewrite E; simpl; auto.
Qed.

Lemma required_custom (fd : formData) :
  String.eqb (includeStatePension fd) "Yes - Custom" = true ->
  In "customStatePensionAnnual" (map name (requiredFields fd)).
Proof.
  intros E. unfold requiredFields.
  rewrite !map_app, !in_app_iff. right. right. rewrite E. simpl. auto.
Qed.

Lemma checkRanges_keys (fd : formData) (k msg : string) :
  checkRanges fd ∅ !! k = Some msg -> In k (map name (requiredFields fd)).
Proof.
  unfold checkRanges. cbv zeta. intros H.
  repeat match type of H with
  | check _ _ _ _ !! _ = Some _ =>
      apply check_lookup in H as [[Hc ->]|H];
      [try (apply required_base; simpl; tauto);
       apply andb_prop in Hc as [Hc _];
       first [apply required_custom; exact Hc
             |apply required_drawdown; auto 6] |]
  end.
  rewrite lookup_empty in H. discriminate.
Qed.

(** X7.  [validateInputs] returns true exactly when the object it hands
    to [setErrors] is empty, and every key of that object is the name of
    a required field of the form as it stands (the drawdown field of the
    selected drawdown type, and the custom pension amount only with
    "Yes - Custom"): no message is set for a field that is not
    required. *)
Theorem errors_are_on_required_fields (fd : formData) :
  (fst (validateInputs fd) = true <-> snd (validateInputs fd) = ∅)
  /\ forall k msg,
       snd (validateInputs fd) !! k = Some msg ->
       exists f, In f (requiredFields fd) /\ name f = k.
Proof.
  unfold validateInputs.
  destruct (hasKeys (checkNumbers (requiredFields fd) ∅)) eqn:H1; cbn [fst snd].
  - split.
    + split; [discriminate|]. intros He.
      apply hasKeys_false in He. congruence.
    + intros k msg Hk.
      apply (checkNumbers_lookup _ (requiredFields_names fd)) in Hk
        as [(f & Hin & Hname & _)|[Hk _]].
      * exists f. auto.
      * rewrite lookup_empty in Hk. discriminate.
  - apply hasKeys_false in H1. rewrite H1.
    destruct (hasKeys (checkRanges fd ∅)) eqn:H2; cbn [fst snd].
    + split.
      * split; [discriminate|]. intros He.
        apply hasKeys_false in He. congruence.
      * intros k msg Hk. apply checkRanges_keys in Hk.
        apply in_map_iff in Hk as (f & Hname & Hin). exists f. auto.
    + split; [tauto|]. intros k msg Hk.
      rewrite lookup_empty in Hk. discriminate.
Qed.

Lemma errors_are_on_required_fields_witness :
  exists f, In f (requiredFields incompleteForm) /\ name f = "salary".
Proof.
  apply (proj2 (errors_are_on_required_fields incompleteForm) "salary"
           "Salary must be a valid number.").
  vm_compute. reflexivity.
Defined.

Lemma checkNumbers_none (fields : list field) (m : gmap string string) :
  Forall (fun f => notANumber (value f) = false) fields ->
  checkNumbers fields m = m.
Proof.
  induction 1 as [|f fields Hf _ IH]; [reflexivity|].
  rewrite checkNumbers_cons, Hf. exact IH.
Qed.

Lemma not_above (x : number) (lo hi : Q) :
  (exists c, x = Fin c /\ lo < c <= hi) ->
  (nle x (Fin lo) || ngt x (Fin hi))%bool = false.
Proof.
  intros (c & -> & Hc). unfold ngt. simpl.
  apply orb_false_iff. split; qprop; lra.
Qed.

Lemma positive_not_below (x : number) :
  nlt (Fin 0) x = true -> nle x (Fin 0) = false.
Proof. destruct x; simpl; try discriminate; trivial. intros. qprop. lra. Qed.

(** X8.  [validateInputs] returns true exactly when every required
    field holds a number, [parseInt] of the age is not at or below 0,
    [parseInt] of the retirement age is not at or below [parseInt] of
    the age, and the other values are in range: salary above 0, current
    pot at least 0, contribution rate above 0 and at most 100, inflation
    rate from 0 to 20, number of funds from 1 to 5 (or not an integer
    text), age to low risk fund not below the retirement age, and the
    drawdown and custom pension amounts of the selected options above 0
    (the percentages at most 100). *)
Theorem accepted_exactly_when_in_range (fd : formData) :
  validated fd
  <-> numbersPresent fd
      /\ nle (parseInt (age fd)) (Fin 0) = false
      /\ nle (parseInt (retirementAge fd)) (parseInt (age fd)) = false
      /\ accepted fd.
Proof.
  split.
  - intros Hv. destruct (validated_checks fd Hv) as [Hnum Hrange].
    split; [exact Hnum|].
    unfold checkRanges in Hrange. cbv zeta in Hrange.
    repeat match type of Hrange with
    | check _ _ _ _ = ∅ =>
        let Hc := fresh "Hc" in
        apply check_empty in Hrange as [Hc Hrange]
    end.
    split; [assumption|]. split; [assumption|].
    apply validated_accepted, Hv.
  - intros (Hnum & Hage & Hret & Hacc).
    unfold validated, validateInputs.
    rewrite (checkNumbers_none _ _ Hnum).
    assert (checkRanges fd ∅ = ∅) as ->; [|reflexivity].
    destruct Hacc as [Hs Hp Hc Hi Hn Hsw Hdp Hdf Hdi Hcp].
    unfold checkRanges, check. cbv zeta.
    rewrite Hage, Hret, (positive_not_below _ Hs).
    assert (nlt (parseFloat (currentPot fd)) (Fin 0) = false) as ->.
    { destruct (parseFloat (currentPot fd)); simpl in *;
        try discriminate; trivial. qprop. lra. }
    rewrite (not_above _ 0 100 Hc).
    assert ((String.eqb (drawdownType fd) "percentage"
             && (nle (parseFloat (drawdownPercentage fd)) (Fin 0)
                 || ngt (parseFloat (drawdownPercentage fd)) (Fin 100)))%bool
            = false) as ->.
    { destruct (String.eqb (drawdownType fd) "percentage") eqn:E; trivial.
      apply String.eqb_eq in E. apply (not_above _ 0 100), Hdp, E. }
    assert ((String.eqb (drawdownType fd) "fixed"
             && nle (parseFloat (drawdownFixed fd)) (Fin 0))%bool = false)
      as ->.
    { destruct (String.eqb (drawdownType fd) "fixed") eqn:E; trivial.
      apply String.eqb_eq in E. apply positive_not_below, Hdf, E. }
    assert ((String.eqb (drawdownType fd) "initialPot"
             && (nle (parseFloat (drawdownInitialPotPercentage fd)) (Fin 0)
                 || ngt (parseFloat (drawdownInitialPotPercentage fd))
                      (Fin 100)))%bool = false) as ->.
    { destruct (String.eqb (drawdownType fd) "initialPot") eqn:E; trivial.
      apply String.eqb_eq in E. apply (not_above _ 0 100), Hdi, E. }
    rewrite Hsw.
    assert ((nlt (parseFloat (inflationRate fd)) (Fin 0)
             || ngt (parseFloat (inflationRate fd)) (Fin 20))%bool = false)
      as ->.
    { destruct Hi as (i & -> & Hi). unfold ngt. simpl.
      apply orb_false_iff. split; qprop; lra. }
    assert ((nlt (parseInt (numFunds fd)) (Fin 1)
             || ngt (parseInt (numFunds fd)) (Fin 5))%bool = false) as ->.
    { destruct Hn as [->|(n & -> & Hn)]; [reflexivity|]. unfold ngt. simpl.
      apply orb_false_iff. split; qprop; lra. }
    assert ((String.eqb (includeStatePension fd) "Yes - Custom"
             && nle (parseFloat (customStatePensionAnnual fd)) (Fin 0))%bool
            = false) as ->.
    { destruct (String.eqb (includeStatePension fd) "Yes - Custom") eqn:E;
        trivial.
      apply String.eqb_eq in E. apply positive_not_below, Hcp, E. }
    reflexivity.
Qed.

Lemma accepted_exactly_when_in_range_witness :
  numbersPresent sampleForm
  /\ nle (parseInt (age sampleForm)) (Fin 0) = false.
Proof.
  destruct (proj1 (accepted_exactly_when_in_range sampleForm))
    as (Hnum & Hage & _).
  - vm_compute. reflexivity.
  - split; assumption.
Defined.

(** ** A single fund *)

Lemma single_pot_after (p : plan) (v : vars) (x : number) :
  planFunds p = 1%nat -> pots v = [x] ->
  potsAfter p v
  = ([Math_max (Fin 0)
        (nmul (nsub x (withdrawalOf p v))
           (nadd (Fin 1) (numAt (planReturns p) 0)))],
     movedFunds v).
Proof.
  intros Hn Hx. unfold potsAfter, potsConsolidated. rewrite Hn, Hx.
  change (withdraw (withdrawalOf p v) [x]) with [nsub x (withdrawalOf p v)].
  cbn [applyReturns imap Nat.sub consolidate].
  set (y := Math_max _ _).
  assert (rebalance [y] = [y]) as Hreb.
  { unfold rebalance. simpl. destruct (isPositive y); reflexivity. }
  destruct (yearEnd v); rewrite ?Hreb; cbn [drop existsb];
    rewrite andb_false_r; reflexivity.
Qed.

(** X9.  With one fund there is nothing to rebalance, merge or sweep.
    For a form whose number of funds is "1" and a usable starting pot,
    [simulateDecumulation] runs the monthly loop on a single pot, and at
    every state the loop reaches the pot [x] becomes
    [Math.max(0, (x - withdrawal) * (1 + returns[0]))] in the month,
    while [movedFunds] stays empty. *)
Theorem single_fund_is_never_rebalanced_or_merged
  (fd : formData) (startingPot : number) :
  numFunds fd = "1" ->
  unusable (Some startingPot) = false ->
  let p := planOf fd 1 in
  let v0 := initialVars fd startingPot 1 0 in
  (forall fuel,
     simulateDecumulation fuel fd (Some startingPot)
     = (v ← monthLoop fuel p v0; Ok (resultOf v)))
  /\ forall v,
       reachable p v0 v ->
       exists x,
         pots v = [x]
         /\ pots (record p v)
            = [Math_max (Fin 0)
                 (nmul (nsub x (withdrawalOf p v))
                    (nadd (Fin 1) (numAt (planReturns p) 0)))]
         /\ movedFunds (record p v) = [].
Proof.
  intros Hone Huse p v0. split.
  - intros fuel. unfold simulateDecumulation. rewrite Huse, Hone.
    reflexivity.
  - intros v Hr.
    assert (exists x, pots v = [x] /\ movedFunds v = []) as (x & Hx & Hmv).
    { revert v Hr. apply reachable_invariant.
      - simpl. eauto.
      - intros v _ (x & Hx & Hmv) _ Hstay.
        unfold month in *. destruct (nlt _ _); [discriminate|].
        cbn [fst nextMonth pots movedFunds].
        unfold record. rewrite (single_pot_after p v x eq_refl Hx).
        cbn [pots movedFunds]. eauto. }
    exists x. split; [exact Hx|].
    unfold record. rewrite (single_pot_after p v x eq_refl Hx).
    cbn [pots movedFunds]. auto.
Qed.

Lemma single_fund_is_never_rebalanced_or_merged_witness :
  exists x,
    pots (initialVars oneFundForm (Fin 500000) 1 0) = [x]
    /\ movedFunds (record (planOf oneFundForm 1)
                     (initialVars oneFundForm (Fin 500000) 1 0)) = [].
Proof.
  destruct (single_fund_is_never_rebalanced_or_merged oneFundForm
              (Fin 500000)) as [_ Hmonth].
  - reflexivity.
  - reflexivity.
  - destruct (Hmonth _ (reach_start _ _)) as (x & Hx & _ & Hmoved).
    exists x. auto.
Defined.

(** ** The form through handleChange *)

Lemma fundNamed_name (f : fund) : fundNamed (fundName f) = Some f.
Proof. destruct f; reflexivity. Qed.

Lemma fundsOf_texts (l : list fund) : fundsOf (fundTexts l) = Some l.
Proof.
  unfold fundsOf, fundTexts.
  apply (mapM_fmap_Some _ (fun f => Some (fundName f))).
  intros f. apply fundNamed_name.
Qed.

Lemma fundOptions_named (v : string) :
  In v fundOptions -> exists f, fundNamed v = Some f.
Proof.
  unfold fundOptions. simpl.
  intros [<-|[<-|[<-|[<-|[<-|[]]]]]]; eexists; reflexivity.
Qed.

Lemma fundNamed_inv (v : string) (f : fund) :
  fundNamed v = Some f -> v = fundName f.
Proof.
  unfold fundNamed. intros H.
  repeat match type of H with
  | (if String.eqb ?a ?b then _ else _) = _ =>
      let E := fresh "E" in
      destruct (String.eqb a b) eqn:E;
      [apply String.eqb_eq in E; injection H as <-; exact E|]
  end.
  discriminate.
Qed.

Lemma withFunds_same (fd : formData) : withFunds (funds fd) fd = fd.
Proof. destruct fd. reflexivity. Qed.

(** Writing an option at an index of the array. *)
Lemma assign_fund (l : list fund) (i : nat) (v : string) (f : fund) :
  (i < length l)%nat -> (i < 5)%nat -> fundNamed v = Some f ->
  fundsOf (assignAt (fundTexts l) (ofNat i) v) = Some (<[i := f]> l).
Proof.
  intros Hi H5 Hf.
  assert (assignAt (fundTexts l) (ofNat i) v = <[i := Some v]> (fundTexts l))
    as ->.
  { unfold assignAt, ofNat, ofZ.
    rewrite Qfloor_Z, Nat2Z.id, Qeq_bool_refl.
    assert (Qleb 0 (inject_Z (Z.of_nat i)) = true) as ->.
    { qprop. apply (inject_Z_le 0). lia. }
    assert (Qleb (inject_Z (Z.of_nat i)) (inject_Z (2 ^ 32 - 2)) = true) as ->.
    { qprop. apply inject_Z_le. lia. }
    cbn [andb]. unfold fundTexts at 1. rewrite length_map.
    apply Nat.ltb_lt in Hi. rewrite Hi. reflexivity. }
  rewrite (fundNamed_inv v f Hf). unfold fundTexts.
  change (Some (fundName f)) with ((fun f => Some (fundName f)) f).
  change map with (@fmap list _) at 1.
  rewrite <- list_fmap_insert. apply fundsOf_texts.
Qed.

Lemma prefix_fund_pretty (i : nat) :
  (i < 5)%nat ->
  String.prefix "fund" (fundSelectName i) = true
  /\ parseInt (afterFund (fundSelectName i)) = ofNat i.
Proof.
  intros H. do 5 (destruct i as [|i]; [split; reflexivity|]). lia.
Qed.

(** [Array(Math.max(0, k - len))] has [k - len] elements. *)
Lemma arrayCreate_missing (k len : nat) :
  (Z.of_nat k <= 2 ^ 32 - 1)%Z ->
  arrayCreate (Math_max (Fin 0) (nsub (ofNat k) (ofNat len)))
  = Ok (k - len)%nat.
Proof.
  intros Hk. unfold ofNat, ofZ. simpl.
  set (d := inject_Z (Z.of_nat k) + - inject_Z (Z.of_nat len)).
  assert (d == inject_Z (Z.of_nat k - Z.of_nat len)) as Hd.
  { unfold d, Z.sub. rewrite inject_Z_plus, inject_Z_opp. reflexivity. }
  destruct (Qleb d 0) eqn:E; qprop.
  - rewrite Hd in E.
    apply (proj1 (inject_Z_le (Z.of_nat k - Z.of_nat len) 0)) in E.
    replace (k - len)%nat with 0%nat by lia. reflexivity.
  - rewrite Hd in E.
    apply (proj1 (inject_Z_lt 0 (Z.of_nat k - Z.of_nat len))) in E.
    unfold arrayCreate.
    assert (Qfloor d = (Z.of_nat k - Z.of_nat len)%Z) as Hf.
    { rewrite (Qfloor_comp _ _ Hd). apply Qfloor_Z. }
    rewrite Hf.
    assert (Qeq_bool d (inject_Z (Z.of_nat k - Z.of_nat len)) = true) as ->
      by (qprop; exact Hd).
    assert (Qleb 0 d = true) as ->.
    { qprop. rewrite Hd. apply (inject_Z_le 0). lia. }
    assert (Qleb d (inject_Z (2 ^ 32 - 1)) = true) as ->.
    { qprop. rewrite Hd. apply inject_Z_le. lia. }
    cbn [andb]. f_equal. lia.
Qed.

Lemma sliceTo_whole {A : Type} (l : list A) (k : nat) :
  sliceTo l (ofNat k) = take k l.
Proof.
  unfold sliceTo, ofNat, ofZ.
  assert (Qleb 0 (inject_Z (Z.of_nat k)) = true) as ->.
  { qprop. apply (inject_Z_le 0). lia. }
  rewrite Qfloor_Z.
  destruct (Z.ltb_spec (Z.of_nat k) 0) as [Hlt|_]; [lia|].
  rewrite Nat2Z.id. reflexivity.
Qed.

Lemma handleChange_fundSelection (fd : formData)
  (errors : gmap string string) (v : string) :
  handleChange {| targetName := "fundSelection"; targetValue := v |}
    (fd, errors)
  = Ok (Some (fd, <["fundSelection" := ""]> errors)).
Proof.
  unfold handleChange. cbn [targetName targetValue].
  change (String.prefix "fund" "fundSelection") with true. cbv iota.
  change (parseInt (afterFund "fundSelection")) with NaN.
  cbn [assignAt]. rewrite fundsOf_texts. cbn [mbind option_bind].
  rewrite withFunds_same. reflexivity.
Qed.

Lemma handleChange_keeps_fundSelection (e : changeEvent) (fd fd' : formData)
  (errors errors' : gmap string string) :
  handleChange e (fd, errors) = Ok (Some (fd', errors')) ->
  fundSelection fd' = fundSelection fd.
Proof.
  unfold handleChange.
  destruct (String.prefix "fund" (targetName e)).
  - destruct (fundsOf _) as [newFunds|]; cbn [mbind option_bind];
      [|discriminate].
    intros [= <- _]. reflexivity.
  - destruct (String.eqb (targetName e) "numFunds").
    + destruct (arrayCreate _) as [added| |]; cbn [mbind outcome_bind];
        try discriminate.
      intros [= <- _]. reflexivity.
    + intros [= <- _]. reflexivity.
Qed.

(** X10.  The "Fund Selection" select cannot change the form.  Its name
    starts with "fund", so [handleChange] takes the branch of the fund
    selects with the index [parseInt("Selection")], which is NaN: the
    form handed to [setFormData] is the form as it was, whatever the
    option.  No branch of [handleChange] writes [fundSelection], so in
    every form the component can hold it is "Future Advantage 5", the
    value it starts with. *)
Theorem fund_selection_cannot_be_changed :
  (forall (fd : formData) (errors : gmap string string) (v : string),
     handleChange {| targetName := "fundSelection"; targetValue := v |}
       (fd, errors)
     = Ok (Some (fd, <["fundSelection" := ""]> errors)))
  /\ (forall (e : changeEvent) (fd fd' : formData)
        (errors errors' : gmap string string),
        handleChange e (fd, errors) = Ok (Some (fd', errors')) ->
        fundSelection fd' = fundSelection fd)
  /\ (forall fd : formData, held fd -> fundSelection fd = FA5).
Proof.
  split; [exact handleChange_fundSelection|].
  split; [exact handleChange_keeps_fundSelection|].
  induction 1 as [|fd fd' errors errors' e _ IH _ Hchange]; [reflexivity|].
  rewrite (handleChange_keeps_fundSelection e fd fd' errors errors' Hchange).
  exact IH.
Qed.

Lemma fund_selection_cannot_be_changed_witness :
  handleChange
    {| targetName := "fundSelection"; targetValue := "Future Advantage 1" |}
    (initialFormData, ∅)
  = Ok (Some (initialFormData, <["fundSelection" := ""]> ∅)).
Proof.
  apply (proj1 fund_selection_cannot_be_changed).
Defined.

(** A field other than the fund selects and the number of funds. *)
Lemma handleChange_field (k v : string) (fd : formData)
  (errors : gmap string string) :
  String.prefix "fund" k = false -> String.eqb k "numFunds" = false ->
  handleChange {| targetName := k; targetValue := v |} (fd, errors)
  = Ok (Some (setField k v fd, <[k := ""]> errors))
  /\ numFunds (setField k v fd) = numFunds fd
  /\ funds (setField k v fd) = funds fd.
Proof.
  intros Hp Hn. unfold handleChange. cbn [targetName targetValue].
  rewrite Hp, Hn. split; [reflexivity|]. split; [|reflexivity].
  cbn [numFunds setField]. rewrite Hn. reflexivity.
Qed.

(** A new number of funds that [parseInt] reads as [k]. *)
Lemma handleChange_numFunds (v : string) (k : nat) (fd : formData)
  (errors : gmap string string) :
  parseInt v = ofNat k -> (Z.of_nat k <= 2 ^ 32 - 1)%Z ->
  handleChange {| targetName := "numFunds"; targetValue := v |} (fd, errors)
  = Ok (Some (setField "numFunds" v
                (withFunds (take k (funds fd)
                            ++ replicate (k - length (funds fd)) FA1) fd),
              <["numFunds" := ""]> errors)).
Proof.
  intros Hv Hk. unfold handleChange. cbn [targetName targetValue].
  change (String.prefix "fund" "numFunds") with false.
  change (String.eqb "numFunds" "numFunds") with true. cbv iota.
  rewrite Hv, arrayCreate_missing by exact Hk.
  cbn [mbind outcome_bind]. rewrite sliceTo_whole. reflexivity.
Qed.

Lemma toLength_ofNat (n : nat) :
  (Z.of_nat n <= 2 ^ 53 - 1)%Z -> toLength (ofNat n) = ofNat n.
Proof.
  intros Hn. unfold toLength, ofNat, ofZ.
  destruct (Qleb (inject_Z (Z.of_nat n)) 0) eqn:E; qprop.
  - apply (proj1 (inject_Z_le (Z.of_nat n) 0)) in E.
    replace n with 0%nat by lia. reflexivity.
  - rewrite Qfloor_Z. f_equal. f_equal. lia.
Qed.

Lemma ofNat_inj (a b : nat) : ofNat a = ofNat b -> a = b.
Proof.
  unfold ofNat, ofZ, inject_Z. intros [= H]. lia.
Qed.

Lemma rendered_step (fd : formData) (errors : gmap string string)
  (e : changeEvent) :
  fundsAgree fd -> rendered fd e ->
  exists fd' errors',
    handleChange e (fd, errors) = Ok (Some (fd', errors'))
    /\ fundsAgree fd'.
Proof.
  intros [Hopt Hlen] Hr. destruct e as [k v].
  assert (forall k, In k (textInputs ++ ["drawdownType"; "includeStatePension"]) ->
          exists fd' errors',
            handleChange {| targetName := k; targetValue := v |} (fd, errors)
            = Ok (Some (fd', errors'))
            /\ fundsAgree fd') as Hfield.
  { intros k' Hin.
    assert (String.prefix "fund" k' = false
            /\ String.eqb k' "numFunds" = false) as [Hp Hn].
    { simpl in Hin.
      repeat (destruct Hin as [<-|Hin]; [split; reflexivity|]).
      destruct Hin. }
    destruct (handleChange_field k' v fd errors Hp Hn) as (-> & Hnum & Hfunds).
    eexists _, _. split; [reflexivity|].
    unfold fundsAgree. rewrite Hnum, Hfunds. auto. }
  destruct Hr as [Hin|Hk Hv|Hk Hv|i Hi Hk Hv|Hk Hv|Hk Hv];
    cbn [targetName targetValue] in *.
  - apply Hfield, in_app_iff. auto.
  - subst k. rewrite handleChange_fundSelection.
    eexists _, _. split; [reflexivity|]. split; assumption.
  - subst k.
    assert (exists n, (1 <= n <= 5)%nat /\ parseInt v = ofNat n)
      as (n & Hn & Hpv).
    { simpl in Hv.
      destruct Hv as [<-|[<-|[<-|[<-|[<-|[]]]]]];
        [exists 1%nat|exists 2%nat|exists 3%nat|exists 4%nat|exists 5%nat];
        (split; [lia|reflexivity]). }
    rewrite (handleChange_numFunds v n fd errors Hpv) by lia.
    eexists _, _. split; [reflexivity|]. split.
    + exact Hv.
    + cbn [numFunds funds setField withFunds]. simpl String.eqb. cbv iota.
      rewrite Hpv. f_equal.
      rewrite length_app, length_take, length_replicate. lia.
  - subst k.
    destruct (numFunds_option fd Hopt) as (n & Hn & Hpn & _).
    rewrite Hpn in Hi, Hlen. apply ofNat_inj in Hlen.
    rewrite toLength_ofNat in Hi by lia.
    apply nlt_wholeBelow in Hi; [|discriminate].
    assert (wholeBelow (ofNat n) = n) as Hwb.
    { unfold wholeBelow, ofNat, ofZ. rewrite Qceiling_Z. apply Nat2Z.id. }
    rewrite Hwb in Hi.
    destruct (prefix_fund_pretty i) as [Hp Hidx]; [lia|].
    destruct (fundOptions_named v Hv) as [f Hf].
    unfold handleChange. cbn [targetName targetValue].
    rewrite Hp, Hidx, (assign_fund (funds fd) i v f) by (trivial; lia).
    cbn [mbind option_bind].
    eexists _, _. split; [reflexivity|]. split.
    + exact Hopt.
    + cbn [numFunds funds withFunds]. rewrite length_insert, Hpn, Hlen.
      reflexivity.
  - subst k. apply Hfield, in_app_iff. right. simpl. auto.
  - subst k. apply Hfield, in_app_iff. right. simpl. auto.
Qed.

Lemma initial_fundsAgree : fundsAgree initialFormData.
Proof. split; [simpl; auto|reflexivity]. Qed.

Lemma held_fundsAgree (fd : formData) : held fd -> fundsAgree fd.
Proof.
  induction 1 as [|fd fd' errors errors' e _ IH Hr Hchange].
  - exact initial_fundsAgree.
  - destruct (rendered_step fd errors e IH Hr) as (fd1 & errors1 & H1 & Hag).
    rewrite H1 in Hchange. injection Hchange as <- _. exact Hag.
Qed.

(** X11.  The number-of-funds select and the fund selects stay in step.
    In every form the component can hold (the initial one, and each one
    [handleChange] sets for an event of an input the form shows),
    [numFunds] is one of the options "1" to "5" and [funds] has exactly
    that many entries; and for every event of an input the form shows,
    [handleChange] throws nothing and sets a form of this kind again. *)
Theorem number_of_funds_matches_the_fund_selects (fd : formData) :
  held fd ->
  (In (numFunds fd) numFundsOptions
   /\ parseInt (numFunds fd) = ofNat (length (funds fd)))
  /\ forall (errors : gmap string string) (e : changeEvent),
       rendered fd e ->
       exists fd' errors',
         handleChange e (fd, errors) = Ok (Some (fd', errors'))
         /\ held fd'.
Proof.
  intros Hheld. pose proof (held_fundsAgree fd Hheld) as Hag.
  split; [exact Hag|].
  intros errors e Hr.
  destruct (rendered_step fd errors e Hag Hr) as (fd' & errors' & H1 & _).
  exists fd', errors'. split; [exact H1|].
  exact (held_change fd fd' errors errors' e Hheld Hr H1).
Qed.

Lemma number_of_funds_matches_the_fund_selects_witness :
  In (numFunds initialFormData) numFundsOptions
  /\ parseInt (numFunds initialFormData)
     = ofNat (length (funds initialFormData)).
Proof.
  apply (proj1 (number_of_funds_matches_the_fund_selects initialFormData
                  held_start)).
Defined.

(** X12.  Changing the number of funds.  When [parseInt] of the new
    value is NaN, [Array(NaN)] throws a RangeError before any state is
    set.  When it is a whole number [k] (at most 2^32 - 1),
    [handleChange] sets [numFunds] to the new value and [funds] to [k]
    entries: the entries the array already had, in place, and "Future
    Advantage 1" for each position beyond its old length; so funds
    dropped by a smaller number come back as "Future Advantage 1".  The
    fund selection is not touched and the error of [numFunds] is
    cleared. *)
Theorem changing_the_number_of_funds
  (fd : formData) (errors : gmap string string) (v : string) :
  (parseInt v = NaN ->
   handleChange {| targetName := "numFunds"; targetValue := v |} (fd, errors)
   = RangeError)
  /\ (forall k : nat,
        parseInt v = ofNat k -> (Z.of_nat k <= 2 ^ 32 - 1)%Z ->
        exists fd' errors',
          handleChange {| targetName := "numFunds"; targetValue := v |}
            (fd, errors)
          = Ok (Some (fd', errors'))
          /\ numFunds fd' = v
          /\ length (funds fd') = k
          /\ (forall i, (i < k)%nat ->
                funds fd' !! i
                = if Nat.ltb i (length (funds fd)) then funds fd !! i
                  else Some FA1)
          /\ fundSelection fd' = fundSelection fd
          /\ errors' = <["numFunds" := ""]> errors).
Proof.
  split.
  - intros Hnan. unfold handleChange. cbn [targetName targetValue].
    change (String.prefix "fund" "numFunds") with false.
    change (String.eqb "numFunds" "numFunds") with true. cbv iota.
    rewrite Hnan. reflexivity.
  - intros k Hv Hk.
    rewrite (handleChange_numFunds v k fd errors Hv Hk).
    eexists _, _. split; [reflexivity|].
    cbn [numFunds funds fundSelection setField withFunds].
    split; [reflexivity|]. split.
    { rewrite length_app, length_take, length_replicate. lia. }
    split; [|auto].
    intros i Hi. destruct (Nat.ltb_spec i (length (funds fd))) as [Hlt|Hge].
    + rewrite lookup_app_l by (rewrite length_take; lia).
      apply lookup_take_lt. exact Hi.
    + rewrite lookup_app_r by (rewrite length_take; lia).
      rewrite length_take. apply lookup_replicate. split; [reflexivity|lia].
Qed.

Lemma changing_the_number_of_funds_witness :
  exists fd' errors',
    handleChange {| targetName := "numFunds"; targetValue := "4" |}
      (initialFormData, ∅)
    = Ok (Some (fd', errors'))
    /\ numFunds fd' = "4"
    /\ length (funds fd') = 4%nat.
Proof.
  destruct (proj2 (changing_the_number_of_funds initialFormData ∅ "4") 4%nat)
    as (fd' & errors' & Hchange & Hnum & Hlen & _).
  - reflexivity.
  - lia.
  - exists fd', errors'. auto.
Defined.

(** ** The charts handleCalculate draws *)


Lemma arrayCreate_numFunds (fd : formData) (n : nat) :
  (1 <= n <= 5)%nat -> parseInt (numFunds fd) = ofNat n ->
  arrayCreate (toLength (parseInt (numFunds fd))) = Ok n.
Proof.
  intros Hn ->. rewrite toLength_ofNat by lia.
  unfold ofNat. rewrite arrayCreate_whole by lia. f_equal. apply Nat2Z.id.
Qed.

(** The last value of each percentile series of an accepted form with at
    least one whole year to go. *)
Lemma validated_pair (fd : formData) :
  validated fd -> validateInputs fd = (true, ∅).
Proof.
  unfold validated, validateInputs.
  destruct (hasKeys _); [discriminate|].
  destruct (hasKeys _); [discriminate|]. reflexivity.
Qed.

Lemma lookups_after_first {A : Type} (x : A) (n s : nat) :
  map (fun i => [x] !! S i) (seq s n) = replicate n None.
Proof.
  revert s. induction n as [|n IH]; intros s; [reflexivity|].
  cbn [seq map replicate]. f_equal. apply IH.
Qed.





(** X14.  [handleCalculate] less than a year before retirement.  For a
    form [validateInputs] accepts (it compares the ages after
    [parseInt], so 64.5 and 65 pass) with a number of funds [n] chosen
    in the select and fewer than one year between the ages as numbers:
    the accumulation chart gets no label and three empty series, the
    three values of the table are [undefined], the decumulation is the
    zero result of a missing pot, the fund chart gets twelve labels,
    twelve zeros for the first fund and [undefined] as the data of each
    of the other [n - 1] datasets, and the income charts get a single
    zero each. *)
Theorem less_than_a_year_to_go_draws_empty_charts
  (rand : nat -> Q) (fd : formData) (y : Q) :
  validated fd ->
  In (numFunds fd) numFundsOptions ->
  yearsOf fd = Fin y ->
  y < 1 ->
  exists (c : charts) (n : nat),
    (forall fuel, (1 <= fuel)%nat -> handleCalculate rand fuel fd = Drawn c)
    /\ parseInt (numFunds fd) = ofNat n
    /\ accumulationLabels c = []
    /\ accumulationData c = {| p25 := []; p50 := []; p75 := [] |}
    /\ tableP25 c = None /\ tableP50 c = None /\ tableP75 c = None
    /\ fundDatasets c
       = Some (replicate 12 (Fin 0)) :: replicate (n - 1) None
    /\ length (decumulationLabels c) = 12%nat
    /\ length (monthlyIncomeLabels c) = 1%nat
    /\ monthlyDrawdownData c = [Fin 0]
    /\ monthlyStatePensionData c = [Fin 0]
    /\ annualDrawdownData c = [Fin 0]
    /\ annualStatePensionData c = [Fin 0].
Proof.
  intros Hv Hsel Hy Hy1.
  destruct (numFunds_option fd Hsel) as (n & Hn & Hpn & _).
  assert (Qfloor y <= 0)%Z as Hfloor.
  { assert (Qfloor y < 1)%Z; [|lia].
    apply (inject_Z_lt (Qfloor y) 1).
    pose proof (Qfloor_le y). change (inject_Z 1) with 1. lra. }
  assert (Qceiling y <= 1)%Z as Hceil.
  { change 1%Z with (Qceiling (inject_Z 1)) at 1.
    apply Qceiling_resp_le. change (inject_Z 1) with 1. lra. }
  set (acc := {| p25 := []; p50 := []; p75 := [] |}).
  assert (forall fuel, (1 <= fuel)%nat ->
            simulateAccumulation rand fuel fd = Ok acc) as Hsim.
  { intros fuel Hfuel.
    rewrite (simulateAccumulation_ends rand fd y fuel Hy).
    - replace (Z.to_nat (Qfloor y)) with 0%nat by lia. reflexivity.
    - assert (1 < inject_Z (2 ^ 32)) by reflexivity. lra.
    - lia. }
  exists (chartsOf fd acc emptyResult (replicate 12 (Fin 0)) n), n.
  split.
  { intros fuel Hfuel. unfold handleCalculate.
    rewrite (validated_pair fd Hv). cbn [negb].
    rewrite (Hsim fuel Hfuel). cbn [acc p50].
    rewrite no_years_gives_zeros.
    cbn [emptyResult fundSeries lookup list_lookup].
    rewrite (arrayCreate_numFunds fd n Hn Hpn).
    destruct (Nat.ltb_spec 5 n) as [Hgt|_]; [lia|]. reflexivity. }
  split; [exact Hpn|].
  cbn [chartsOf accumulationLabels accumulationData tableP25 tableP50 tableP75
       fundDatasets decumulationLabels monthlyIncomeLabels
       monthlyDrawdownData monthlyStatePensionData annualDrawdownData
       annualStatePensionData acc p25 p50 p75 emptyResult fundSeries
       withdrawalSeries statePensionMonthlySeries annualWithdrawalSeries
       statePensionAnnualSeries].
  assert (map (fun i => [replicate 12 (Fin 0)] !! i) (seq 0 n)
          = Some (replicate 12 (Fin 0)) :: replicate (n - 1) None) as Hds.
  { destruct n as [|n]; [lia|]. cbn [seq map].
    replace (S n - 1)%nat with n by lia. f_equal.
    rewrite <- seq_shift, map_map. apply lookups_after_first. }
  repeat (split; [first [reflexivity|exact Hds]|]). reflexivity.
Qed.

Lemma less_than_a_year_to_go_draws_empty_charts_witness :
  exists c : charts,
    handleCalculate (fun _ => 1 # 2) 1 sixMonthsForm = Drawn c
    /\ tableP50 c = None
    /\ fundDatasets c = [Some (replicate 12 (Fin 0)); None; None].
Proof.
  destruct (less_than_a_year_to_go_draws_empty_charts (fun _ => 1 # 2)
              sixMonthsForm 0.5)
    as (c & n & Hrun & Hn & _ & _ & _ & Htable & _ & Hsets & _).
  - vm_compute. reflexivity.
  - simpl. auto.
  - vm_compute. reflexivity.
  - reflexivity.
  - exists c. split; [apply Hrun; lia|]. split; [exact Htable|].
    rewrite Hsets. apply ofNat_inj in Hn. rewrite <- Hn. reflexivity.
Defined.

(** ** A number of funds that is no length of an array *)

Lemma arrayCreate_outside (z : Z) :
  (z < 0 \/ 2 ^ 32 <= z)%Z -> arrayCreate (ofZ z) = RangeError.
Proof.
  intros Hz. unfold arrayCreate, ofZ. rewrite Qfloor_Z, Qeq_bool_refl.
  destruct Hz as [Hneg|Hbig].
  - assert (Qleb 0 (inject_Z z) = false) as ->; [|reflexivity].
    qprop. apply (inject_Z_lt z 0). exact Hneg.
  - assert (Qleb (inject_Z z) (inject_Z (2 ^ 32 - 1)) = false) as ->.
    { qprop. apply inject_Z_lt. lia. }
    rewrite andb_false_r. reflexivity.
Qed.

(** X15.  [simulateDecumulation] on a usable starting pot needs a number
    of funds it can make arrays of: when [parseInt(formData.numFunds)]
    is NaN, negative, zero or at least 2^32, the call throws a
    RangeError (from [Array(numFunds)], or from [Array(numFunds - 1)]
    when the number is zero) before the loop starts. *)
Theorem decumulation_needs_a_number_of_funds
  (fd : formData) (startingPot : option number) (fuel : nat) :
  unusable startingPot = false ->
  parseInt (numFunds fd) = NaN
  \/ (exists z, parseInt (numFunds fd) = ofZ z /\ (z <= 0 \/ 2 ^ 32 <= z)%Z) ->
  simulateDecumulation fuel fd startingPot = RangeError.
Proof.
  intros Huse Hnum. unfold simulateDecumulation. rewrite Huse.
  destruct Hnum as [->|(z & -> & Hz)]; [reflexivity|].
  destruct (Z.eq_dec z 0%Z) as [->|Hne].
  - reflexivity.
  - rewrite arrayCreate_outside by lia. reflexivity.
Qed.

Lemma decumulation_needs_a_number_of_funds_witness :
  simulateDecumulation 420 (setField "numFunds" "0" sampleForm)
    (Some (Fin 500000))
  = RangeError.
Proof.
  apply decumulation_needs_a_number_of_funds.
  - reflexivity.
  - right. exists 0%Z. split; [reflexivity|lia].
Defined.

(** ** The percentiles lie between the lowest and the highest path *)

Lemma yearPot_mono (r1 r2 : nat -> Q) (m s c p1 p2 sal : Q) (k1 k2 : nat) :
  0 <= r1 k1 -> r1 k1 <= r2 k2 -> 0 <= s -> s < 1 + m -> 0 < c ->
  0 <= p1 -> p1 <= p2 -> 0 < sal ->
  exists q1 q2,
    yearPot r1 (Fin m) (Fin s) (Fin c) (Fin p1) (Fin sal) k1 = Fin q1
    /\ yearPot r2 (Fin m) (Fin s) (Fin c) (Fin p2) (Fin sal) k2 = Fin q2
    /\ 0 <= q1 /\ q1 <= q2.
Proof.
  intros Hr1 Hr Hs Hm Hc Hp1 Hp Hsal.
  eexists _, _. split; [reflexivity|]. split; [reflexivity|].
  set (f1 := 1 + (m + s * (r1 k1 * 2 + - (1)))).
  set (f2 := 1 + (m + s * (r2 k2 * 2 + - (1)))).
  assert (0 <= sal * c) as Hcontrib by (apply Qmult_le_0_compat; lra).
  assert (0 <= s * r1 k1) as Hsr1 by (apply Qmult_le_0_compat; lra).
  assert (s * r1 k1 <= s * r2 k2) as Hsr.
  { rewrite !(Qmult_comm s). apply Qmult_le_compat_r; assumption. }
  assert (0 < f1) as Hf1 by (unfold f1; lra).
  assert (f1 <= f2) as Hf by (unfold f1, f2; lra).
  split.
  - apply Qmult_le_0_compat; lra.
  - apply Qle_trans with ((p1 + sal * c) * f2).
    + rewrite !(Qmult_comm (p1 + sal * c)).
      apply Qmult_le_compat_r; lra.
    + apply Qmult_le_compat_r; lra.
Qed.

Lemma balancesFrom_mono (r1 r2 : nat -> Q) (m s c i : Q) :
  (forall k, 0 <= r1 k) -> (forall k k', r1 k <= r2 k') ->
  0 <= s -> s < 1 + m -> 0 < c -> 0 <= i ->
  forall (n : nat) (p1 p2 sal : Q) (k1 k2 : nat),
    0 <= p1 -> p1 <= p2 -> 0 < sal ->
    Forall2 (fun a b => nle a b = true)
      (balancesFrom r1 (Fin m) (Fin s) (Fin c) (Fin i) n (Fin p1) (Fin sal) k1)
      (balancesFrom r2 (Fin m) (Fin s) (Fin c) (Fin i) n (Fin p2) (Fin sal) k2).
Proof.
  intros Hr1 Hr Hs Hm Hc Hi.
  induction n as [|n IH]; intros p1 p2 sal k1 k2 Hp1 Hp Hsal;
    cbn [balancesFrom].
  - constructor.
  - destruct (yearPot_mono r1 r2 m s c p1 p2 sal k1 k2)
      as (q1 & q2 & -> & -> & Hq1 & Hq); auto.
    constructor.
    + simpl. qprop. exact Hq.
    + apply IH; trivial. apply Qmult_lt_0_compat; lra.
Qed.

(** Every balance of a path lies between the balances of the same year
    on the path of draws 0 and on the path of draws 1. *)
Lemma pathOf_between (rand : nat -> Q) (fd : formData) (n j i : nat)
  (x : number) :
  accepted fd -> (forall k, 0 <= rand k < 1) ->
  finite (parseFloat (currentPot fd)) -> finite (parseFloat (salary fd)) ->
  pathOf rand fd n j !! i = Some x ->
  exists lo hi,
    steadyPath 0 fd n !! i = Some lo /\ steadyPath 1 fd n !! i = Some hi
    /\ nle lo x = true /\ nle x hi = true.
Proof.
  intros Hacc Hrand Hpot Hsal Hx.
  assert (Forall2 (fun a b => nle a b = true)
            (steadyPath 0 fd n) (pathOf rand fd n j)
          /\ Forall2 (fun a b => nle a b = true)
               (pathOf rand fd n j) (steadyPath 1 fd n)) as [Hlow Hhigh].
  { unfold steadyPath, pathOf.
    destruct (fundData_spread (fundSelection fd)) as [Hs Hm].
    destruct (acc_contribution fd Hacc) as (c & Ec & Hc).
    destruct (acc_inflation fd Hacc) as (infl & Ei & Hi).
    pose proof (acc_currentPot fd Hacc) as Hp0.
    pose proof (acc_salary fd Hacc) as Hs0.
    apply finite_inv in Hpot as [p0 Ep]. apply finite_inv in Hsal as [s0 Es].
    rewrite Ec, Ei, Ep, Es in *. simpl in Hp0, Hs0. qprop.
    change (ndiv (Fin c) (Fin 100)) with (Fin (c / 100)).
    change (ndiv (Fin infl) (Fin 100)) with (Fin (infl / 100)).
    assert (0 < c / 100) as Hc' by (apply Qlt_shift_div_l; lra).
    assert (0 <= infl / 100) as Hi' by (apply Qle_shift_div_l; lra).
    split; apply balancesFrom_mono; trivial; try lra;
      intros; try (destruct (Hrand k)); try (destruct (Hrand k')); lra. }
  destruct (Forall2_lookup_r _ _ _ _ _ Hlow Hx) as (lo & Hlo & Hle1).
  destruct (Forall2_lookup_l _ _ _ _ _ Hhigh Hx) as (hi & Hhi & Hle2).
  exists lo, hi. auto.
Qed.

(** X16.  The percentiles lie between the lowest and the highest path.
    For a form [validateInputs] accepts with a finite pot and salary,
    draws in [0, 1) and a finite number of years: in every year the
    three percentiles are numbers in ascending order, no smaller than
    the balance of that year on the path whose every draw is 0 (the
    return [meanReturn - volatility] each year) and no larger than the
    balance on the path whose every draw is 1 (the return
    [meanReturn + volatility]). *)
Theorem percentiles_lie_between_the_extreme_paths
  (rand : nat -> Q) (fd : formData) (y : Q) :
  validated fd ->
  (forall k, 0 <= rand k < 1) ->
  finite (parseFloat (currentPot fd)) ->
  finite (parseFloat (salary fd)) ->
  yearsOf fd = Fin y ->
  y < inject_Z (2 ^ 32) ->
  exists acc,
    (forall fuel, (Z.to_nat (Qceiling y) <= fuel)%nat ->
       simulateAccumulation rand fuel fd = Ok acc)
    /\ forall i, (i < length (p50 acc))%nat ->
         exists lo a b c hi,
           steadyPath 0 fd (Z.to_nat (Qceiling y)) !! i = Some lo
           /\ p25 acc !! i = Some (Some a)
           /\ p50 acc !! i = Some (Some b)
           /\ p75 acc !! i = Some (Some c)
           /\ steadyPath 1 fd (Z.to_nat (Qceiling y)) !! i = Some hi
           /\ nle lo a = true /\ nle a b = true
           /\ nle b c = true /\ nle c hi = true.
Proof.
  intros Hv Hrand Hpot Hsal Hy Hy32.
  pose proof (validated_accepted fd Hv) as Hacc.
  set (N := Z.to_nat (Qceiling y)).
  set (len := Z.to_nat (Qfloor y)).
  set (results := map (pathOf rand fd N) (seq 0 simulations)).
  exists (percentilesOf results len). split.
  - intros fuel Hfuel. apply simulateAccumulation_ends; trivial.
  - destruct (percentilesOf_length results len) as (_ & L50 & _).
    rewrite L50. intros i Hi.
    destruct (paths_positive rand fd N Hacc Hrand) as [Hcount Hpaths].
    fold results in Hcount, Hpaths.
    destruct (year_percentiles results N len i Hcount Hpaths)
      as (a & b & c & _ & _ & Hperm & _ & Ha & _ & Hc & Ea & Eb & Ec
          & Hab & Hbc); [apply floor_le_ceiling|exact Hi|].
    assert (forall k x, yearRow results i !! k = Some (Some x) ->
              exists j, pathOf rand fd N j !! i = Some x) as Hfrom.
    { intros k x Hk.
      assert (Some x ∈ map (fun run => run !! i) results) as Hin.
      { rewrite <- Hperm. apply list_elem_of_lookup. eauto. }
      apply list_elem_of_In, in_map_iff in Hin as (run & Hrun & Hin).
      unfold results in Hin. apply in_map_iff in Hin as (j & <- & _).
      eauto. }
    destruct (Hfrom _ _ Ha) as [ja Hja].
    destruct (Hfrom _ _ Hc) as [jc Hjc].
    destruct (pathOf_between rand fd N ja i a Hacc Hrand Hpot Hsal Hja)
      as (lo & hi & Hlo & Hhi & Hloa & _).
    destruct (pathOf_between rand fd N jc i c Hacc Hrand Hpot Hsal Hjc)
      as (lo' & hi' & _ & Hhi' & _ & Hchi).
    rewrite Hhi in Hhi'. injection Hhi' as <-.
    exists lo, a, b, c, hi. auto 12.
Qed.

Lemma percentiles_lie_between_the_extreme_paths_witness :
  exists acc lo b hi,
    simulateAccumulation (fun _ => 1 # 2) 35 sampleForm = Ok acc
    /\ steadyPath 0 sampleForm 35 !! 0%nat = Some lo
    /\ p50 acc !! 0%nat = Some (Some b)
    /\ steadyPath 1 sampleForm 35 !! 0%nat = Some hi
    /\ nle lo b = true /\ nle b hi = true.
Proof.
  destruct (percentiles_lie_between_the_extreme_paths (fun _ => 1 # 2)
              sampleForm 35)
    as (acc & Hrun & Hbounds).
  - vm_compute. reflexivity.
  - intros k. lra.
  - exact I.
  - exact I.
  - reflexivity.
  - reflexivity.
  - assert (length (p50 acc) = 35%nat) as Hlen.
    { pose proof (Hrun 35%nat (Nat.le_refl _)) as Hsim.
      rewrite (simulateAccumulation_ends (fun _ => 1 # 2) sampleForm 35 35
                 eq_refl eq_refl (Nat.le_refl _)) in Hsim.
      injection Hsim as <-. apply percentilesOf_length. }
    destruct (Hbounds 0%nat) as (lo & a & b & c & hi & Hlo & _ & Hb & Hc
                                 & Hhi & Hloa & Hab & Hbc & Hchi);
      [rewrite Hlen; lia|].
    exists acc, lo, b, hi.
    split; [apply Hrun; apply Nat.le_refl|].
    repeat split; trivial.
    + apply (nle_trans lo a b); assumption.
    + apply (nle_trans b c hi); assumption.
Defined.
